(** * ReachPilot: the discovery / gating / dispatch pipeline

    A shallow embedding of [reachpilot.mjs]: handle extraction from a post
    page, profile screening, search expansion, the candidate check with its
    tab life cycle, the API send loop and the follow-up sweep.

    Conventions of the embedding.
    - JavaScript strings are [string]s of bytes; character classes, case
      mapping and [trim] are the ASCII ones, and [slice] counts bytes: the
      embedding is exact on ASCII text.
    - The [state] object (handle -> record) is a [gmap string CreatorState]:
      what [state[h]] reads.  These are the own properties of the object
      and, once a record has been assigned to [state["__proto__"]] while
      the object had no such own property, that record, which is then the
      prototype of the object and not a property ([proto_set]).
      [outreach-state.json] is a second map that [saveState] overwrites
      with the own properties.  A name inherited from [Object.prototype]
      reads as an object without [sent] and [skippedReason], which the
      program treats as it treats no record.
    - ISO time stamps are integers (milliseconds since the epoch); [null]
      is [None].
    - Everything the browser, the network and the clock answer is an input
      (an "environment" record); every awaited call that may reject is a
      [Site] at which the environment may raise.
    - Effects run in a state-and-exception monad [M]: an exception keeps the
      machine state reached so far, as a JavaScript [throw] does.  The local
      variables that a [catch] block reads ([postTab], [profileTab],
      [suggestionTab], [found]) are fields of the machine.
    - Message texts, pacing ([sleep], [humanType]) and logging have no
      effect on the properties and are left out; the events of [Event]
      record the calls the properties speak about.
    - The credentials are present (without them the program exits before it
      opens a browser). *)

From Stdlib Require Import Ascii NArith ZArith.
From stdpp Require Import gmap strings list.

Local Open Scope string_scope.
Local Open Scope list_scope.

(* ===================================================================== *)
(** ** Strings *)
(* ===================================================================== *)

Definition in_range (lo hi : N) (c : ascii) : bool :=
  ((lo <=? N_of_ascii c) && (N_of_ascii c <=? hi))%N.

Definition is_lower (c : ascii) : bool := in_range 97 122 c.
Definition is_upper (c : ascii) : bool := in_range 65 90 c.
Definition is_digit (c : ascii) : bool := in_range 48 57 c.

(** The class [[a-zA-Z0-9._]] of every handle pattern in the source. *)
Definition is_handle_char (c : ascii) : bool :=
  is_lower c || is_upper c || is_digit c
  || Ascii.eqb c "."%char || Ascii.eqb c "_"%char.

(** [\s], restricted to ASCII: tab, LF, VT, FF, CR, space. *)
Definition is_space (c : ascii) : bool :=
  in_range 9 13 c || Ascii.eqb c " "%char.

Definition upper_char (c : ascii) : ascii :=
  if is_lower c then ascii_of_N (N_of_ascii c - 32) else c.

Definition lower_char (c : ascii) : ascii :=
  if is_upper c then ascii_of_N (N_of_ascii c + 32) else c.

Fixpoint map_string (f : ascii -> ascii) (s : string) : string :=
  match s with
  | EmptyString => EmptyString
  | String c t => String (f c) (map_string f t)
  end.

Definition toUpperCase : string -> string := map_string upper_char.
Definition toLowerCase : string -> string := map_string lower_char.

Fixpoint take_while (p : ascii -> bool) (s : string) : string :=
  match s with
  | EmptyString => EmptyString
  | String c t => if p c then String c (take_while p t) else EmptyString
  end.

Fixpoint drop_while (p : ascii -> bool) (s : string) : string :=
  match s with
  | EmptyString => EmptyString
  | String c t => if p c then drop_while p t else s
  end.

Fixpoint drop_string (n : nat) (s : string) : string :=
  match n, s with
  | O, _ => s
  | S _, EmptyString => EmptyString
  | S k, String _ t => drop_string k t
  end.

Fixpoint take_string (n : nat) (s : string) : string :=
  match n, s with
  | O, _ => EmptyString
  | S _, EmptyString => EmptyString
  | S k, String c t => String c (take_string k t)
  end.

Fixpoint trim_end (s : string) : string :=
  match s with
  | EmptyString => EmptyString
  | String c t =>
      match trim_end t with
      | EmptyString => if is_space c then EmptyString else String c EmptyString
      | t' => String c t'
      end
  end.

(** [String.prototype.trim]. *)
Definition trim (s : string) : string := trim_end (drop_while is_space s).

(** [String.prototype.startsWith]. *)
Definition startsWith (s p : string) : bool := String.prefix p s.

(** [startsWith] under the [i] flag of a pattern. *)
Definition startsWith_ci (s p : string) : bool :=
  String.prefix (toUpperCase p) (toUpperCase s).

(** [String.prototype.includes]. *)
Fixpoint includes (s needle : string) : bool :=
  String.prefix needle s
  || match s with
     | EmptyString => false
     | String _ t => includes t needle
     end.

(** A JavaScript string in a condition: the empty string is falsy. *)
Definition truthy (s : string) : bool :=
  match s with EmptyString => false | _ => true end.

(* ===================================================================== *)
(** ** The patterns of the source *)
(* ===================================================================== *)

(** [([a-zA-Z0-9._]{1,30})] when the pattern goes on with something that is
    not a handle character: the group is the whole run of handle characters,
    backtracking to a shorter one never helps, and a run longer than thirty
    characters fails.  The result is the group and the rest of the input. *)
Definition capture_handle (s : string) : option (string * string) :=
  let h := take_while is_handle_char s in
  if (1 <=? String.length h)%nat && (String.length h <=? 30)%nat
  then Some (h, drop_while is_handle_char s)
  else None.

(** [href.match(/^\/([a-zA-Z0-9._]{1,30})\/?$/)], group 1. *)
Definition match_profile_path (href : string) : option string :=
  match href with
  | String "/"%char s =>
      match capture_handle s with
      | Some (h, rest) =>
          if String.eqb rest "" || String.eqb rest "/" then Some h else None
      | None => None
      end
  | _ => None
  end.

(** [s.match(/@([a-zA-Z0-9._]{1,30})/)], group 1: the leftmost [@] that a
    handle character follows; nothing comes after the group, so it takes up
    to thirty characters of the run. *)
Fixpoint match_mention (s : string) : option string :=
  match s with
  | EmptyString => None
  | String c t =>
      if Ascii.eqb c "@"%char then
        let h := take_while is_handle_char t in
        if (1 <=? String.length h)%nat then Some (take_string 30 h)
        else match_mention t
      else match_mention t
  end.

(** One or more [\s], then the rest. *)
Definition skip_spaces1 (s : string) : option string :=
  match s with
  | String c t => if is_space c then Some (drop_while is_space t) else None
  | EmptyString => None
  end.

(** [s.match(/^([a-zA-Z0-9._]{1,30})\s+on\s+Instagram/i)], group 1. *)
Definition match_on_instagram (s : string) : option string :=
  match capture_handle s with
  | Some (h, rest) =>
      match skip_spaces1 rest with
      | Some r1 =>
          if startsWith_ci r1 "on" then
            match skip_spaces1 (drop_string 2 r1) with
            | Some r2 => if startsWith_ci r2 "Instagram" then Some h else None
            | None => None
            end
          else None
      | None => None
      end
  | None => None
  end.

(** The pattern of strategy 3 tried at the start of [s]. *)
Definition match_url_owner_here (s : string) : option string :=
  if startsWith s "instagram.com/" then
    match capture_handle (drop_string 14 s) with
    | Some (h, rest) =>
        if startsWith rest "/reel/" || startsWith rest "/p/" then Some h
        else None
    | None => None
    end
  else None.

(** [url.match(/instagram\.com\/([a-zA-Z0-9._]{1,30})\/(?:reel|p)\//)],
    group 1: the leftmost position at which the pattern matches. *)
Fixpoint match_url_owner (s : string) : option string :=
  match match_url_owner_here s with
  | Some h => Some h
  | None =>
      match s with
      | EmptyString => None
      | String _ t => match_url_owner t
      end
  end.

(** The alternatives [(male|female|unknown)] under the [i] flag. *)
Definition match_gender_word (s : string) : option string :=
  if startsWith_ci s "male" then Some (take_string 4 s)
  else if startsWith_ci s "female" then Some (take_string 6 s)
  else if startsWith_ci s "unknown" then Some (take_string 7 s)
  else None.

(** [answer.match(/GENDER:\s*(male|female|unknown)/i)], group 1. *)
Fixpoint match_gender (s : string) : option string :=
  match (if startsWith_ci s "GENDER:"
         then match_gender_word (drop_while is_space (drop_string 7 s))
         else None) with
  | Some g => Some g
  | None =>
      match s with
      | EmptyString => None
      | String _ t => match_gender t
      end
  end.

(* ===================================================================== *)
(** ** Handle extraction from a post page (strategies 1 to 3) *)
(* ===================================================================== *)

(** An [<a>] element: its [href] attribute and the text of its first
    [<span>] descendant, if it has one. *)
Record Anchor := {
  href : string;
  span_text : option string;
}.

(** What the three strategies read from the post tab. *)
Record PostPage := {
  anchors : list Anchor;        (* the anchors of the document, in order *)
  og_title : option string;     (* content of meta[property="og:title"] *)
  doc_title : string;           (* document.title *)
  page_url : string;            (* postTab.url() *)
}.

(** [skipPages] of strategy 1. *)
Definition skipPages : list string :=
  ["explore"; "reels"; "reel"; "accounts"; "direct"; "stories"; "p"; "tv";
   "about"; "legal"; "privacy"; "terms"; "tags"; "locations"].

Definition skipPages_has (h : string) : bool :=
  existsb (String.eqb h) skipPages.

Fixpoint first_some {A B : Type} (f : A -> option B) (l : list A) : option B :=
  match l with
  | [] => None
  | a :: l' =>
      match f a with
      | Some b => Some b
      | None => first_some f l'
      end
  end.

(** [m && !skipPages.has(m[1])] for one anchor. *)
Definition profile_link (a : Anchor) : option string :=
  match match_profile_path (href a) with
  | Some h => if skipPages_has h then None else Some h
  | None => None
  end.

(** A profile link whose span shows the very handle. *)
Definition labelled_profile_link (a : Anchor) : option string :=
  match profile_link a with
  | Some h =>
      match span_text a with
      | Some t => if String.eqb (trim t) h then Some h else None
      | None => None
      end
  | None => None
  end.

(** Strategy 1, the body of the first [postTab.evaluate]. *)
Definition strategy_links (pg : PostPage) : option string :=
  let allLinks := filter (fun a => startsWith (href a) "/" = true) (anchors pg) in
  match first_some labelled_profile_link allLinks with
  | Some h => Some h
  | None => first_some profile_link allLinks
  end.

Definition title_patterns (t : string) : option string :=
  match match_mention t with
  | Some h => Some h
  | None => match_on_instagram t
  end.

(** Strategy 2, the body of the second [postTab.evaluate]. *)
Definition strategy_meta (pg : PostPage) : option string :=
  match (match og_title pg with
         | Some content => title_patterns content
         | None => None
         end) with
  | Some h => Some h
  | None => title_patterns (doc_title pg)
  end.

(** Strategy 3, on the URL of the tab. *)
Definition strategy_url (pg : PostPage) : option string :=
  match_url_owner (page_url pg).

(** The three strategies in order; [t1], [t2], [t3] tell whether the
    corresponding [try] block threw, which its empty [catch] swallows. *)
Definition extract_handle (t1 t2 t3 : bool) (pg : PostPage) : option string :=
  let handle := if t1 then None else strategy_links pg in
  let handle :=
    match handle with
    | Some h => Some h
    | None => if t2 then None else strategy_meta pg
    end in
  match handle with
  | Some h => Some h
  | None => if t3 then None else strategy_url pg
  end.


(* ===================================================================== *)
(** ** Profile screening ([screenProfile]) *)
(* ===================================================================== *)

(** A value produced by [JSON.parse]. *)
#[local] Unset Elimination Schemes.
Inductive json :=
| JNull
| JBool (b : bool)
| JNum (n : Z)
| JStr (s : string)
| JArr (items : list json)
| JObj (fields : list (string * json)).
#[local] Set Elimination Schemes.

(** The last binding of a key wins, as in [JSON.parse]. *)
Fixpoint assoc_last (k : string) (fields : list (string * json)) : option json :=
  match fields with
  | [] => None
  | (k', v) :: rest =>
      match assoc_last k rest with
      | Some v' => Some v'
      | None => if String.eqb k k' then Some v else None
      end
  end.

(** [v.k] for a key that is not a built-in property; [None] is
    [undefined].  Property access on [null] is handled by the callers. *)
Definition get_prop (v : json) (k : string) : option json :=
  match v with
  | JObj fields => assoc_last k fields
  | _ => None
  end.

(** [v?.k]. *)
Definition opt_prop (v : option json) (k : string) : option json :=
  match v with
  | None | Some JNull => None
  | Some x => get_prop x k
  end.

(** [v?.[0]]. *)
Definition opt_first (v : option json) : option json :=
  match v with
  | None | Some JNull => None
  | Some (JArr items) => head items
  | Some (JObj fields) => assoc_last "0" fields
  | Some (JStr (String c _)) => Some (JStr (String c EmptyString))
  | Some _ => None
  end.

(** [data.choices?.[0]?.message?.content?.trim() || ""]; [None] when the
    expression throws a [TypeError] ([data] is [null], or the content is
    neither a string nor nullish and so has no [trim]). *)
Definition response_answer (data : json) : option string :=
  match data with
  | JNull => None
  | _ =>
      match opt_prop (opt_prop (opt_first (get_prop data "choices")) "message")
                     "content" with
      | None | Some JNull => Some ""
      | Some (JStr s) => Some (trim s)
      | Some _ => None
      end
  end.

(** The outcome of [fetch] followed by [res.json()].  The HTTP status is
    part of the response but the source never reads it. *)
Inductive FetchOutcome :=
| FetchRejects                                   (* network error, abort *)
| FetchResponse (status : Z) (body : option json). (* [None]: not JSON *)

Record ScreenResult := {
  passes : bool;
  gender : string;
}.

(** The part of [screenProfile] after [// Parse response]. *)
Definition parse_answer (answer : string) : ScreenResult :=
  let isMatch := includes (toUpperCase answer) "MATCH: YES" in
  let gender :=
    match match_gender answer with
    | Some g => toLowerCase g
    | None => "unknown"
    end in
  {| passes := isMatch; gender := gender |}.

Definition screen_pass : ScreenResult := {| passes := true; gender := "unknown" |}.

(** The [try { ... } catch] of [screenProfile]: every exception inside the
    block ends in the [catch], which returns a pass. *)
Definition screen_response (r : FetchOutcome) : ScreenResult :=
  match r with
  | FetchRejects => screen_pass
  | FetchResponse _ None => screen_pass
  | FetchResponse _ (Some data) =>
      match response_answer data with
      | Some answer => parse_answer answer
      | None => screen_pass
      end
  end.

(** The settings the pipeline reads from [CONFIG] and the environment. *)
Record Config := {
  SCREENING_ENABLED : bool;
  OPENAI_KEY : string;
  ownHandle : string;             (* CONFIG.instagram?.handle || "" *)
  igSearchQueries : list string;
}.

Definition screening_active (cfg : Config) : bool :=
  SCREENING_ENABLED cfg && truthy (OPENAI_KEY cfg).

(* ===================================================================== *)
(** ** Search expansion (steps 2 and 3 of [searchInstagramForCreators]) *)
(* ===================================================================== *)

(** What [getAttribute('href')] gives for one element: it throws, or it
    returns the attribute ([None] is [null]). *)
Inductive AttrRead :=
| AttrThrows
| AttrValue (v : option string).

Definition absolute_url (href : string) : string :=
  if startsWith href "http" then href else "https://www.instagram.com" +:+ href.

(** The loop over the first five suggestion links.  It runs inside a
    [try]: a throw ends it and keeps what was pushed so far. *)
Fixpoint read_suggestions (links : list AttrRead) (suggestionUrls : list string)
  : list string :=
  match links with
  | [] => suggestionUrls
  | AttrThrows :: _ => suggestionUrls
  | AttrValue None :: rest => read_suggestions rest suggestionUrls
  | AttrValue (Some h) :: rest =>
      if truthy h
      then read_suggestions rest (suggestionUrls ++ [absolute_url h])
      else read_suggestions rest suggestionUrls
  end.

Definition hex_digit (n : N) : ascii :=
  if (n <? 10)%N then ascii_of_N (48 + n) else ascii_of_N (55 + n).

Definition uri_unreserved (c : ascii) : bool :=
  is_lower c || is_upper c || is_digit c
  || existsb (Ascii.eqb c) ["-"; "_"; "."; "!"; "~"; "*"; "'"; "("; ")"]%char.

(** [encodeURIComponent] on a string of bytes. *)
Fixpoint encodeURIComponent (s : string) : string :=
  match s with
  | EmptyString => EmptyString
  | String c t =>
      if uri_unreserved c then String c (encodeURIComponent t)
      else String "%"%char
             (String (hex_digit (N_of_ascii c / 16))
                (String (hex_digit (N_of_ascii c mod 16))
                   (encodeURIComponent t)))
  end.

(** [suggestionUrls] after step 2.  [links] is what the locator's [all()]
    returned, [None] when it threw. *)
Definition suggestion_urls (query : string) (links : option (list AttrRead))
  : list string :=
  let suggestionUrls :=
    match links with
    | Some l => read_suggestions (take 5 l) []
    | None => []
    end in
  match suggestionUrls with
  | [] => ["https://www.instagram.com/explore/search/keyword/?q="
             +:+ encodeURIComponent query]
  | _ => suggestionUrls
  end.

(** The loop that fills [reelUrls] for one suggestion, with its [seenUrls]
    set; [None] when a [getAttribute] throws (the exception leaves the
    suggestion's [try] block). *)
Fixpoint collect_reels (links : list AttrRead) (seenUrls : gset string)
    (reelUrls : list string) : option (list string) :=
  match links with
  | [] => Some reelUrls
  | AttrThrows :: _ => None
  | AttrValue None :: rest => collect_reels rest seenUrls reelUrls
  | AttrValue (Some h) :: rest =>
      if truthy h then
        let fullUrl := absolute_url h in
        if bool_decide (fullUrl ∈ seenUrls)
        then collect_reels rest seenUrls reelUrls
        else collect_reels rest ({[fullUrl]} ∪ seenUrls) (reelUrls ++ [fullUrl])
      else collect_reels rest seenUrls reelUrls
  end.

(** [reelUrls] of one suggestion: at most 24 links are read, and
    [seenUrls] starts empty for every suggestion. *)
Definition reel_urls (reelLinks : list AttrRead) : option (list string) :=
  collect_reels (take 24 reelLinks) ∅ [].

(* ===================================================================== *)
(** ** Reply detection ([checkReply]) *)
(* ===================================================================== *)

(** What the profile shows when [checkReply] looks at it. *)
Record ThreadView := {
  message_button : bool;       (* the Message button appeared and was clicked *)
  message_rows : option nat;   (* div[role="row"] count; [None]: all() threw *)
}.

Record ReplyResult := {
  rr_replied : bool;
  rr_error : bool;
}.

Definition checkReply_result (v : ThreadView) : ReplyResult :=
  if message_button v then
    match message_rows v with
    | Some n => {| rr_replied := (6 <? n)%nat; rr_error := false |}
    | None => {| rr_replied := false; rr_error := true |}
    end
  else {| rr_replied := false; rr_error := true |}.

(* ===================================================================== *)
(** ** The state store and the machine *)
(* ===================================================================== *)

(** One record of [outreach-state.json].  Fields a writer leaves out
    ([skippedReason], [skippedAt], [followedUpAt], [source]) are [None]. *)
Record CreatorState := {
  sent : bool;
  sentAt : option Z;
  skipped : bool;
  skippedReason : option string;
  skippedAt : option Z;
  replied : bool;
  followedUp : bool;
  followedUpAt : option Z;
  reelUrl : string;
  source : option string;
}.

Definition set_replied (r : CreatorState) : CreatorState :=
  {| sent := sent r; sentAt := sentAt r; skipped := skipped r;
     skippedReason := skippedReason r; skippedAt := skippedAt r;
     replied := true; followedUp := followedUp r;
     followedUpAt := followedUpAt r; reelUrl := reelUrl r;
     source := source r |}.

Definition set_followedUp (at_ : Z) (r : CreatorState) : CreatorState :=
  {| sent := sent r; sentAt := sentAt r; skipped := skipped r;
     skippedReason := skippedReason r; skippedAt := skippedAt r;
     replied := replied r; followedUp := true;
     followedUpAt := Some at_; reelUrl := reelUrl r;
     source := source r |}.

(** [r.skippedReason === "screening"]. *)
Definition is_screened_out (r : CreatorState) : bool :=
  match skippedReason r with
  | Some reason => String.eqb reason "screening"
  | None => false
  end.

(** The nesting of browser tabs: the main page, then search results,
    post, profile. *)
Inductive Level := MainPage | Level1 | Level2 | Level3.

(** The calls the properties speak about, as they happen. *)
Inductive Event :=
| OpenPost (url : string)               (* postTab.goto(url) *)
| OpenProfile (h : string)              (* navigation to the profile of h *)
| ScreenProfile (h : string)            (* screenProfile(.., h) is called *)
| Screened (h : string) (pass : bool)   (* ... and returned *)
| SendMessages (h : string)             (* sendMessages(.., h, ..) is called *)
| Sent (h : string) (success : bool)    (* ... and returned *)
| CheckReply (h : string)               (* checkReply(.., h) is called *)
| FollowUp (h : string).                (* the follow-up message is submitted *)

(** The state a run works on.  Besides the store, the open tabs and the
    event log, it holds the local variables that the source assigns inside
    a [try] and reads in the matching [catch]. *)
Record Machine := {
  state : gmap string CreatorState;       (* what [state[h]] reads *)
  proto_set : bool;                       (* ["__proto__"] is the prototype *)
  state_file : gmap string CreatorState;  (* outreach-state.json *)
  tabs : list (nat * Level);              (* open pages, by identity *)
  next_tab : nat;                         (* identity of the next page *)
  log : list Event;                       (* newest event first *)
  found : list string;                    (* [found] *)
  suggestionTab : option nat;
  postTab : option nat;
  profileTab : option nat;
}.

Definition with_state (f : gmap string CreatorState -> gmap string CreatorState)
    (m : Machine) : Machine :=
  {| state := f (state m); proto_set := proto_set m; state_file := state_file m; tabs := tabs m;
     next_tab := next_tab m; log := log m; found := found m;
     suggestionTab := suggestionTab m; postTab := postTab m;
     profileTab := profileTab m |}.

Definition with_proto_set (b : bool) (m : Machine) : Machine :=
  {| state := state m; proto_set := b; state_file := state_file m;
     tabs := tabs m;
     next_tab := next_tab m; log := log m; found := found m;
     suggestionTab := suggestionTab m; postTab := postTab m;
     profileTab := profileTab m |}.

Definition with_state_file (d : gmap string CreatorState) (m : Machine) : Machine :=
  {| state := state m; proto_set := proto_set m; state_file := d; tabs := tabs m;
     next_tab := next_tab m; log := log m; found := found m;
     suggestionTab := suggestionTab m; postTab := postTab m;
     profileTab := profileTab m |}.

Definition with_tabs (t : list (nat * Level)) (n : nat) (m : Machine) : Machine :=
  {| state := state m; proto_set := proto_set m; state_file := state_file m; tabs := t;
     next_tab := n; log := log m; found := found m;
     suggestionTab := suggestionTab m; postTab := postTab m;
     profileTab := profileTab m |}.

Definition with_log (l : list Event) (m : Machine) : Machine :=
  {| state := state m; proto_set := proto_set m; state_file := state_file m; tabs := tabs m;
     next_tab := next_tab m; log := l; found := found m;
     suggestionTab := suggestionTab m; postTab := postTab m;
     profileTab := profileTab m |}.

Definition with_found (f : list string) (m : Machine) : Machine :=
  {| state := state m; proto_set := proto_set m; state_file := state_file m; tabs := tabs m;
     next_tab := next_tab m; log := log m; found := f;
     suggestionTab := suggestionTab m; postTab := postTab m;
     profileTab := profileTab m |}.

Definition with_suggestionTab (t : option nat) (m : Machine) : Machine :=
  {| state := state m; proto_set := proto_set m; state_file := state_file m; tabs := tabs m;
     next_tab := next_tab m; log := log m; found := found m;
     suggestionTab := t; postTab := postTab m;
     profileTab := profileTab m |}.

Definition with_postTab (t : option nat) (m : Machine) : Machine :=
  {| state := state m; proto_set := proto_set m; state_file := state_file m; tabs := tabs m;
     next_tab := next_tab m; log := log m; found := found m;
     suggestionTab := suggestionTab m; postTab := t;
     profileTab := profileTab m |}.

Definition with_profileTab (t : option nat) (m : Machine) : Machine :=
  {| state := state m; proto_set := proto_set m; state_file := state_file m; tabs := tabs m;
     next_tab := next_tab m; log := log m; found := found m;
     suggestionTab := suggestionTab m; postTab := postTab m;
     profileTab := t |}.

(** The pages still open once [id] is closed.  Closing a page that is
    already closed changes nothing. *)
Definition remove_tab (id : nat) (t : list (nat * Level)) : list (nat * Level) :=
  filter (fun p => p.1 ≠ id) t.

Definition is_deep (l : Level) : bool :=
  match l with Level2 | Level3 => true | _ => false end.

(** The number of open Level-2 and Level-3 tabs. *)
Definition open_deep (t : list (nat * Level)) : nat :=
  length (filter (fun p => is_deep p.2 = true) t).

(* ===================================================================== *)
(** ** The monad: machine state and exceptions *)
(* ===================================================================== *)

Inductive Result (A : Type) :=
| Returned (a : A)
| Thrown.
Arguments Returned {A} a.
Arguments Thrown {A}.

Definition M (A : Type) : Type := Machine -> Result A * Machine.

Definition ret {A} (a : A) : M A := fun m => (Returned a, m).

Definition throw {A} : M A := fun m => (Thrown, m).

Definition bind {A B} (c : M A) (k : A -> M B) : M B :=
  fun m =>
    match c m with
    | (Returned a, m') => k a m'
    | (Thrown, m') => (Thrown, m')
    end.

(** [try { c } catch { handler }]. *)
Definition try_catch {A} (c : M A) (handler : M A) : M A :=
  fun m =>
    match c m with
    | (Returned a, m') => (Returned a, m')
    | (Thrown, m') => handler m'
    end.

(** [await c.catch(() => {})]. *)
Definition quietly (c : M unit) : M unit := try_catch c (ret tt).

Notation "'let!' x ':=' c 'in' k" := (bind c (fun x => k))
  (at level 10, x name, c at level 100, k at level 200).
Notation "c '>>>' k" := (bind c (fun _ => k))
  (at level 100, k at level 200, right associativity).

Definition gets {A} (f : Machine -> A) : M A := fun m => (Returned (f m), m).
Definition modify (f : Machine -> Machine) : M unit := fun m => (Returned tt, f m).

Definition emit (e : Event) : M unit := modify (fun m => with_log (e :: log m) m).

(** [state[h]]. *)
Definition lookup_state (h : string) : M (option CreatorState) :=
  gets (fun m => state m !! h).

(** Whether [state[h] = r] runs the setter the object inherits for
    ["__proto__"]: the key is ["__proto__"] and the object has no own
    property of that name (there is no entry, or the entry is the
    prototype already). *)
Definition sets_prototype (h : string) (m : Machine) : bool :=
  String.eqb h "__proto__"
  && match state m !! h with
     | Some _ => proto_set m
     | None => true
     end.

(** [state[h] = r]: later reads of [state[h]] give [r].  Through the
    inherited setter [r] becomes the prototype of [state] and no own
    property is made. *)
Definition put_state (h : string) (r : CreatorState) : M unit :=
  modify (fun m =>
            with_proto_set (sets_prototype h m || proto_set m)
              (with_state (insert h r) m)).

(** The own properties of [state], which is what [JSON.stringify(state)]
    writes. *)
Definition own_properties (m : Machine) : gmap string CreatorState :=
  if proto_set m then delete "__proto__" (state m) else state m.

(** The file after [fs.writeFileSync(STATE_FILE, JSON.stringify(s))]. *)
Definition save_state (m : Machine) : Machine :=
  with_state_file (own_properties m) m.

(* ===================================================================== *)
(** ** The environment of a run *)
(* ===================================================================== *)

(** The awaited calls that may reject.  Each is named after the call in
    the source; a group of calls in a row with nothing observable between
    them is one site. *)
Inductive Site :=
(* searchInstagramForCreators, one post *)
| PostNewPage            (* postTab = await context.newPage() *)
| PostGoto               (* postTab.goto, dismissPopups *)
| EvalLinks              (* strategy 1 evaluate *)
| EvalMeta               (* strategy 2 evaluate *)
| ReadUrl                (* strategy 3 *)
| DebugNoUsername        (* debugCapture(postTab, post-no-username) *)
| ClosePostNoUsername
| ClosePostOwn
| ClosePostSent
| ClosePostScreened
| ClosePostFound
| ProfileNewPage         (* profileTab = await context.newPage() *)
| ProfileGoto            (* profileTab.goto, dismissPopups *)
| BrowseProfile          (* browseProfile *)
| ScreenCapture          (* screenProfile before its try: scroll, screenshot *)
| SaveScreened           (* saveState after a rejection *)
| CloseProfileRejected
| ClosePostRejected
| SendThrows             (* sendMessages rejects *)
| SaveSent               (* saveState after sendMessages *)
| CloseProfile
| ClosePost
(* searchInstagramForCreators, one suggestion *)
| SuggestionNewPage
| SuggestionGoto         (* suggestionTab.goto, dismissPopups *)
| ReelLocator            (* locator(...).all() on the results page *)
| DebugEmpty             (* debugCapture(suggestionTab, ...-empty) *)
| CloseSuggestion
(* searchInstagramForCreators, before the suggestions *)
| DismissPopups
(* the run functions *)
| Login                  (* session check, login, storageState, browseFeed *)
| BrowseFeed
| SearchAndOpen          (* searchAndOpenProfile *)
| BackToFeed
| SaveLoop               (* saveState at the end of a follow-up iteration *)
| SaveOnError            (* saveState in the outer catch of a run *)
| StoreSession.          (* context.storageState after the loop *)

(** How [sendMessages] ends when it does not reject. *)
Inductive SendOutcome :=
| SendNoButton            (* no Message button: returns false *)
| SendNoInput             (* no message input: returns false *)
| SendAll.                (* every message typed and submitted: returns true *)

(** Everything the world answers while one candidate is processed. *)
Record CandidateEnv := {
  raises : Site -> bool;
  page : PostPage;
  fetch : FetchOutcome;
  send : SendOutcome;
  now : Z;                  (* new Date() *)
}.

(** ... while one suggestion is processed. *)
Record SuggestionEnv := {
  sg_raises : Site -> bool;
  reelLinks : list AttrRead;
  posts : nat -> CandidateEnv;      (* by index in [reelUrls] *)
}.

(** ... while one query is processed. *)
Record QueryEnv := {
  q_raises : Site -> bool;
  search_icon : bool;               (* the Search icon appeared *)
  search_input : bool;              (* the query could be typed *)
  suggestionLinks : option (list AttrRead);  (* [None]: all() threw *)
  suggestions : nat -> SuggestionEnv;        (* by index in [suggestionUrls] *)
  new_handles : nat -> CandidateEnv;  (* by index in [newHandles], runIGSearch *)
}.

(** An entry of [discovered-creators.json], as far as a run reads it. *)
Record Creator := {
  c_handle : string;
  c_reelUrl : string;
}.

(** How the [try] block that types the follow-up ends. *)
Inductive FollowupOutcome :=
| FollowupNoInput         (* waitFor or click rejects: nothing is sent *)
| FollowupTypingFails     (* humanType or Enter rejects *)
| FollowupSubmitted.

(** Everything the world answers in one iteration of the follow-up sweep. *)
Record FollowEnv := {
  f_raises : Site -> bool;
  thread : ThreadView;
  date_now : Z;             (* Date.now() *)
  followup : FollowupOutcome;
  followup_done_at : Z;     (* new Date() after the follow-up *)
}.

(* ===================================================================== *)
(** ** Primitive operations *)
(* ===================================================================== *)

(** An awaited call that may reject and has no other effect here. *)
Definition await (raises : Site -> bool) (s : Site) : M unit :=
  if raises s then throw else ret tt.

(** [context.newPage()]. *)
Definition newPage (raises : Site -> bool) (s : Site) (l : Level) : M nat :=
  if raises s then throw
  else fun m =>
    (Returned (next_tab m),
     with_tabs (tabs m ++ [(next_tab m, l)]) (S (next_tab m)) m).

(** [tab.close()]: the page is gone afterwards even when the call
    rejects. *)
Definition close (raises : Site -> bool) (s : Site) (id : nat) : M unit :=
  modify (fun m => with_tabs (remove_tab id (tabs m)) (next_tab m) m) >>>
  await raises s.

(** [if (tab) await tab.close().catch(() => {})]. *)
Definition close_if_open (tab : option nat) : M unit :=
  match tab with
  | Some id => modify (fun m => with_tabs (remove_tab id (tabs m)) (next_tab m) m)
  | None => ret tt
  end.

(** [saveState(state)]: the file is rewritten from the object, unless the
    write throws. *)
Definition saveState (raises : Site -> bool) (s : Site) : M unit :=
  await raises s >>>
  modify save_state.

(** [handle.toLowerCase() === ownHandle.toLowerCase()], guarded by
    [ownHandle] being non-empty. *)
Definition is_own (cfg : Config) (handle : string) : bool :=
  truthy (ownHandle cfg)
  && String.eqb (toLowerCase handle) (toLowerCase (ownHandle cfg)).

(** The record written when screening rejects, in the search pipeline. *)
Definition screened_record (at_ : Z) (url : string) (src : string) : CreatorState :=
  {| sent := false; sentAt := None; skipped := true;
     skippedReason := Some "screening"; skippedAt := Some at_;
     replied := false; followedUp := false; followedUpAt := None;
     reelUrl := url; source := Some src |}.

(** The record written after [sendMessages] returned [success]. *)
Definition send_record (success : bool) (at_ : Z) (url : string)
    (src : option string) : CreatorState :=
  {| sent := success; sentAt := if success then Some at_ else None;
     skipped := negb success;
     skippedReason := None; skippedAt := None;
     replied := false; followedUp := false; followedUpAt := None;
     reelUrl := url; source := src |}.

(** The record [runSend] writes when screening rejects. *)
Definition send_screened_record (url : string) : CreatorState :=
  {| sent := false; sentAt := None; skipped := true;
     skippedReason := Some "screening"; skippedAt := None;
     replied := false; followedUp := false; followedUpAt := None;
     reelUrl := url; source := None |}.

(** [screenProfile(page, handle)]. *)
Definition screenProfile (cfg : Config) (env : CandidateEnv) (handle : string)
  : M ScreenResult :=
  emit (ScreenProfile handle) >>>
  if negb (screening_active cfg) then
    emit (Screened handle true) >>> ret screen_pass
  else
    await (raises env) ScreenCapture >>>
    let result := screen_response (fetch env) in
    emit (Screened handle (passes result)) >>> ret result.

(** [sendMessages(page, handle, messages)]. *)
Definition sendMessages (env : CandidateEnv) (handle : string) : M bool :=
  emit (SendMessages handle) >>>
  await (raises env) SendThrows >>>
  let success :=
    match send env with
    | SendAll => true
    | SendNoButton | SendNoInput => false
    end in
  emit (Sent handle success) >>> ret success.

(* ===================================================================== *)
(** ** [searchInstagramForCreators] *)
(* ===================================================================== *)

(** How the profile block of a post ends: with [continue], or by falling
    out of the inner [try] to [postTab.close()]. *)
Inductive Flow := Continue | FallThrough.

(** The inner [try { ... } catch] of a post: profile tab, screening,
    messages. *)
Definition process_profile (cfg : Config) (env : CandidateEnv)
    (handle reelUrl : string) (post : nat) : M Flow :=
  try_catch
    (let! tab := newPage (raises env) ProfileNewPage Level3 in
     modify (with_profileTab (Some tab)) >>>
     emit (OpenProfile handle) >>>
     await (raises env) ProfileGoto >>>
     await (raises env) BrowseProfile >>>
     let! screenResult := screenProfile cfg env handle in
     if negb (passes screenResult) then
       put_state handle (screened_record (now env) reelUrl "ig") >>>
       saveState (raises env) SaveScreened >>>
       close (raises env) CloseProfileRejected tab >>>
       close (raises env) ClosePostRejected post >>>
       ret Continue
     else
       let! success := sendMessages env handle in
       put_state handle (send_record success (now env) reelUrl (Some "ig")) >>>
       saveState (raises env) SaveSent >>>
       (if success then modify (fun m => with_found (found m ++ [handle]) m)
        else ret tt) >>>
       close (raises env) CloseProfile tab >>>
       ret FallThrough)
    (let! tab := gets profileTab in
     close_if_open tab >>>
     ret FallThrough).

(** From [if (found.includes(handle))] to the end of the post's [try]. *)
Definition enter_post (cfg : Config) (env : CandidateEnv)
    (handle reelUrl : string) (post : nat) : M unit :=
  let! found := gets found in
  if bool_decide (handle ∈ found) then
    close (raises env) ClosePostFound post
  else
    let! flow := process_profile cfg env handle reelUrl post in
    match flow with
    | Continue => ret tt
    | FallThrough => close (raises env) ClosePost post
    end.

(** The [try] block of one post. *)
Definition post_body (cfg : Config) (env : CandidateEnv) (reelUrl : string)
  : M unit :=
  let! post := newPage (raises env) PostNewPage Level2 in
  modify (with_postTab (Some post)) >>>
  emit (OpenPost reelUrl) >>>
  await (raises env) PostGoto >>>
  match extract_handle (raises env EvalLinks) (raises env EvalMeta)
          (raises env ReadUrl) (page env) with
  | None =>
      await (raises env) DebugNoUsername >>>
      close (raises env) ClosePostNoUsername post
  | Some handle =>
      if is_own cfg handle then
        close (raises env) ClosePostOwn post
      else
        let! entry := lookup_state handle in
        match entry with
        | Some r =>
            if sent r then close (raises env) ClosePostSent post
            else if is_screened_out r then
              close (raises env) ClosePostScreened post
            else enter_post cfg env handle reelUrl post
        | None => enter_post cfg env handle reelUrl post
        end
  end.

(** One iteration of the loop over [reelUrls]. *)
Definition process_post (cfg : Config) (env : CandidateEnv) (reelUrl : string)
  : M unit :=
  modify (with_postTab None) >>>
  modify (with_profileTab None) >>>
  try_catch
    (post_body cfg env reelUrl)
    (let! post := gets postTab in
     close_if_open post >>>
     let! profile := gets profileTab in
     close_if_open profile).

Fixpoint process_posts (cfg : Config) (envs : nat -> CandidateEnv) (j : nat)
    (reelUrls : list string) : M unit :=
  match reelUrls with
  | [] => ret tt
  | url :: rest =>
      process_post cfg (envs j) url >>>
      process_posts cfg envs (S j) rest
  end.

(** One iteration of the loop over [suggestionUrls]. *)
Definition process_suggestion (cfg : Config) (env : SuggestionEnv) : M unit :=
  modify (with_suggestionTab None) >>>
  try_catch
    (let! tab := newPage (sg_raises env) SuggestionNewPage Level1 in
     modify (with_suggestionTab (Some tab)) >>>
     await (sg_raises env) SuggestionGoto >>>
     await (sg_raises env) ReelLocator >>>
     (match reelLinks env with
      | [] => await (sg_raises env) DebugEmpty
      | _ => ret tt
      end) >>>
     match reel_urls (reelLinks env) with
     | None => throw
     | Some reelUrls =>
         process_posts cfg (posts env) 0 reelUrls >>>
         close (sg_raises env) CloseSuggestion tab
     end)
    (let! tab := gets suggestionTab in
     close_if_open tab).

Fixpoint process_suggestions (cfg : Config) (envs : nat -> SuggestionEnv)
    (i : nat) (suggestionUrls : list string) : M unit :=
  match suggestionUrls with
  | [] => ret tt
  | _ :: rest =>
      process_suggestion cfg (envs i) >>>
      process_suggestions cfg envs (S i) rest
  end.

Definition searchInstagramForCreators (cfg : Config) (env : QueryEnv)
    (query : string) : M (list string) :=
  modify (with_found []) >>>
  await (q_raises env) DismissPopups >>>
  if negb (search_icon env) then gets found
  else if negb (search_input env) then gets found
  else
    process_suggestions cfg (suggestions env) 0
      (suggestion_urls query (suggestionLinks env)) >>>
    gets found.

(* ===================================================================== *)
(** ** The runs: [runIGSearch], [runSend], [runFollowup] *)
(* ===================================================================== *)

(** The machine after [loadState()] and the opening of the main page. *)
Definition boot (file : gmap string CreatorState) : Machine :=
  {| state := file; proto_set := false; state_file := file;
     tabs := [(0, MainPage)];
     next_tab := 1; log := []; found := []; suggestionTab := None;
     postTab := None; profileTab := None |}.

(** [browser.close()] in the [finally] of a run. *)
Definition browser_close : M unit :=
  modify (fun m => with_tabs [] (next_tab m) m).

(** The shape shared by the three runs:
    [try { body } catch { saveState(state) } finally { browser.close() }]. *)
Definition guarded_run (raises : Site -> bool) (body : M unit) : M unit :=
  try_catch (await raises Login >>> body >>> await raises StoreSession)
            (quietly (saveState raises SaveOnError)) >>>
  browser_close.

(** One iteration of [for (const handle of newHandles)] in [runIGSearch]. *)
Definition igsearch_handle (cfg : Config) (env : CandidateEnv)
    (handle : string) : M unit :=
  let contact :=
    let! tab := newPage (raises env) ProfileNewPage Level3 in
    try_catch
      (emit (OpenProfile handle) >>>
       await (raises env) ProfileGoto >>>
       await (raises env) BrowseProfile >>>
       let! screenResult := screenProfile cfg env handle in
       if negb (passes screenResult) then
         put_state handle (screened_record (now env) "" "ig-search") >>>
         saveState (raises env) SaveScreened >>>
         close (raises env) CloseProfileRejected tab
       else
         let! success := sendMessages env handle in
         put_state handle
           (send_record success (now env) "" (Some "ig-search")) >>>
         saveState (raises env) SaveSent >>>
         close (raises env) CloseProfile tab >>>
         await (raises env) BrowseFeed)
      (close_if_open (Some tab)) in
  if is_own cfg handle then ret tt
  else
    let! entry := lookup_state handle in
    match entry with
    | Some r =>
        if sent r then ret tt
        else if is_screened_out r then ret tt
        else contact
    | None => contact
    end.

Fixpoint igsearch_handles (cfg : Config) (envs : nat -> CandidateEnv) (i : nat)
    (newHandles : list string) : M unit :=
  match newHandles with
  | [] => ret tt
  | handle :: rest =>
      igsearch_handle cfg (envs i) handle >>>
      igsearch_handles cfg envs (S i) rest
  end.

Fixpoint igsearch_queries (cfg : Config) (envs : nat -> QueryEnv) (i : nat)
    (queries : list string) : M unit :=
  match queries with
  | [] => ret tt
  | query :: rest =>
      let! newHandles := searchInstagramForCreators cfg (envs i) query in
      igsearch_handles cfg (new_handles (envs i)) 0 newHandles >>>
      await (q_raises (envs i)) BrowseFeed >>>
      igsearch_queries cfg envs (S i) rest
  end.

Record IGSearchEnv := {
  ig_raises : Site -> bool;
  ig_queries : nat -> QueryEnv;     (* by index in [queries] *)
}.

Definition runIGSearch (cfg : Config) (env : IGSearchEnv) : M unit :=
  guarded_run (ig_raises env)
    (igsearch_queries cfg (ig_queries env) 0 (igSearchQueries cfg)).

(** One iteration of the loop over [creators] in [runSend]. *)
Definition send_creator (cfg : Config) (env : CandidateEnv) (ci : nat)
    (c : Creator) : M unit :=
  let! entry := lookup_state (c_handle c) in
  if match entry with Some r => sent r | None => false end then ret tt
  else if match entry with Some r => is_screened_out r | None => false end
  then ret tt
  else
    (if (0 <? ci)%nat then await (raises env) BrowseFeed else ret tt) >>>
    emit (OpenProfile (c_handle c)) >>>
    await (raises env) SearchAndOpen >>>
    await (raises env) BrowseProfile >>>
    let! screenResult := screenProfile cfg env (c_handle c) in
    if negb (passes screenResult) then
      put_state (c_handle c) (send_screened_record (c_reelUrl c)) >>>
      saveState (raises env) SaveScreened
    else
      let! success := sendMessages env (c_handle c) in
      put_state (c_handle c)
        (send_record success (now env) (c_reelUrl c) None) >>>
      saveState (raises env) SaveSent >>>
      if success then await (raises env) BackToFeed else ret tt.

Fixpoint send_creators (cfg : Config) (envs : nat -> CandidateEnv) (ci : nat)
    (creators : list Creator) : M unit :=
  match creators with
  | [] => ret tt
  | c :: rest =>
      send_creator cfg (envs ci) ci c >>>
      send_creators cfg envs (S ci) rest
  end.

Record SendEnv := {
  s_raises : Site -> bool;
  s_creators : list Creator;        (* loadCreators() or discoverCreators() *)
  s_candidates : nat -> CandidateEnv;
}.

Definition runSend (cfg : Config) (env : SendEnv) : M unit :=
  guarded_run (s_raises env)
    (send_creators cfg (s_candidates env) 0 (s_creators env)).

(** Three days, in milliseconds.  The source compares
    [(Date.now() - sentDate.getTime()) / (1000*60*60*24) < 3]; on integer
    time stamps the quotient is below 3 exactly when the difference is
    below this constant. *)
Definition followup_window : Z := 3 * (1000 * 60 * 60 * 24).

(** [new Date(s.sentAt).getTime()]; [new Date(null)] is the epoch. *)
Definition sent_time (s : CreatorState) : Z :=
  match sentAt s with Some t => t | None => 0 end.

(** One iteration of the loop over [creators] in [runFollowup]. *)
Definition followup_creator (env : FollowEnv) (c : Creator) : M unit :=
  let! entry := lookup_state (c_handle c) in
  match entry with
  | None => ret tt
  | Some s =>
      if negb (sent s) then ret tt
      else
        await (f_raises env) BrowseFeed >>>
        emit (CheckReply (c_handle c)) >>>
        await (f_raises env) SearchAndOpen >>>
        let result := checkReply_result (thread env) in
        if rr_replied result then
          modify (with_state (alter set_replied (c_handle c))) >>>
          saveState (f_raises env) SaveLoop
        else if negb (rr_error result) && negb (followedUp s) then
          if (date_now env - sent_time s <? followup_window)%Z then ret tt
          else
            (match followup env with
             | FollowupSubmitted =>
                 emit (FollowUp (c_handle c)) >>>
                 modify (with_state
                           (alter (set_followedUp (followup_done_at env))
                                  (c_handle c)))
             | FollowupNoInput | FollowupTypingFails => ret tt
             end) >>>
            saveState (f_raises env) SaveLoop
        else saveState (f_raises env) SaveLoop
  end.

Fixpoint followup_creators (envs : nat -> FollowEnv) (i : nat)
    (creators : list Creator) : M unit :=
  match creators with
  | [] => ret tt
  | c :: rest =>
      followup_creator (envs i) c >>>
      followup_creators envs (S i) rest
  end.

Record FollowupEnv := {
  fu_raises : Site -> bool;
  fu_creators : list Creator;
  fu_candidates : nat -> FollowEnv;
}.

(** With no creators on file the program exits before it reads the
    state. *)
Definition runFollowup (env : FollowupEnv) : M unit :=
  match fu_creators env with
  | [] => ret tt
  | creators =>
      guarded_run (fu_raises env)
        (followup_creators (fu_candidates env) 0 creators)
  end.

(** A run of the program in one of its three sending modes. *)
Inductive Run :=
| SendRun (env : SendEnv)
| IGSearchRun (env : IGSearchEnv)
| FollowupRun (env : FollowupEnv).

Definition run_program (cfg : Config) (r : Run) : M unit :=
  match r with
  | SendRun env => runSend cfg env
  | IGSearchRun env => runIGSearch cfg env
  | FollowupRun env => runFollowup env
  end.

(** The machine at the end of a run started on the file [file]. *)
Definition exec_run (cfg : Config) (r : Run) (file : gmap string CreatorState)
  : Machine :=
  (run_program cfg r (boot file)).2.

(** The logs of a sequence of runs, each started on the file the previous
    one left, and the file at the end. *)
Fixpoint exec_runs (cfg : Config) (rs : list Run) (file : gmap string CreatorState)
  : list (list Event) * gmap string CreatorState :=
  match rs with
  | [] => ([], file)
  | r :: rest =>
      let m := exec_run cfg r file in
      let '(logs, file') := exec_runs cfg rest (state_file m) in
      (log m :: logs, file')
  end.

(* ===================================================================== *)
(** ** Observations on logs *)
(* ===================================================================== *)

(** The events by which a candidate is contacted: its profile is opened,
    it is classified, messages are sent to it. *)
Definition contacts (h : string) (e : Event) : Prop :=
  e = OpenProfile h ∨ e = ScreenProfile h ∨ e = SendMessages h.

(** Classification or dispatch of [h]. *)
Definition classifies_or_dispatches (h : string) (e : Event) : Prop :=
  e = ScreenProfile h ∨ e = SendMessages h.

Definition event_eqb (e1 e2 : Event) : bool :=
  match e1, e2 with
  | OpenPost a, OpenPost b => String.eqb a b
  | OpenProfile a, OpenProfile b => String.eqb a b
  | ScreenProfile a, ScreenProfile b => String.eqb a b
  | Screened a x, Screened b y => String.eqb a b && Bool.eqb x y
  | SendMessages a, SendMessages b => String.eqb a b
  | Sent a x, Sent b y => String.eqb a b && Bool.eqb x y
  | CheckReply a, CheckReply b => String.eqb a b
  | FollowUp a, FollowUp b => String.eqb a b
  | _, _ => false
  end.

(** How often [e] occurs in a log. *)
Fixpoint occurrences (e : Event) (l : list Event) : nat :=
  match l with
  | [] => 0
  | e' :: older => (if event_eqb e e' then 1 else 0) + occurrences e older
  end.

(** The admission of [h] ended for good: screening rejected it, or the
    messages were delivered. *)
Definition settles (h : string) (e : Event) : bool :=
  event_eqb e (Screened h false) || event_eqb e (Sent h true).

(** On a log (newest event first): no profile of [h] is opened after an
    event that settled [h]. *)
Fixpoint settled_stays_closed (h : string) (l : list Event) : bool :=
  match l with
  | [] => true
  | e :: older =>
      (if event_eqb e (OpenProfile h) then negb (existsb (settles h) older)
       else true)
      && settled_stays_closed h older
  end.

(** The post URLs a log shows as opened, oldest first. *)
Fixpoint opened_posts (l : list Event) : list string :=
  match l with
  | [] => []
  | OpenPost url :: older => opened_posts older ++ [url]
  | _ :: older => opened_posts older
  end.


(* ===================================================================== *)
(** ** Weakest preconditions for [M] *)
(* ===================================================================== *)

(** [wp c Q m]: running [c] from [m] ends, by return or by throw, in a
    result and a machine that satisfy [Q]. *)
Definition wp {A} (c : M A) (Q : Result A -> Machine -> Prop) (m : Machine) : Prop :=
  Q (c m).1 (c m).2.

(** [c] keeps the invariant [I], however it ends. *)
Definition preserves (I : Machine -> Prop) {A} (c : M A) : Prop :=
  forall m, I m -> wp c (fun _ m' => I m') m.

(* ===================================================================== *)
(** ** Invariants of a run *)
(* ===================================================================== *)

(** The store holds a record for [h] that satisfies [P]. *)
Definition holds (P : CreatorState -> Prop) (h : string)
    (store : gmap string CreatorState) : Prop :=
  exists r, store !! h = Some r /\ P r.

(** The candidate [h] is closed under [P]: the object and the file both
    hold a [P]-record for it, the log shows no contact with it, and its
    record is an own property of the object. *)
Definition closed (P : CreatorState -> Prop) (h : string) (m : Machine) : Prop :=
  holds P h (state m) /\ holds P h (state_file m)
  /\ Forall (fun e => ~ contacts h e) (log m)
  /\ (h = "__proto__" -> proto_set m = false).

(** A record that the state check of the send loops skips. *)
Definition skipped_by_check (r : CreatorState) : Prop :=
  sent r = true \/ is_screened_out r = true.

(** The discipline of admissions for [h]: no profile of [h] is opened
    after an event that settled it, and once such an event is in the log
    the object holds a record of [h] that the state check skips. *)
Definition admission_discipline (h : string) (m : Machine) : Prop :=
  settled_stays_closed h (log m) = true
  /\ (existsb (settles h) (log m) = true -> holds skipped_by_check h (state m)).

(** What is left of the follow-up budget of [h]: one follow-up unless its
    record already says [followedUp]. *)
Definition followup_budget (h : string) (store : gmap string CreatorState) : nat :=
  match store !! h with
  | Some s => if followedUp s then 0 else 1
  | None => 1
  end.

(** At most [n] follow-ups of [h], counting the one still allowed. *)
Definition followups_bounded (h : string) (n : nat) (m : Machine) : Prop :=
  occurrences (FollowUp h) (log m) + followup_budget h (state m) <= n.

(* ===================================================================== *)
(** * The rest of the program

    Further invariants of the pipeline above, and the parts of the
    repository around it: the dashboard server ([getStats],
    [getTimeAgo]), the static dashboard ([generate-dashboard.mjs]), the
    campaign report ([generate-reports.mjs]), the typing of messages
    ([humanType] and the message loop of [sendMessages]), the first line
    of a message ([generateFirstLine]) and the discovery of creators from
    the API's videos ([discoverCreators]).

    Conventions, beyond those above.
    - The reports read the state file as the list of its entries,
      [Object.entries(state)]; every statement about them holds for the
      entries in any order.
    - The text [humanType] types is a list of UTF-16 code units, since
      the function goes through the text unit by unit.
    - [creatorMap] is the list of its own properties in the order they
      were made; the names it inherits from [Object.prototype] are
      modelled, because the function consults them. *)
(* ===================================================================== *)

(* ===================================================================== *)
(** ** Shapes of strings *)
(* ===================================================================== *)

(** Every character of [s] satisfies [p]. *)
Fixpoint all_chars (p : ascii -> bool) (s : string) : bool :=
  match s with
  | EmptyString => true
  | String c t => p c && all_chars p t
  end.

(** What Instagram accepts as a user name, as far as the patterns of the
    source go: one to thirty characters of [[a-zA-Z0-9._]]. *)
Definition valid_handle (h : string) : Prop :=
  1 <= String.length h <= 30 /\ all_chars is_handle_char h = true.

(** The characters [encodeURIComponent] can produce. *)
Definition uri_safe (c : ascii) : bool :=
  uri_unreserved c || Ascii.eqb c "%"%char.

(** The values the [gender] of a screening result can take. *)
Definition genders : list string := ["male"; "female"; "unknown"].

(* ===================================================================== *)
(** ** More invariants of a run *)
(* ===================================================================== *)

(** Every handle in [found] has a record with [sent = true]. *)
Definition found_sent (m : Machine) : Prop :=
  forall h, h ∈ found m -> holds (fun r => sent r = true) h (state m).

(** Every record of a store satisfies [P]. *)
Definition all_records (P : CreatorState -> Prop)
    (store : gmap string CreatorState) : Prop :=
  forall h r, store !! h = Some r -> P r.

Definition is_some {A} (o : option A) : bool :=
  match o with Some _ => true | None => false end.

(** The shape of the records the program writes: a sent record has its
    time stamp and no skip mark; an unsent record is marked skipped, has no
    time stamp, no reply and no follow-up; a follow-up has its time stamp;
    the source tag is absent ([runSend]) or "ig". *)
Definition wf_record (r : CreatorState) : bool :=
  (if sent r
   then is_some (sentAt r) && negb (skipped r)
        && negb (is_some (skippedReason r)) && negb (is_some (skippedAt r))
   else negb (is_some (sentAt r)) && skipped r
        && negb (replied r) && negb (followedUp r))
  && Bool.eqb (followedUp r) (is_some (followedUpAt r))
  && match source r with
     | None => true
     | Some src => String.eqb src "ig"
     end.

(** The store and the file hold well-shaped records only. *)
Definition wf_stores (m : Machine) : Prop :=
  all_records (fun r => wf_record r = true) (state m)
  /\ all_records (fun r => wf_record r = true) (state_file m).

(** Nothing is deleted: the handles of [file] are still in the store and
    in the file, and a key ["__proto__"] of [file] is still an own
    property. *)
Definition keeps_handles (file : gmap string CreatorState) (m : Machine) : Prop :=
  dom file ⊆ dom (state m) /\ dom file ⊆ dom (state_file m)
  /\ ("__proto__" ∈ dom file -> proto_set m = false).

(** On a log (newest event first): every call of [sendMessages] for a
    handle comes right after [screenProfile] returned a pass for it. *)
Fixpoint sends_follow_a_pass (l : list Event) : bool :=
  match l with
  | [] => true
  | SendMessages h :: older =>
      match older with
      | Screened h' true :: _ => String.eqb h h'
      | _ => false
      end && sends_follow_a_pass older
  | _ :: older => sends_follow_a_pass older
  end.

(** No event of the log is a screening rejection. *)
Definition no_rejection (l : list Event) : Prop :=
  Forall (fun e => forall h, e <> Screened h false) l.

(** The fields a follow-up sweep leaves alone. *)
Definition same_core (r r' : CreatorState) : Prop :=
  sent r' = sent r /\ sentAt r' = sentAt r /\ skipped r' = skipped r
  /\ skippedReason r' = skippedReason r /\ skippedAt r' = skippedAt r
  /\ reelUrl r' = reelUrl r /\ source r' = source r.

(** [store'] has the handles of [store], with the same core fields, and
    with the very same record where it is not marked sent. *)
Definition same_cores (store store' : gmap string CreatorState) : Prop :=
  forall h,
    match store !! h, store' !! h with
    | Some r, Some r' => same_core r r' /\ (sent r = false -> r' = r)
    | None, None => True
    | _, _ => False
    end.

(** The open pages are [t], their identities are below [next_tab], and
    [suggestionTab] is [sg]. *)
Definition tabs_are (t : list (nat * Level)) (sg : option nat) (m : Machine) : Prop :=
  tabs m = t /\ Forall (fun p => p.1 < next_tab m) t /\ suggestionTab m = sg.

(** The record of [h] in the store and in the file is [r], an own
    property of the store. *)
Definition record_kept (h : string) (r : CreatorState) (m : Machine) : Prop :=
  state m !! h = Some r /\ state_file m !! h = Some r
  /\ (h = "__proto__" -> proto_set m = false).

(** The open pages are [t] and their identities are below [next_tab]. *)
Definition tabs_kept (t : list (nat * Level)) (m : Machine) : Prop :=
  tabs m = t /\ Forall (fun p => p.1 < next_tab m) t.

(** The sweep neither checked [h] for a reply nor followed up with it, and
    the store and the file hold for [h] what [entry] says; the store has
    its own properties only. *)
Definition untouched_by_sweep (h : string) (entry : option CreatorState)
    (m : Machine) : Prop :=
  state m !! h = entry /\ state_file m !! h = entry
  /\ Forall (fun e => e <> CheckReply h /\ e <> FollowUp h) (log m)
  /\ proto_set m = false.

(* ===================================================================== *)
(** ** The dashboard server: [getStats] *)
(* ===================================================================== *)

(** The entries of the parsed state file, [Object.entries(state)]. A time
    stamp is the number of milliseconds [new Date(..)] makes of it. *)
Definition Entries := list (string * CreatorState).

Definition day_ms : Z := 1000 * 60 * 60 * 24.

(** [Math.floor((now - sentDate) / (1000 * 60 * 60 * 24))]. *)
Definition daysDiff (now : Z) (data : CreatorState) : Z :=
  (now - sent_time data) / day_ms.

(** [!data.replied && !data.followedUp && daysDiff >= 3]. *)
Definition follow_up_is_due (now : Z) (data : CreatorState) : bool :=
  negb (replied data) && negb (followedUp data) && (3 <=? daysDiff now data)%Z.

(** [data.source === "api"]. *)
Definition source_is (src : string) (data : CreatorState) : bool :=
  match source data with
  | Some s => String.eqb s src
  | None => false
  end.

(** The counters of the loop over the entries. *)
Record Tally := {
  t_totalSent : nat;
  t_totalScreenedOut : nat;
  t_followUpDue : list (string * Z);   (* handle, daysDiff *)
  t_api : nat;
  t_ig : nat;
}.

Definition empty_tally : Tally :=
  {| t_totalSent := 0; t_totalScreenedOut := 0; t_followUpDue := [];
     t_api := 0; t_ig := 0 |}.

(** One iteration of [for (const [handle, data] of Object.entries(state))]. *)
Definition tally_entry (now : Z) (t : Tally) (e : string * CreatorState) : Tally :=
  let '(handle, data) := e in
  if sent data then
    {| t_totalSent := S (t_totalSent t);
       t_totalScreenedOut := t_totalScreenedOut t;
       t_followUpDue :=
         if follow_up_is_due now data
         then t_followUpDue t ++ [(handle, daysDiff now data)]
         else t_followUpDue t;
       t_api := if source_is "api" data then S (t_api t) else t_api t;
       t_ig := if source_is "api" data then t_ig t else S (t_ig t) |}
  else if skipped data then
    {| t_totalSent := t_totalSent t;
       t_totalScreenedOut := S (t_totalScreenedOut t);
       t_followUpDue := t_followUpDue t;
       t_api := t_api t; t_ig := t_ig t |}
  else t.

Record Stats := {
  totalSent : nat;
  totalScreenedOut : nat;
  followUpDue : nat;
  totalProcessed : nat;
  followUpList : list (string * Z);
  sourceBreakdown_api : nat;
  sourceBreakdown_ig : nat;
}.

(** [getStats()], on the state file ([None] when there is none) and the
    time of the call; the groupings by date and the list of recent
    activity are left out. The result for a missing file has no
    [followUpList]; here it is the empty list. *)
Definition getStats (now : Z) (file : option Entries) : Stats :=
  match file with
  | None =>
      {| totalSent := 0; totalScreenedOut := 0; followUpDue := 0;
         totalProcessed := 0; followUpList := [];
         sourceBreakdown_api := 0; sourceBreakdown_ig := 0 |}
  | Some entries =>
      let t := fold_left (tally_entry now) entries empty_tally in
      {| totalSent := t_totalSent t;
         totalScreenedOut := t_totalScreenedOut t;
         followUpDue := length (t_followUpDue t);
         totalProcessed := length entries;
         followUpList := t_followUpDue t;
         sourceBreakdown_api := t_api t;
         sourceBreakdown_ig := t_ig t |}
  end.

(* ===================================================================== *)
(** ** The static dashboard: [generate-dashboard.mjs] *)
(* ===================================================================== *)

(** One value of [byDate]. *)
Record DayGroup := {
  dg_sent : list string;
  dg_screenedOut : list string;
  dg_api : nat;
  dg_ig : nat;
}.

Definition empty_day : DayGroup :=
  {| dg_sent := []; dg_screenedOut := []; dg_api := 0; dg_ig := 0 |}.

(** [if (!byDate[date]) byDate[date] = {..}; ] followed by an update of
    [byDate[date]]; the dates are kept in the order of their first
    appearance. *)
Fixpoint update_day (date : string) (f : DayGroup -> DayGroup)
    (byDate : list (string * DayGroup)) : list (string * DayGroup) :=
  match byDate with
  | [] => [(date, f empty_day)]
  | (d, g) :: rest =>
      if String.eqb d date then (d, f g) :: rest
      else (d, g) :: update_day date f rest
  end.

Definition day_sent (handle : string) (api : bool) (g : DayGroup) : DayGroup :=
  {| dg_sent := dg_sent g ++ [handle]; dg_screenedOut := dg_screenedOut g;
     dg_api := if api then S (dg_api g) else dg_api g;
     dg_ig := if api then dg_ig g else S (dg_ig g) |}.

Definition day_screened (handle : string) (g : DayGroup) : DayGroup :=
  {| dg_sent := dg_sent g; dg_screenedOut := dg_screenedOut g ++ [handle];
     dg_api := dg_api g; dg_ig := dg_ig g |}.

(** One iteration of the loop over the entries; [date_of] is
    [new Date(..).toLocaleDateString()]. *)
Definition group_entry (date_of : Z -> string) (now : Z)
    (acc : list (string * DayGroup) * list (string * Z))
    (e : string * CreatorState) : list (string * DayGroup) * list (string * Z) :=
  let '(byDate, due) := acc in
  let '(handle, data) := e in
  if sent data then
    (update_day (date_of (sent_time data))
       (day_sent handle (source_is "api" data)) byDate,
     if follow_up_is_due now data
     then due ++ [(handle, daysDiff now data)] else due)
  else if skipped data then
    (update_day
       (date_of (match skippedAt data with Some t => t | None => now end))
       (day_screened handle) byDate,
     due)
  else acc.

(** The totals, [for (const data of Object.values(byDate))]. *)
Definition sum_days (f : DayGroup -> nat) (byDate : list (string * DayGroup)) : nat :=
  fold_left (fun total dg => total + f dg.2) byDate 0.

Record Dashboard := {
  d_totalSent : nat;
  d_totalScreenedOut : nat;
  d_totalApiSent : nat;
  d_totalIgSent : nat;
  d_followUpDue : list (string * Z);
  d_totalProcessed : nat;
}.

Definition generate_dashboard (date_of : Z -> string) (now : Z)
    (entries : Entries) : Dashboard :=
  let '(byDate, due) := fold_left (group_entry date_of now) entries ([], []) in
  {| d_totalSent := sum_days (fun g => length (dg_sent g)) byDate;
     d_totalScreenedOut := sum_days (fun g => length (dg_screenedOut g)) byDate;
     d_totalApiSent := sum_days dg_api byDate;
     d_totalIgSent := sum_days dg_ig byDate;
     d_followUpDue := due;
     d_totalProcessed := length entries |}.

(* ===================================================================== *)
(** ** The campaign report: [generate-reports.mjs] *)
(* ===================================================================== *)

(** [info.source || 'api']. *)
Definition source_or_api (info : CreatorState) : string :=
  match source info with
  | Some s => if truthy s then s else "api"
  | None => "api"
  end.

Record Report := {
  apiSent : list string;                    (* handles *)
  igSearchSent : list string;
  screenedOut : list (string * string);     (* handle, source *)
}.

(** One call of the callback of [Object.entries(data).forEach]. *)
Definition report_entry (r : Report) (e : string * CreatorState) : Report :=
  let '(handle, info) := e in
  if sent info then
    if source_is "ig-search" info then
      {| apiSent := apiSent r; igSearchSent := igSearchSent r ++ [handle];
         screenedOut := screenedOut r |}
    else
      {| apiSent := apiSent r ++ [handle]; igSearchSent := igSearchSent r;
         screenedOut := screenedOut r |}
  else if is_screened_out info then
    {| apiSent := apiSent r; igSearchSent := igSearchSent r;
       screenedOut := screenedOut r ++ [(handle, source_or_api info)] |}
  else r.

Definition generate_reports (entries : Entries) : Report :=
  fold_left report_entry entries
    {| apiSent := []; igSearchSent := []; screenedOut := [] |}.

(** [screenedOut.filter(s => s.source === 'ig-search')]. *)
Definition igScreened (r : Report) : list (string * string) :=
  filter (fun s => s.2 = "ig-search") (screenedOut r).

(** [screenedOut.filter(s => s.source !== 'ig-search')]. *)
Definition apiScreened (r : Report) : list (string * string) :=
  filter (fun s => s.2 ≠ "ig-search") (screenedOut r).

(* ===================================================================== *)
(** ** [humanType] *)
(* ===================================================================== *)

(** What [humanType] does at the keyboard, one action for each UTF-16 code
    unit of the text; the pauses between the keys are left out. *)
Inductive KeyAction :=
| Press (key : string)          (* page.keyboard.press(key) *)
| InsertText (unit : N).        (* page.keyboard.insertText(char) *)

Definition N_in_range (lo hi c : N) : bool := ((lo <=? c) && (c <=? hi))%N.

(** The punctuation of the class of [PRESSABLE], in the order of the
    source; the double quote is given by its code. *)
Definition PRESSABLE_punctuation : list N :=
  map N_of_ascii
    (String.list_ascii_of_string " `~!@#$%^&*()-_=+[]{}\|;:'"
     ++ [ascii_of_N 34] ++ String.list_ascii_of_string ",.<>/?").

(** [PRESSABLE.test(char)] on a string of one code unit. *)
Definition PRESSABLE (c : N) : bool :=
  N_in_range 97 122 c || N_in_range 65 90 c || N_in_range 48 57 c
  || existsb (N.eqb c) PRESSABLE_punctuation.

(** The body of the loop, for the code unit [c]. *)
Definition type_unit (c : N) : KeyAction :=
  if (c =? 10)%N then Press "Shift+Enter"
  else if PRESSABLE c then
    Press (if (c =? 32)%N then "Space" else String (ascii_of_N c) EmptyString)
  else InsertText c.

Definition humanType (text : list N) : list KeyAction := map type_unit text.

(** What a key action puts into the focused text box: [Shift+Enter] a
    line break, [Space] a space, the key of a character that character,
    [insertText] its argument; any other key nothing. *)
Definition typed_unit (a : KeyAction) : list N :=
  match a with
  | Press key =>
      if String.eqb key "Shift+Enter" then [10%N]
      else if String.eqb key "Space" then [32%N]
      else match key with
           | String c EmptyString => [N_of_ascii c]
           | _ => []
           end
  | InsertText c => [c]
  end.

Definition typed_text (actions : list KeyAction) : list N :=
  concat (map typed_unit actions).

(* ===================================================================== *)
(** ** [getTimeAgo] *)
(* ===================================================================== *)

(** The four shapes of the result: ['just now'], [n + ' min ago'],
    [n + ' hr ago'], [n + ' days ago']. *)
Inductive TimeAgo :=
| JustNow
| MinAgo (n : Z)
| HrAgo (n : Z)
| DaysAgo (n : Z).

(** [getTimeAgo(timestamp)] at the time [now], both in milliseconds. *)
Definition getTimeAgo (now timestamp : Z) : TimeAgo :=
  let diff := ((now - timestamp) / 1000)%Z in
  if (diff <? 60)%Z then JustNow
  else if (diff <? 3600)%Z then MinAgo (diff / 60)
  else if (diff <? 86400)%Z then HrAgo (diff / 3600)
  else DaysAgo (diff / 86400).

(* ===================================================================== *)
(** ** [generateFirstLine] *)
(* ===================================================================== *)

(** The fields of [creator] the function reads; [None] is [null] or a
    missing field. *)
Record CreatorInfo := {
  ci_name : option string;
  ci_description : option string;
  ci_caption : option string;
}.

(** [a || b] on strings. *)
Definition or_string (a : option string) (b : string) : string :=
  match a with
  | Some s => if truthy s then s else b
  | None => b
  end.

(** [HOOKS[key]] on the entries of [HOOKS], whose keys are distinct. *)
Fixpoint hook_of (key : string) (hooks : list (string * string)) : option string :=
  match hooks with
  | [] => None
  | (k, text) :: rest => if String.eqb k key then Some text else hook_of key rest
  end.

(** [HOOKS.default]; a missing key prints as [undefined]. *)
Definition default_hook (hooks : list (string * string)) : string :=
  match hook_of "default" hooks with
  | Some text => text
  | None => "undefined"
  end.

(** The loop over [Object.entries(HOOKS)]: the text of the first keyword
    other than "default" that [desc] includes, or else [hook]. *)
Fixpoint pick_hook (desc : string) (entries : list (string * string))
    (hook : string) : string :=
  match entries with
  | [] => hook
  | (keyword, text) :: rest =>
      if String.eqb keyword "default" then pick_hook desc rest hook
      else if includes desc keyword then text
      else pick_hook desc rest hook
  end.

(** [generateFirstLine(creator, gender)]; [hooks] are the entries of
    [HOOKS] and [selfIntro] is [CONFIG.outreach?.selfIntro || ""]. *)
Definition generateFirstLine (hooks : list (string * string)) (selfIntro : string)
    (creator : CreatorInfo) (gender : string) : string :=
  let desc :=
    toLowerCase
      (take_string 150
         (or_string (ci_description creator)
            (or_string (ci_caption creator) ""))) in
  let hook := pick_hook desc hooks (default_hook hooks) in
  let name := or_string (ci_name creator) "" in
  let greeting :=
    if truthy name then "Hey " +:+ name +:+ "!"
    else if String.eqb gender "male" then "Hey bro!"
    else "Hey!" in
  greeting +:+ " just came across your reel and " +:+ hook
  +:+ (if truthy selfIntro then ". " +:+ selfIntro else "").

(** The creator [searchInstagramForCreators] passes: no name, no
    description, no caption. *)
Definition search_creator : CreatorInfo :=
  {| ci_name := None; ci_description := Some ""; ci_caption := Some "" |}.

(** The entries of [HOOKS] when the configuration gives none. *)
Definition HOOKS : list (string * string) :=
  [ ("resume", "your resume tips are so real");
    ("interview", "your interview advice is actually so good");
    ("visa", "your visa stuff is literally what people need rn");
    ("linkedin", "your linkedin tips are fire honestly");
    ("job search", "your job search content hit different");
    ("career", "your career content is genuinely helpful");
    ("hiring", "your hiring takes are so on point");
    ("layoff", "your take on the layoff stuff is so real");
    ("default", "your content is genuinely helpful") ].

(* ===================================================================== *)
(** ** The keys of the message loop *)
(* ===================================================================== *)

(** The keys of [for (let i = 0; i < messages.length; i++)] in
    [sendMessages]: each message is typed and then sent with Enter. *)
Definition type_messages (messages : list (list N)) : list KeyAction :=
  concat (map (fun message => humanType message ++ [Press "Enter"]) messages).

(** What a message box makes of key actions: Enter sends what has been
    typed (nothing, when the box is empty) and clears the box; the other
    actions add to the box as [typed_unit] says. The result is the
    messages sent, oldest first, and what is left in the box. *)
Fixpoint message_box (box : list N) (actions : list KeyAction)
  : list (list N) * list N :=
  match actions with
  | [] => ([], box)
  | a :: rest =>
      if match a with Press key => String.eqb key "Enter" | _ => false end
      then
        let '(sent_later, in_box) := message_box [] rest in
        (match box with [] => sent_later | _ => box :: sent_later end, in_box)
      else message_box (box ++ typed_unit a) rest
  end.

(* ===================================================================== *)
(** ** [discoverCreators] *)
(* ===================================================================== *)

(** One video of the answers of the discovery API; [None] is a missing
    field or [null]. *)
Record Video := {
  v_creator : option string;
  v_caption : option string;
  v_description : option string;
  v_transcript : option string;
  v_original_url : option string;
  v_platform : option string;
}.

(** [[a-zA-Z0-9_]], the class [\w]. *)
Definition is_word_char (c : ascii) : bool :=
  is_lower c || is_upper c || is_digit c || Ascii.eqb c "_"%char.

(** An optional character [c?]: what follows can never start with [c] in
    the patterns below, so the character is taken whenever it is there. *)
Definition skip_optional (c : ascii) (s : string) : string :=
  match s with
  | String c' t => if Ascii.eqb c' c then t else s
  | EmptyString => s
  end.

(** [(\w+)] at the start of [s] when a character outside [\w] must
    follow or the pattern ends: the whole run of word characters. *)
Definition capture_word (s : string) : option (string * string) :=
  let w := take_while is_word_char s in
  if (1 <=? String.length w)%nat then Some (w, drop_while is_word_char s)
  else None.

(** A literal under the [i] flag, then the rest. *)
Definition skip_ci (p s : string) : option string :=
  if startsWith_ci s p then Some (drop_string (String.length p) s) else None.

(** [/(?:hi,?\s*i'?m\s+)(\w+)/i] tried at the start of [s], group 1. *)
Definition name_after_hi_here (s : string) : option string :=
  match skip_ci "hi" s with
  | Some r1 =>
      match skip_ci "i" (drop_while is_space (skip_optional ","%char r1)) with
      | Some r2 =>
          match skip_ci "m" (skip_optional "'"%char r2) with
          | Some r3 =>
              match skip_spaces1 r3 with
              | Some r4 =>
                  match capture_word r4 with
                  | Some (w, _) => Some w
                  | None => None
                  end
              | None => None
              end
          | None => None
          end
      | None => None
      end
  | None => None
  end.

(** [/(?:my name is\s+)(\w+)/i] tried at the start of [s], group 1. *)
Definition name_after_my_name_is_here (s : string) : option string :=
  match skip_ci "my name is" s with
  | Some r1 =>
      match skip_spaces1 r1 with
      | Some r2 =>
          match capture_word r2 with
          | Some (w, _) => Some w
          | None => None
          end
      | None => None
      end
  | None => None
  end.

(** [/(?:i'?m\s+)(\w+)(?:,?\s+a\s+)/i] tried at the start of [s],
    group 1. *)
Definition name_before_a_here (s : string) : option string :=
  match skip_ci "i" s with
  | Some r1 =>
      match skip_ci "m" (skip_optional "'"%char r1) with
      | Some r2 =>
          match skip_spaces1 r2 with
          | Some r3 =>
              match capture_word r3 with
              | Some (w, r4) =>
                  match skip_spaces1 (skip_optional ","%char r4) with
                  | Some r5 =>
                      match skip_ci "a" r5 with
                      | Some r6 =>
                          match skip_spaces1 r6 with
                          | Some _ => Some w
                          | None => None
                          end
                      | None => None
                      end
                  | None => None
                  end
              | None => None
              end
          | None => None
          end
      | None => None
      end
  | None => None
  end.

(** [s.match(pattern)]: the leftmost position at which the pattern
    matches. *)
Fixpoint match_leftmost (here : string -> option string) (s : string)
  : option string :=
  match here s with
  | Some w => Some w
  | None =>
      match s with
      | EmptyString => None
      | String _ t => match_leftmost here t
      end
  end.

(** The loop over [namePatterns]. *)
Definition extract_name (transcript : string) : option string :=
  first_some (fun here => match_leftmost here transcript)
    [name_after_hi_here; name_after_my_name_is_here; name_before_a_here].

Definition careerKeywords : list string :=
  [ "resume"; "job"; "career"; "hire"; "interview"; "linkedin";
    "recruiter"; "application"; "salary"; "corporate"; "professional";
    "networking"; "h1b"; "visa"; "opt"; "layoff"; "employment"; "ats";
    "internship"; "offer"; "shortlist" ].

(** [(v.creator || "").replace(/^@/, "").trim()]. *)
Definition video_handle (v : Video) : string :=
  trim (skip_optional "@"%char (or_string (v_creator v) "")).

(** [careerKeywords.filter((kw) => combined.includes(kw)).length]. *)
Definition video_score (v : Video) : nat :=
  let combined :=
    toLowerCase (or_string (v_caption v) "" +:+ " "
                 +:+ or_string (v_description v) "" +:+ " "
                 +:+ or_string (v_transcript v) "") in
  length (filter (fun kw => includes combined kw = true) careerKeywords).

(** A value of [creatorMap], and a creator of the result once
    [firstLine] and [searchTerm] are set. *)
Record Discovered := {
  d_handle : string;
  d_name : option string;
  d_platform : option string;
  d_reelUrl : string;
  d_caption : string;
  d_description : string;
  d_transcript : string;
  d_careerScore : nat;
  d_appearances : nat;
  d_firstLine : option string;
  d_searchTerm : option string;
}.

(** The names every object inherits from [Object.prototype]:
    [creatorMap[handle]] is truthy for them from the start, so no entry
    is ever made for such a handle, and what the loop then writes goes to
    the inherited object, not to [creatorMap]. *)
Definition inherited_keys : list string :=
  [ "constructor"; "__defineGetter__"; "__defineSetter__"; "hasOwnProperty";
    "__lookupGetter__"; "__lookupSetter__"; "isPrototypeOf";
    "propertyIsEnumerable"; "toString"; "valueOf"; "__proto__";
    "toLocaleString" ].

Definition is_inherited (handle : string) : bool :=
  existsb (String.eqb handle) inherited_keys.

(** The entry made for a handle that [creatorMap] does not have yet. *)
Definition new_entry (handle : string) (score : nat) (v : Video) : Discovered :=
  {| d_handle := handle;
     d_name := extract_name (or_string (v_transcript v) "");
     d_platform := v_platform v;
     d_reelUrl := or_string (v_original_url v) "";
     d_caption := take_string 200 (or_string (v_caption v) "");
     d_description := take_string 200 (or_string (v_description v) "");
     d_transcript := take_string 100 (or_string (v_transcript v) "");
     d_careerScore := score;
     d_appearances := 0;
     d_firstLine := None;
     d_searchTerm := None |}.

(** [creatorMap[handle].appearances++] and the update that keeps the reel
    with the best score. *)
Definition count_appearance (score : nat) (v : Video) (e : Discovered) : Discovered :=
  let better := (d_careerScore e <? score)%nat in
  {| d_handle := d_handle e;
     d_name := d_name e;
     d_platform := d_platform e;
     d_reelUrl :=
       if better then or_string (v_original_url v) (d_reelUrl e)
       else d_reelUrl e;
     d_caption :=
       if better then take_string 200 (or_string (v_caption v) "")
       else d_caption e;
     d_description :=
       if better then take_string 200 (or_string (v_description v) "")
       else d_description e;
     d_transcript := d_transcript e;
     d_careerScore := if better then score else d_careerScore e;
     d_appearances := S (d_appearances e);
     d_firstLine := d_firstLine e;
     d_searchTerm := d_searchTerm e |}.

(** [creatorMap], its own properties in the order they were made. *)
Fixpoint update_entry (handle : string) (f : Discovered -> Discovered)
    (creatorMap : list (string * Discovered)) : option (list (string * Discovered)) :=
  match creatorMap with
  | [] => None
  | (k, e) :: rest =>
      if String.eqb k handle then Some ((k, f e) :: rest)
      else match update_entry handle f rest with
           | Some rest' => Some ((k, e) :: rest')
           | None => None
           end
  end.

(** One iteration of [for (const v of allVideos)]. *)
Definition discover_video (creatorMap : list (string * Discovered)) (v : Video)
  : list (string * Discovered) :=
  let handle := video_handle v in
  let score := video_score v in
  if negb (truthy handle) then creatorMap
  else if (score <? 2)%nat then creatorMap
  else if is_inherited handle then creatorMap
  else
    match update_entry handle (count_appearance score v) creatorMap with
    | Some creatorMap' => creatorMap'
    | None =>
        creatorMap
        ++ [(handle, count_appearance score v (new_entry handle score v))]
    end.

(** The value of a key that is an array index (a canonical numeral below
    [2^32 - 1]): such keys come first in [Object.values], in ascending
    order. *)
Fixpoint numeral_value (s : string) (acc : N) : option N :=
  match s with
  | EmptyString => Some acc
  | String c t =>
      if is_digit c then numeral_value t (acc * 10 + (N_of_ascii c - 48))%N
      else None
  end.

Definition array_index (key : string) : option N :=
  match key with
  | EmptyString => None
  | String c t =>
      if Ascii.eqb c "0"%char && truthy t then None
      else
        match numeral_value key 0 with
        | Some n => if (n <? 4294967295)%N then Some n else None
        | None => None
        end
  end.

Fixpoint insert_by_index (n : N) (e : Discovered)
    (sorted : list (N * Discovered)) : list (N * Discovered) :=
  match sorted with
  | [] => [(n, e)]
  | (n', e') :: rest =>
      if (n <? n')%N then (n, e) :: sorted
      else (n', e') :: insert_by_index n e rest
  end.

(** [Object.values(creatorMap)]. *)
Definition object_values (creatorMap : list (string * Discovered)) : list Discovered :=
  let indexed :=
    fold_left
      (fun acc p => match array_index p.1 with
                    | Some n => insert_by_index n p.2 acc
                    | None => acc
                    end)
      creatorMap [] in
  map snd indexed
  ++ map snd (filter (fun p => array_index p.1 = None) creatorMap).

(** [appearances * careerScore]. *)
Definition weight (e : Discovered) : nat := d_appearances e * d_careerScore e.

(** [Array.prototype.sort] with the comparator
    [(a, b) => weight(b) - weight(a)]: the sort is stable, so an element
    goes behind those of equal weight that came before it. *)
Fixpoint insert_by_weight (e : Discovered) (sorted : list Discovered)
  : list Discovered :=
  match sorted with
  | [] => [e]
  | e' :: rest =>
      if (weight e' <? weight e)%nat then e :: sorted
      else e' :: insert_by_weight e rest
  end.

Definition sort_by_weight (creators : list Discovered) : list Discovered :=
  fold_left (fun sorted e => insert_by_weight e sorted) creators [].

(** [c.handle.replace(/^_+/, "")]. *)
Definition search_term (handle : string) : string :=
  drop_while (fun c => Ascii.eqb c "_"%char) handle.

(** The loop that sets [firstLine] and [searchTerm]. *)
Definition finish_creator (hooks : list (string * string)) (selfIntro : string)
    (e : Discovered) : Discovered :=
  {| d_handle := d_handle e;
     d_name := d_name e;
     d_platform := d_platform e;
     d_reelUrl := d_reelUrl e;
     d_caption := d_caption e;
     d_description := d_description e;
     d_transcript := d_transcript e;
     d_careerScore := d_careerScore e;
     d_appearances := d_appearances e;
     d_firstLine :=
       Some (generateFirstLine hooks selfIntro
               {| ci_name := d_name e;
                  ci_description := Some (d_description e);
                  ci_caption := Some (d_caption e) |}
               "unknown");
     d_searchTerm := Some (search_term (d_handle e)) |}.

(** [discoverCreators()], from the videos the queries returned to the
    creators written to [discovered-creators.json]. *)
Definition discoverCreators (hooks : list (string * string)) (selfIntro : string)
    (allVideos : list Video) : list Discovered :=
  map (finish_creator hooks selfIntro)
      (sort_by_weight (object_values (fold_left discover_video allVideos []))).

(** A video counts for its creator: it names one, it shows at least two
    career keywords, and the handle is not a name that [creatorMap]
    inherits. *)
Definition qualifies (v : Video) : bool :=
  truthy (video_handle v) && (2 <=? video_score v)%nat
  && negb (is_inherited (video_handle v)).

(** The videos that count for the handle [h]. *)
Definition videos_of (h : string) (allVideos : list Video) : list Video :=
  filter (fun v => qualifies v = true /\ video_handle v = h) allVideos.

(** What [creatorMap] is after the videos [seen]: one entry for each
    handle a video counted for, with the number of these videos and the
    best of their scores. *)
Definition counts_videos (seen : list Video)
    (creatorMap : list (string * Discovered)) : Prop :=
  NoDup (map fst creatorMap)
  /\ (forall k e, (k, e) ∈ creatorMap ->
        d_handle e = k
        /\ videos_of k seen <> []
        /\ d_appearances e = length (videos_of k seen)
        /\ d_careerScore e = max_list (map video_score (videos_of k seen)))
  /\ (forall v, v ∈ seen -> qualifies v = true ->
        video_handle v ∈ map fst creatorMap).

(** No creator of the list weighs more than one before it. *)
Fixpoint weights_descend (creators : list Discovered) : bool :=
  match creators with
  | [] => true
  | e :: rest =>
      forallb (fun e' => (weight e' <=? weight e)%nat) rest
      && weights_descend rest
  end.

(** What [runSend] reads of a creator of [discovered-creators.json]. *)
Definition to_creator (d : Discovered) : Creator :=
  {| c_handle := d_handle d; c_reelUrl := d_reelUrl d |}.
(* ===================================================================== *)
(** ** Concrete scenarios *)
(* ===================================================================== *)

Definition nav_page : PostPage :=
  {| anchors := [ {| href := "/explore/"; span_text := Some "explore" |};
                  {| href := "/reels/"; span_text := None |};
                  {| href := "/alice_grad/"; span_text := Some "alice_grad" |} ];
     og_title := None; doc_title := "Instagram";
     page_url := "https://www.instagram.com/p/Cx1/" |}.

(** A post page whose links are all navigation links and whose og:title
    mentions another account. *)
Definition mention_page : PostPage :=
  {| anchors := [ {| href := "/explore/"; span_text := None |};
                  {| href := "/reels/"; span_text := None |} ];
     og_title := Some "Jane Doe on Instagram: thanks @explore for the feature";
     doc_title := "Instagram";
     page_url := "https://www.instagram.com/reels/reel/Cx1/" |}.

Definition screening_cfg : Config :=
  {| SCREENING_ENABLED := true; OPENAI_KEY := "sk-test"; ownHandle := "me";
     igSearchQueries := ["career tips"] |}.

Definition no_raise : Site -> bool := fun _ => false.

Definition rate_limited : FetchOutcome :=
  FetchResponse 429
    (Some (JObj [("error", JObj [("message", JStr "Rate limit reached");
                                 ("type", JStr "requests")])])).

Definition rate_limited_env : CandidateEnv :=
  {| raises := no_raise; page := nav_page; fetch := rate_limited;
     send := SendAll; now := 1700000000000 |}.


Definition post_a : string := "https://www.instagram.com/p/A/".
Definition post_b : string := "https://www.instagram.com/reel/B/".

Definition seven_suggestions : list AttrRead :=
  map (fun s => AttrValue (Some ("/explore/search/keyword/?q=" +:+ s)))
      ["a"; "b"; "c"; "d"; "e"; "f"; "g"].

(** A post page that shows its author, [alice_grad]. *)
Definition alice_page : PostPage :=
  {| anchors := [ {| href := "/explore/"; span_text := None |};
                  {| href := "/alice_grad/"; span_text := Some "alice_grad" |} ];
     og_title := Some "Alice on Instagram";
     doc_title := "Instagram";
     page_url := "https://www.instagram.com/p/A/" |}.

Definition plain_cfg : Config :=
  {| SCREENING_ENABLED := false; OPENAI_KEY := ""; ownHandle := "me";
     igSearchQueries := ["career tips"] |}.

(** A candidate environment in which nothing throws. *)
Definition calm (pg : PostPage) (f : FetchOutcome) (s : SendOutcome) : CandidateEnv :=
  {| raises := no_raise; page := pg; fetch := f; send := s; now := 1700000000000 |}.

(** One suggestion with two posts, both by [alice_grad]. *)
Definition alice_twice (s : SendOutcome) : SuggestionEnv :=
  {| sg_raises := no_raise;
     reelLinks := [AttrValue (Some "/p/A/"); AttrValue (Some "/reel/B/")];
     posts := fun _ => calm alice_page FetchRejects s |}.

Definition alice_query (s : SendOutcome) : QueryEnv :=
  {| q_raises := no_raise; search_icon := true; search_input := true;
     suggestionLinks := Some [AttrValue (Some "/explore/search/keyword/?q=career")];
     suggestions := fun _ => alice_twice s;
     new_handles := fun _ => calm alice_page FetchRejects s |}.

Definition alice_search (s : SendOutcome) : IGSearchEnv :=
  {| ig_raises := no_raise; ig_queries := fun _ => alice_query s |}.

Definition alice_creator : Creator :=
  {| c_handle := "alice_grad"; c_reelUrl := post_a |}.

Definition alice_send (s : SendOutcome) : SendEnv :=
  {| s_raises := no_raise; s_creators := [alice_creator; alice_creator];
     s_candidates := fun _ => calm alice_page FetchRejects s |}.

Definition sent_file : gmap string CreatorState :=
  {[ "alice_grad" := send_record true 1699000000000 post_a (Some "ig") ]}.

Definition screened_file : gmap string CreatorState :=
  {[ "alice_grad" := screened_record 1699000000000 post_a "ig" ]}.

Definition rate_limited_env_alice : CandidateEnv :=
  calm alice_page rate_limited SendAll.

Definition one_day : Z := 1000 * 60 * 60 * 24.

(** A thread view with [n] message rows. *)
Definition rows (n : nat) : ThreadView :=
  {| message_button := true; message_rows := Some n |}.

(** One iteration of the sweep, [days] days after the message of
    [sent_file] was sent. *)
Definition sweep_env (v : ThreadView) (days : Z) : FollowEnv :=
  {| f_raises := no_raise; thread := v;
     date_now := 1699000000000 + days * one_day;
     followup := FollowupSubmitted;
     followup_done_at := 1699000000000 + days * one_day + 60000 |}.

Definition alice_sweep (v : ThreadView) (days : Z) : FollowupEnv :=
  {| fu_raises := no_raise; fu_creators := [alice_creator; alice_creator];
     fu_candidates := fun _ => sweep_env v days |}.

(** Two suggestions of one keyword whose result pages both show post A. *)
Definition twin_query : QueryEnv :=
  {| q_raises := no_raise; search_icon := true; search_input := true;
     suggestionLinks :=
       Some [AttrValue (Some "/explore/search/keyword/?q=career%20tips");
             AttrValue (Some "/explore/search/keyword/?q=career%20advice")];
     suggestions := fun _ =>
       {| sg_raises := no_raise;
          reelLinks := [AttrValue (Some "/p/A/"); AttrValue (Some "/p/A/")];
          posts := fun _ => calm alice_page FetchRejects SendAll |};
     new_handles := fun _ => calm alice_page FetchRejects SendAll |}.

(** A post page of the account [__proto__]. *)
Definition proto_page : PostPage :=
  {| anchors := [ {| href := "/explore/"; span_text := None |};
                  {| href := "/__proto__/"; span_text := Some "__proto__" |} ];
     og_title := Some "Proto on Instagram";
     doc_title := "Instagram";
     page_url := "https://www.instagram.com/p/A/" |}.

(** An answer of the screening provider that rejects the profile. *)
Definition no_match : FetchOutcome :=
  FetchResponse 200
    (Some (JObj [("choices",
                  JArr [JObj [("message",
                               JObj [("content",
                                      JStr "MATCH: NO | GENDER: unknown | REASON: not the audience")])]])])).

(** A search whose one suggestion shows two posts of [__proto__], which
    screening rejects. *)
Definition proto_search : IGSearchEnv :=
  {| ig_raises := no_raise;
     ig_queries := fun _ =>
       {| q_raises := no_raise; search_icon := true; search_input := true;
          suggestionLinks :=
            Some [AttrValue (Some "/explore/search/keyword/?q=career")];
          suggestions := fun _ =>
            {| sg_raises := no_raise;
               reelLinks := [AttrValue (Some "/p/A/"); AttrValue (Some "/reel/B/")];
               posts := fun _ => calm proto_page no_match SendAll |};
          new_handles := fun _ => calm proto_page no_match SendAll |} |}.

(** A configuration whose own account is [alice_grad], written in another
    letter case. *)
Definition own_cfg : Config :=
  {| SCREENING_ENABLED := false; OPENAI_KEY := ""; ownHandle := "Alice_Grad";
     igSearchQueries := ["career tips"] |}.

(** A file that records a failed dispatch to [alice_grad]. *)
Definition failed_file : gmap string CreatorState :=
  {[ "alice_grad" := send_record false 1699000000000 post_a (Some "ig") ]}.

(** A file that records a delivery to [bob_dev], who is not in the
    creators list of [alice_sweep]. *)
Definition bob_file : gmap string CreatorState :=
  {[ "bob_dev" := send_record true 1699000000000 post_b (Some "ig") ]}.

(** Three videos of the discovery API: two of [sam.codes], one of them
    with the better score, and one of an account that is called
    [constructor]. *)
Definition video (creator caption transcript : string) : Video :=
  {| v_creator := Some creator; v_caption := Some caption;
     v_description := None; v_transcript := Some transcript;
     v_original_url := Some ("https://example.com/" +:+ creator);
     v_platform := Some "instagram" |}.

Definition three_videos : list Video :=
  [ video "@sam.codes" "resume and interview tips" "Hi, I'm Sam";
    video "constructor" "career and job advice" "";
    video "sam.codes " "resume, interview and linkedin" "" ].
(* ===================================================================== *)
(** * Properties *)
(* ===================================================================== *)

(* --------------------------------------------------------------------- *)
(** ** Handle extraction *)
(* --------------------------------------------------------------------- *)

Lemma first_some_inv {A B : Type} (f : A -> option B) (l : list A) (b : B) :
  first_some f l = Some b -> exists a, a ∈ l /\ f a = Some b.
Proof.
  induction l as [|a l IH]; simpl; [discriminate|].
  destruct (f a) as [b'|] eqn:Hfa.
  - intros [= <-]. exists a. split; [left | assumption].
  - intros H. destruct (IH H) as (a' & Hin & Ha'). exists a'.
    split; [right; assumption | assumption].
Qed.

Lemma profile_link_not_reserved (a : Anchor) (h : string) :
  profile_link a = Some h -> skipPages_has h = false.
Proof.
  unfold profile_link. destruct (match_profile_path (href a)) as [h'|]; [|discriminate].
  destruct (skipPages_has h') eqn:Hs; [discriminate|]. now intros [= <-].
Qed.

Lemma labelled_profile_link_not_reserved (a : Anchor) (h : string) :
  labelled_profile_link a = Some h -> skipPages_has h = false.
Proof.
  unfold labelled_profile_link.
  destruct (profile_link a) as [h'|] eqn:Hp; [|discriminate].
  destruct (span_text a) as [t|]; [|discriminate].
  destruct (String.eqb (trim t) h'); [|discriminate].
  intros [= <-]. eapply profile_link_not_reserved, Hp.
Qed.

(** C7 (as amended): the denylist guards the anchor strategy only; whatever
    strategy 1 returns for a page is not one of the reserved segments. *)
Theorem strategy_links_not_reserved (pg : PostPage) (h : string) :
  strategy_links pg = Some h -> skipPages_has h = false.
Proof.
  unfold strategy_links.
  set (allLinks := filter _ _).
  destruct (first_some labelled_profile_link allLinks) as [h'|] eqn:H1.
  - intros [= <-]. apply first_some_inv in H1 as (a & _ & Ha).
    eapply labelled_profile_link_not_reserved, Ha.
  - intros H2. apply first_some_inv in H2 as (a & _ & Ha).
    eapply profile_link_not_reserved, Ha.
Qed.

Lemma strategy_links_not_reserved_witness :
  strategy_links nav_page = Some "alice_grad"
  /\ skipPages_has "alice_grad" = false.
Proof.
  split; [reflexivity|].
  apply (strategy_links_not_reserved nav_page "alice_grad"). reflexivity.
Defined.

(** C7 (as stated) fails: strategies 2 and 3 consult no denylist.  On
    [mention_page] the metadata strategy returns the reserved segment
    "explore", the URL strategy returns "reels", and the whole extraction
    returns "explore". *)
Lemma reserved_segment_extracted :
  strategy_meta mention_page = Some "explore"
  /\ strategy_url mention_page = Some "reels"
  /\ extract_handle false false false mention_page = Some "explore"
  /\ skipPages_has "explore" = true
  /\ skipPages_has "reels" = true.
Proof. repeat split; reflexivity. Qed.

(* --------------------------------------------------------------------- *)
(** ** Screening *)
(* --------------------------------------------------------------------- *)

Lemma screen_response_network_error : screen_response FetchRejects = screen_pass.
Proof. reflexivity. Qed.

Lemma screen_response_not_json (status : Z) :
  screen_response (FetchResponse status None) = screen_pass.
Proof. reflexivity. Qed.

Lemma parse_answer_empty : parse_answer "" = {| passes := false; gender := "unknown" |}.
Proof. reflexivity. Qed.

(** C6 (the code departs from it): when the provider answers with an error
    status and a JSON body that has no [choices] (the shape of its error
    replies), nothing throws inside the [try], the answer is the empty
    string, and [screenProfile] returns a rejection. *)
Theorem provider_error_is_rejected (cfg : Config) (env : CandidateEnv)
    (handle : string) (status : Z) (fields : list (string * json)) (m : Machine) :
  screening_active cfg = true ->
  raises env ScreenCapture = false ->
  fetch env = FetchResponse status (Some (JObj fields)) ->
  assoc_last "choices" fields = None ->
  (screenProfile cfg env handle m).1
  = Returned {| passes := false; gender := "unknown" |}.
Proof.
  intros Hact Hcap Hfetch Hchoices.
  unfold screenProfile, bind, emit, modify, await, ret.
  rewrite Hact, Hcap, Hfetch. simpl.
  unfold response_answer. simpl. rewrite Hchoices. reflexivity.
Qed.

Lemma provider_error_is_rejected_witness :
  (screenProfile screening_cfg rate_limited_env "alice_grad" (boot ∅)).1
  = Returned {| passes := false; gender := "unknown" |}.
Proof.
  apply (provider_error_is_rejected screening_cfg rate_limited_env "alice_grad"
           429 [("error", JObj [("message", JStr "Rate limit reached");
                                ("type", JStr "requests")])]);
    reflexivity.
Defined.

(* --------------------------------------------------------------------- *)
(** ** Search expansion *)
(* --------------------------------------------------------------------- *)

Lemma read_suggestions_length (links : list AttrRead) (acc : list string) :
  length (read_suggestions links acc) <= length acc + length links.
Proof.
  revert acc. induction links as [|r links IH]; intros acc; simpl; [lia|].
  destruct r as [|[h|]]; [lia| |].
  - destruct (truthy h).
    + specialize (IH (acc ++ [absolute_url h])%list). rewrite length_app in IH.
      simpl in IH. lia.
    + specialize (IH acc). lia.
  - specialize (IH acc). lia.
Qed.

Lemma suggestion_urls_length (query : string) (links : option (list AttrRead)) :
  length (suggestion_urls query links) <= 5.
Proof.
  unfold suggestion_urls.
  destruct links as [l|]; simpl; [|lia].
  pose proof (read_suggestions_length (take 5 l) []) as H.
  rewrite length_take in H. cbn [length] in H.
  destruct (read_suggestions (take 5 l) []) as [|u us]; cbn [length] in *; lia.
Qed.

Lemma collect_reels_spec (links : list AttrRead) (seenUrls : gset string)
    (acc urls : list string) :
  (forall u, u ∈ seenUrls <-> u ∈ acc) ->
  NoDup acc ->
  collect_reels links seenUrls acc = Some urls ->
  NoDup urls /\ length urls <= length acc + length links.
Proof.
  revert seenUrls acc. induction links as [|r links IH]; intros seen acc Hseen Hnd; simpl.
  - intros [= <-]. split; [assumption | lia].
  - destruct r as [|[h|]]; [discriminate| |].
    + destruct (truthy h).
      * case_bool_decide as Hin.
        -- intros H. destruct (IH _ _ Hseen Hnd H). split; [assumption | lia].
        -- intros H.
           assert (Hseen' : forall u, u ∈ {[absolute_url h]} ∪ seen
                                      <-> u ∈ (acc ++ [absolute_url h])%list).
           { intros u. rewrite elem_of_union, elem_of_singleton, elem_of_app,
               list_elem_of_singleton, Hseen. tauto. }
           assert (Hnd' : NoDup (acc ++ [absolute_url h])%list).
           { apply NoDup_app. split; [assumption|].
             split; [|apply NoDup_singleton].
             intros u Hu Hu'. apply list_elem_of_singleton in Hu' as ->.
             apply Hin, Hseen, Hu. }
           destruct (IH _ _ Hseen' Hnd' H) as [H1 H2].
           split; [assumption|]. rewrite length_app in H2. cbn [length] in *. lia.
      * intros H. destruct (IH _ _ Hseen Hnd H). split; [assumption | lia].
    + intros H. destruct (IH _ _ Hseen Hnd H). split; [assumption | lia].
Qed.

(** C8 (as amended): at most five suggestions are read; for one suggestion
    at most 24 links are collected and its [reelUrls] has no duplicate.
    Nothing is said across suggestions: [seenUrls] is local to one. *)
Theorem expansion_bounds_and_local_dedup :
  (forall query links, length (suggestion_urls query links) <= 5)
  /\ (forall reelLinks urls,
        reel_urls reelLinks = Some urls ->
        length urls <= 24 /\ NoDup urls).
Proof.
  split; [apply suggestion_urls_length|].
  intros links urls H. unfold reel_urls in H.
  assert (Hseen : forall u : string, u ∈ (∅ : gset string) <-> u ∈ ([] : list string)).
  { intros u. rewrite elem_of_empty, elem_of_nil. tauto. }
  destruct (collect_reels_spec _ _ _ _ Hseen (NoDup_nil_2 (A:=string)) H) as [H1 H2].
  split; [|assumption]. rewrite length_take in H2. cbn [length] in H2. lia.
Qed.

Lemma expansion_bounds_and_local_dedup_witness :
  length (suggestion_urls "career tips" (Some seven_suggestions)) <= 5
  /\ length [post_a; post_b] <= 24 /\ NoDup [post_a; post_b].
Proof.
  destruct expansion_bounds_and_local_dedup as [H1 H2].
  split; [apply H1|].
  apply (H2 [AttrValue (Some "/p/A/"); AttrValue (Some "/reel/B/");
             AttrValue (Some "/p/A/")]).
  vm_compute. reflexivity.
Defined.

(** C8 (as stated) fails across suggestions: [seenUrls] is created anew
    for each suggestion, so a post that two suggestions of one keyword
    both show is collected twice (within one suggestion the second link is
    dropped), and the run opens it twice. *)
Lemma duplicate_across_suggestions :
  opened_posts (log (searchInstagramForCreators plain_cfg twin_query "career tips"
                       (boot ∅)).2)
  = [post_a; post_a]
  /\ ~ NoDup (opened_posts
                (log (searchInstagramForCreators plain_cfg twin_query "career tips"
                        (boot ∅)).2)).
Proof.
  split; [vm_compute; reflexivity|].
  replace (opened_posts _) with [post_a; post_a] by (vm_compute; reflexivity).
  intros H. apply NoDup_cons in H as [H _]. apply H. left.
Qed.

(* --------------------------------------------------------------------- *)
(** ** Weakest preconditions for [M] *)
(* --------------------------------------------------------------------- *)

Lemma wp_ret {A} (a : A) Q m : Q (Returned a) m -> wp (ret a) Q m.
Proof. exact id. Qed.

Lemma wp_throw {A} (Q : Result A -> Machine -> Prop) m : Q Thrown m -> wp throw Q m.
Proof. exact id. Qed.

Lemma wp_bind {A B} (c : M A) (k : A -> M B) Q m :
  wp c (fun r m' => match r with
                    | Returned a => wp (k a) Q m'
                    | Thrown => Q Thrown m'
                    end) m ->
  wp (bind c k) Q m.
Proof. unfold wp, bind. destruct (c m) as [[a|] m']; exact id. Qed.

Lemma wp_try_catch {A} (c handler : M A) Q m :
  wp c (fun r m' => match r with
                    | Returned a => Q (Returned a) m'
                    | Thrown => wp handler Q m'
                    end) m ->
  wp (try_catch c handler) Q m.
Proof. unfold wp, try_catch. destruct (c m) as [[a|] m']; exact id. Qed.

Lemma wp_gets {A} (f : Machine -> A) Q m : Q (Returned (f m)) m -> wp (gets f) Q m.
Proof. exact id. Qed.

Lemma wp_modify (f : Machine -> Machine) Q m : Q (Returned tt) (f m) -> wp (modify f) Q m.
Proof. exact id. Qed.

Lemma wp_await (raises : Site -> bool) (s : Site) Q m :
  (raises s = true -> Q Thrown m) ->
  (raises s = false -> Q (Returned tt) m) ->
  wp (await raises s) Q m.
Proof. unfold wp, await. destruct (raises s); auto. Qed.

Lemma wp_newPage (raises : Site -> bool) (s : Site) (l : Level) Q m :
  (raises s = true -> Q Thrown m) ->
  (raises s = false ->
   Q (Returned (next_tab m))
     (with_tabs (tabs m ++ [(next_tab m, l)]) (S (next_tab m)) m)) ->
  wp (newPage raises s l) Q m.
Proof. unfold wp, newPage. destruct (raises s); auto. Qed.

Lemma wp_mono {A} (c : M A) (Q Q' : Result A -> Machine -> Prop) m :
  wp c Q m -> (forall r m', Q r m' -> Q' r m') -> wp c Q' m.
Proof. unfold wp. auto. Qed.

Lemma wp_run {A} (c : M A) Q m : wp c Q m -> Q (c m).1 (c m).2.
Proof. exact id. Qed.

(** One step of symbolic execution. *)
Ltac wp_step :=
  lazymatch goal with
  | |- wp (bind _ _) _ _ => apply wp_bind
  | |- wp (try_catch _ _) _ _ => apply wp_try_catch
  | |- wp (quietly _) _ _ => unfold quietly
  | |- wp (ret _) _ _ => apply wp_ret
  | |- wp throw _ _ => apply wp_throw
  | |- wp (gets _) _ _ => apply wp_gets
  | |- wp (modify _) _ _ => apply wp_modify
  | |- wp (await _ _) _ _ => apply wp_await; intros ?
  | |- wp (newPage _ _ _) _ _ => apply wp_newPage; intros ?
  | |- wp (emit _) _ _ => unfold emit
  | |- wp (lookup_state _) _ _ => unfold lookup_state
  | |- wp (put_state _ _) _ _ => unfold put_state
  | |- wp (close _ _ _) _ _ => unfold close
  | |- wp (close_if_open ?t) _ _ => unfold close_if_open
  | |- wp (saveState _ _) _ _ => unfold saveState
  | |- wp (screenProfile _ _ _) _ _ => unfold screenProfile
  | |- wp (sendMessages _ _) _ _ => unfold sendMessages
  | |- wp browser_close _ _ => unfold browser_close
  | |- wp (if ?b then _ else _) _ _ => destruct b eqn:?
  | |- wp (match ?x with _ => _ end) _ _ => destruct x eqn:?
  end;
  cbv beta iota zeta.

(* --------------------------------------------------------------------- *)
(** ** Tabs *)
(* --------------------------------------------------------------------- *)

Lemma open_deep_app (a b : list (nat * Level)) :
  open_deep (a ++ b) = open_deep a + open_deep b.
Proof. unfold open_deep. now rewrite filter_app, length_app. Qed.

Lemma open_deep_cons (p : nat * Level) (t : list (nat * Level)) :
  open_deep (p :: t) = (if is_deep p.2 then 1 else 0) + open_deep t.
Proof.
  unfold open_deep. destruct (is_deep p.2) eqn:H.
  - rewrite filter_cons_True by assumption. reflexivity.
  - rewrite filter_cons_False by congruence. reflexivity.
Qed.

Lemma open_deep_remove_le (id : nat) (t : list (nat * Level)) :
  open_deep (remove_tab id t) <= open_deep t.
Proof.
  induction t as [|p t IH]; [reflexivity|].
  unfold remove_tab in *. destruct (decide (p.1 ≠ id)).
  - rewrite filter_cons_True by assumption. rewrite !open_deep_cons. lia.
  - rewrite filter_cons_False by assumption. rewrite open_deep_cons. lia.
Qed.

Lemma open_deep_remove (id : nat) (t : list (nat * Level)) :
  open_deep t = 0 -> open_deep (remove_tab id t) = 0.
Proof. pose proof (open_deep_remove_le id t). lia. Qed.

Lemma remove_tab_app (id : nat) (a b : list (nat * Level)) :
  remove_tab id (a ++ b) = remove_tab id a ++ remove_tab id b.
Proof. unfold remove_tab. apply filter_app. Qed.

Lemma remove_tab_same (id : nat) (l : Level) : remove_tab id [(id, l)] = [].
Proof. unfold remove_tab. rewrite filter_cons_False; [reflexivity|]. simpl. tauto. Qed.

Lemma remove_tab_next (id : nat) (l : Level) :
  remove_tab (S id) [(id, l)] = [(id, l)].
Proof. unfold remove_tab. rewrite filter_cons_True; [reflexivity|]. simpl. lia. Qed.

Lemma remove_tab_nil (id : nat) : remove_tab id [] = [].
Proof. reflexivity. Qed.

Lemma remove_tab_prev (id : nat) (l : Level) :
  remove_tab id [(S id, l)] = [(S id, l)].
Proof. unfold remove_tab. rewrite filter_cons_True; [reflexivity|]. simpl. lia. Qed.

(** Projections of an updated machine. *)
Ltac machine_simpl :=
  cbn [state proto_set state_file tabs next_tab log found suggestionTab postTab
       profileTab with_state with_proto_set with_state_file with_tabs with_log
       with_found with_suggestionTab with_postTab with_profileTab save_state]
    in *.

Ltac wp_exec := repeat (wp_step; machine_simpl).

Create Rewrite HintDb tabs.
#[local] Hint Rewrite remove_tab_app remove_tab_same remove_tab_next
  remove_tab_prev remove_tab_nil @app_nil_r : tabs.

Ltac tabs_solve :=
  machine_simpl; autorewrite with tabs;
  repeat apply open_deep_remove; assumption.

(** Every tab the iteration of one post opens is closed when it ends. *)
Lemma process_post_balanced (cfg : Config) (env : CandidateEnv) (reelUrl : string)
    (m : Machine) :
  open_deep (tabs m) = 0 ->
  open_deep (tabs (process_post cfg env reelUrl m).2) = 0.
Proof.
  intros H0.
  apply (wp_run (process_post cfg env reelUrl) (fun _ m' => open_deep (tabs m') = 0)).
  unfold process_post, post_body, enter_post, process_profile.
  wp_exec; tabs_solve.
Qed.

(** The loop over the posts of a suggestion goes from balance to balance. *)
Lemma tab_balance_loop (cfg : Config) (envs : nat -> CandidateEnv) (j : nat)
    (reelUrls : list string) (m : Machine) :
  open_deep (tabs m) = 0 ->
  open_deep (tabs (process_posts cfg envs j reelUrls m).2) = 0.
Proof.
  revert j m. induction reelUrls as [|url rest IH]; intros j m H0; [exact H0|].
  cbn [process_posts]. unfold bind.
  pose proof (process_post_balanced cfg (envs j) url m H0) as H1.
  destruct (process_post cfg (envs j) url m) as [[[]|] m1]; simpl in *.
  - apply IH, H1.
  - exact H1.
Qed.

(** The profile tab of the loop over [newHandles] is closed as well. *)
Lemma tab_balance_handle (cfg : Config) (env : CandidateEnv) (handle : string)
    (m : Machine) :
  open_deep (tabs m) = 0 ->
  open_deep (tabs (igsearch_handle cfg env handle m).2) = 0.
Proof.
  intros H0.
  apply (wp_run (igsearch_handle cfg env handle)
           (fun _ m' => open_deep (tabs m') = 0)).
  unfold igsearch_handle.
  wp_exec; tabs_solve.
Qed.

(** C4: whatever happens while one post is processed (a send, a failed
    extraction, a skip, a rejection, a failed dispatch, an exception at any
    awaited call), no Level-2 or Level-3 tab is open when the iteration
    ends, provided none was open when it began. *)
Theorem tab_balance (cfg : Config) (env : CandidateEnv) (reelUrl : string)
    (m : Machine) :
  open_deep (tabs m) = 0 ->
  open_deep (tabs (process_post cfg env reelUrl m).2) = 0.
Proof.
  intros H0.
  apply (wp_run (process_post cfg env reelUrl) (fun _ m' => open_deep (tabs m') = 0)).
  unfold process_post, post_body, enter_post, process_profile.
  wp_exec.
  all: machine_simpl; autorewrite with tabs.
  all: repeat apply open_deep_remove; exact H0.
Qed.

Lemma tab_balance_witness :
  open_deep (tabs (process_post screening_cfg rate_limited_env post_a (boot ∅)).2) = 0.
Proof. apply tab_balance. reflexivity. Defined.

(* --------------------------------------------------------------------- *)
(** ** Invariants through the combinators *)
(* --------------------------------------------------------------------- *)

Section Preserves.
Variable I : Machine -> Prop.

Lemma preserves_ret {A} (a : A) : preserves I (ret a).
Proof. intros m H. exact H. Qed.

Lemma preserves_throw {A} : preserves I (@throw A).
Proof. intros m H. exact H. Qed.

Lemma preserves_bind {A B} (c : M A) (k : A -> M B) :
  preserves I c -> (forall a, preserves I (k a)) -> preserves I (bind c k).
Proof.
  intros Hc Hk m H. apply wp_bind. eapply wp_mono; [apply Hc, H|].
  intros [a|] m' H'; [apply Hk, H' | exact H'].
Qed.

Lemma preserves_try_catch {A} (c handler : M A) :
  preserves I c -> preserves I handler -> preserves I (try_catch c handler).
Proof.
  intros Hc Hh m H. apply wp_try_catch. eapply wp_mono; [apply Hc, H|].
  intros [a|] m' H'; [exact H' | apply Hh, H'].
Qed.

Lemma preserves_await (raises : Site -> bool) (s : Site) :
  preserves I (await raises s).
Proof. intros m H. apply wp_await; intros _; exact H. Qed.

Lemma preserves_gets {A} (f : Machine -> A) : preserves I (gets f).
Proof. intros m H. exact H. Qed.

Lemma preserves_modify (f : Machine -> Machine) :
  (forall m, I m -> I (f m)) -> preserves I (modify f).
Proof. intros Hf m H. apply wp_modify, Hf, H. Qed.

Lemma preserves_loop {E X} (body : E -> X -> M unit)
    (loop : (nat -> E) -> nat -> list X -> M unit) :
  (forall envs i, loop envs i [] = ret tt) ->
  (forall envs i x rest,
      loop envs i (x :: rest) = (body (envs i) x >>> loop envs (S i) rest)) ->
  (forall env x, preserves I (body env x)) ->
  forall envs i xs, preserves I (loop envs i xs).
Proof.
  intros Hnil Hcons Hbody envs i xs. revert i.
  induction xs as [|x rest IH]; intros i.
  - rewrite Hnil. apply preserves_ret.
  - rewrite Hcons. apply preserves_bind; [apply Hbody | intros _; apply IH].
Qed.

Lemma preserves_run {A} (c : M A) (m : Machine) :
  preserves I c -> I m -> I (c m).2.
Proof. intros Hc H. exact (Hc m H). Qed.
End Preserves.

(* --------------------------------------------------------------------- *)
(** ** From the iterations to the runs *)
(* --------------------------------------------------------------------- *)

(** An invariant that reads only the store, the file and the log, and
    that every loop body keeps, is kept by the loops and by the runs. *)
Section RunInvariant.
Variable I : Machine -> Prop.
Hypothesis I_frame : forall m m',
    state m' = state m -> proto_set m' = proto_set m ->
    state_file m' = state_file m -> log m' = log m ->
    I m -> I m'.
Hypothesis I_saved : forall m, I m -> I (save_state m).
Hypothesis I_post : forall cfg env reelUrl, preserves I (process_post cfg env reelUrl).
Hypothesis I_handle : forall cfg env handle, preserves I (igsearch_handle cfg env handle).
Hypothesis I_creator : forall cfg env ci c, preserves I (send_creator cfg env ci c).
Hypothesis I_followup : forall env c, preserves I (followup_creator env c).

(** Composite commands that never consult the store. *)
Ltac frame_auto :=
  repeat
    lazymatch goal with
    | |- preserves _ (bind _ _) => apply preserves_bind; [|intros ?]
    | |- preserves _ (try_catch _ _) => apply preserves_try_catch
    | |- preserves _ (quietly _) => unfold quietly
    | |- preserves _ (ret _) => apply preserves_ret
    | |- preserves _ throw => apply preserves_throw
    | |- preserves _ (await _ _) => apply preserves_await
    | |- preserves _ (gets _) => apply preserves_gets
    | |- preserves _ (newPage _ _ _) => unfold newPage
    | |- preserves _ (fun m => (Returned _, _)) =>
        intros ? ?; eapply I_frame; [..|eassumption]; reflexivity
    | |- preserves _ (modify save_state) =>
        apply preserves_modify; intros ? ?; apply I_saved; assumption
    | |- preserves _ (modify _) =>
        apply preserves_modify; intros ? ?;
        eapply I_frame; [..|eassumption]; reflexivity
    | |- preserves _ (close _ _ _) => unfold close
    | |- preserves _ (close_if_open _) => unfold close_if_open
    | |- preserves _ (saveState _ _) => unfold saveState
    | |- preserves _ browser_close => unfold browser_close
    | |- preserves _ (if ?b then _ else _) => destruct b
    | |- preserves _ (match ?x with _ => _ end) => destruct x
    end.

Lemma process_posts_preserves (cfg : Config) envs j reelUrls :
  preserves I (process_posts cfg envs j reelUrls).
Proof.
  apply (preserves_loop _ (process_post cfg) (process_posts cfg));
    [reflexivity | reflexivity |].
  intros env x. apply I_post.
Qed.

Lemma process_suggestion_preserves (cfg : Config) (env : SuggestionEnv) :
  preserves I (process_suggestion cfg env).
Proof.
  unfold process_suggestion. frame_auto; apply process_posts_preserves.
Qed.

Lemma process_suggestions_preserves (cfg : Config) envs i suggestionUrls :
  preserves I (process_suggestions cfg envs i suggestionUrls).
Proof.
  apply (preserves_loop _ (fun env (_ : string) => process_suggestion cfg env)
           (process_suggestions cfg)); [reflexivity | reflexivity |].
  intros env x. apply process_suggestion_preserves.
Qed.

Lemma searchInstagramForCreators_preserves (cfg : Config) (env : QueryEnv)
    (query : string) :
  preserves I (searchInstagramForCreators cfg env query).
Proof.
  unfold searchInstagramForCreators.
  frame_auto; apply process_suggestions_preserves.
Qed.

Lemma igsearch_handles_preserves (cfg : Config) envs i newHandles :
  preserves I (igsearch_handles cfg envs i newHandles).
Proof.
  apply (preserves_loop _ (igsearch_handle cfg) (igsearch_handles cfg));
    [reflexivity | reflexivity |].
  intros env x. apply I_handle.
Qed.

Lemma igsearch_queries_preserves (cfg : Config) envs i queries :
  preserves I (igsearch_queries cfg envs i queries).
Proof.
  revert i. induction queries as [|q rest IH]; intros i; simpl.
  - apply preserves_ret.
  - apply preserves_bind; [apply searchInstagramForCreators_preserves|].
    intros newHandles.
    apply preserves_bind; [apply igsearch_handles_preserves|]. intros _.
    apply preserves_bind; [apply preserves_await|]. intros _. apply IH.
Qed.

Lemma send_creators_preserves (cfg : Config) envs ci creators :
  preserves I (send_creators cfg envs ci creators).
Proof.
  revert ci. induction creators as [|c rest IH]; intros ci; simpl.
  - apply preserves_ret.
  - apply preserves_bind; [apply I_creator | intros _; apply IH].
Qed.

Lemma followup_creators_preserves envs i creators :
  preserves I (followup_creators envs i creators).
Proof.
  apply (preserves_loop _ followup_creator followup_creators);
    [reflexivity | reflexivity |].
  intros env x. apply I_followup.
Qed.

Lemma guarded_run_preserves (raises : Site -> bool) (body : M unit) :
  preserves I body -> preserves I (guarded_run raises body).
Proof. intros Hb. unfold guarded_run. frame_auto. exact Hb. Qed.

Lemma runFollowup_preserves (env : FollowupEnv) :
  preserves I (runFollowup env).
Proof.
  unfold runFollowup. destruct (fu_creators env) as [|c rest].
  - apply preserves_ret.
  - apply guarded_run_preserves, followup_creators_preserves.
Qed.

Lemma run_program_preserves (cfg : Config) (r : Run) :
  preserves I (run_program cfg r).
Proof.
  destruct r as [env|env|env]; simpl.
  - apply guarded_run_preserves, send_creators_preserves.
  - apply guarded_run_preserves, igsearch_queries_preserves.
  - apply runFollowup_preserves.
Qed.
End RunInvariant.

(* --------------------------------------------------------------------- *)
(** ** A closed candidate stays closed *)
(* --------------------------------------------------------------------- *)

(** What [saveState] writes, for a key that is an own property. *)
Lemma lookup_own_properties (m : Machine) (h : string) :
  (h = "__proto__" -> proto_set m = false) ->
  own_properties m !! h = state m !! h.
Proof.
  unfold own_properties. intros H. destruct (proto_set m); [|reflexivity].
  apply lookup_delete_ne. intros E. symmetry in E. apply H in E. discriminate E.
Qed.

(** An assignment to another key does not touch the prototype. *)
Lemma sets_prototype_other (s h : string) (m : Machine) :
  s ≠ h -> h = "__proto__" -> sets_prototype s m = false.
Proof.
  intros Hne ->. unfold sets_prototype.
  apply String.eqb_neq in Hne. rewrite Hne. reflexivity.
Qed.

Section Closed.
Variable P : CreatorState -> Prop.
Variable h : string.
Hypothesis P_skips : forall r, P r -> skipped_by_check r.
Hypothesis P_replied : forall r, P r -> P (set_replied r).
Hypothesis P_followedUp : forall t r, P r -> P (set_followedUp t r).

Lemma holds_insert_ne (s : string) (r : CreatorState)
    (store : gmap string CreatorState) :
  s ≠ h -> holds P h store -> holds P h (<[s:=r]> store).
Proof.
  intros Hne (r0 & H0 & HP). exists r0. split; [|exact HP].
  rewrite lookup_insert_ne by exact Hne. exact H0.
Qed.

Lemma check_passed_neq (s : string) (store : gmap string CreatorState) :
  holds P h store ->
  match store !! s with
  | Some c => sent c = false /\ is_screened_out c = false
  | None => True
  end ->
  s ≠ h.
Proof.
  intros (r0 & H0 & HP) Hs ->. rewrite H0 in Hs. destruct Hs as [H1 H2].
  destruct (P_skips _ HP); congruence.
Qed.

Ltac derive_neq :=
  match goal with
  | Hs : holds P h (state ?m), Hl : state ?m !! ?s = None |- _ =>
      assert (s ≠ h)
        by (apply (check_passed_neq s (state m) Hs); rewrite Hl; exact Logic.I)
  | Hs : holds P h (state ?m), Hl : state ?m !! ?s = Some ?c,
    H1 : sent ?c = false, H2 : is_screened_out ?c = false |- _ =>
      assert (s ≠ h)
        by (apply (check_passed_neq s (state m) Hs); rewrite Hl; split; assumption)
  | Hs : holds P h (state ?m),
    H1 : match state ?m !! ?s with Some _ => _ | None => false end = false,
    H2 : match state ?m !! ?s with Some _ => _ | None => false end = false |- _ =>
      assert (s ≠ h)
        by (apply (check_passed_neq s (state m) Hs);
            destruct (state m !! s); [split; assumption | exact Logic.I])
  end.

Lemma holds_own_properties (m : Machine) :
  holds P h (state m) -> (h = "__proto__" -> proto_set m = false) ->
  holds P h (own_properties m).
Proof.
  intros (r0 & H0 & HP) Hp. exists r0. split; [|exact HP].
  rewrite lookup_own_properties by exact Hp. exact H0.
Qed.

(** The flag of the prototype after the assignments of an iteration. *)
Ltac own_leaf Hp :=
  let Hh := fresh "Hh" in
  intros Hh;
  rewrite ?(sets_prototype_other _ h) by assumption;
  cbn [orb]; exact (Hp Hh).

Ltac closed_leaf Hp :=
  try derive_neq;
  unfold closed; machine_simpl;
  split; [|split; [|split]];
  [ first [assumption | apply holds_insert_ne; assumption]
  | first [ assumption
          | apply holds_insert_ne; assumption
          | apply holds_own_properties; machine_simpl;
            [ first [assumption | apply holds_insert_ne; assumption]
            | own_leaf Hp ] ]
  | repeat (apply Forall_cons; split;
            [unfold contacts; intros [?|[?|?]]; congruence|]);
    assumption
  | own_leaf Hp ].

Lemma process_post_closed (cfg : Config) (env : CandidateEnv) (reelUrl : string) :
  preserves (closed P h) (process_post cfg env reelUrl).
Proof.
  intros m (Hs & Hf & Hl & Hp).
  unfold process_post, post_body, enter_post, process_profile.
  wp_exec; closed_leaf Hp.
Qed.

Lemma igsearch_handle_closed (cfg : Config) (env : CandidateEnv) (handle : string) :
  preserves (closed P h) (igsearch_handle cfg env handle).
Proof.
  intros m (Hs & Hf & Hl & Hp).
  unfold igsearch_handle.
  wp_exec; closed_leaf Hp.
Qed.

Lemma send_creator_closed (cfg : Config) (env : CandidateEnv) (ci : nat)
    (c : Creator) :
  preserves (closed P h) (send_creator cfg env ci c).
Proof.
  intros m (Hs & Hf & Hl & Hp).
  unfold send_creator.
  wp_exec; closed_leaf Hp.
Qed.

Lemma holds_alter (f : CreatorState -> CreatorState) (s : string)
    (store : gmap string CreatorState) :
  (forall r, P r -> P (f r)) -> holds P h store -> holds P h (alter f s store).
Proof.
  intros Hf (r0 & H0 & HP). destruct (decide (s = h)) as [->|Hne].
  - exists (f r0). split; [|apply Hf, HP].
    rewrite lookup_alter_eq, H0. reflexivity.
  - exists r0. split; [|exact HP].
    rewrite lookup_alter_ne by exact Hne. exact H0.
Qed.

Lemma followup_creator_closed (env : FollowEnv) (c : Creator) :
  preserves (closed P h) (followup_creator env c).
Proof.
  intros m (Hs & Hf & Hl & Hp).
  unfold followup_creator.
  wp_exec; unfold closed; machine_simpl;
    (split; [|split; [|split]];
     [ first [assumption | apply holds_alter; auto]
     | first [ assumption
             | apply holds_alter; auto
             | apply holds_own_properties; machine_simpl;
               [first [assumption | apply holds_alter; auto] | exact Hp] ]
     | repeat (apply Forall_cons; split;
               [unfold contacts; intros [?|[?|?]]; congruence|]);
       assumption
     | exact Hp ]).
Qed.

Lemma closed_frame (m m' : Machine) :
  state m' = state m -> proto_set m' = proto_set m ->
  state_file m' = state_file m -> log m' = log m ->
  closed P h m -> closed P h m'.
Proof. unfold closed. intros -> -> -> ->. exact id. Qed.

Lemma closed_saved (m : Machine) :
  closed P h m -> closed P h (save_state m).
Proof.
  intros (Hs & Hf & Hl & Hp). split; [|split; [|split]]; try assumption.
  apply (holds_own_properties m Hs Hp).
Qed.

Lemma run_program_closed (cfg : Config) (r : Run) :
  preserves (closed P h) (run_program cfg r).
Proof.
  apply run_program_preserves.
  - exact closed_frame.
  - exact closed_saved.
  - apply process_post_closed.
  - apply igsearch_handle_closed.
  - apply send_creator_closed.
  - apply followup_creator_closed.
Qed.

Lemma closed_boot (file : gmap string CreatorState) :
  holds P h file -> closed P h (boot file).
Proof.
  intros H. split; [|split; [|split]];
    [exact H | exact H | apply Forall_nil_2 | reflexivity].
Qed.

Lemma exec_run_closed (cfg : Config) (r : Run) (file : gmap string CreatorState) :
  holds P h file -> closed P h (exec_run cfg r file).
Proof.
  intros H. apply (preserves_run _ _ _ (run_program_closed cfg r)).
  apply closed_boot, H.
Qed.

Lemma exec_runs_closed (cfg : Config) (rs : list Run)
    (file : gmap string CreatorState) :
  holds P h file ->
  Forall (Forall (fun e => ~ contacts h e)) (exec_runs cfg rs file).1
  /\ holds P h (exec_runs cfg rs file).2.
Proof.
  revert file. induction rs as [|r rest IH]; intros file H; simpl.
  - split; [apply Forall_nil_2 | exact H].
  - destruct (exec_run_closed cfg r file H) as (_ & Hf & Hl & _).
    destruct (IH _ Hf) as [IH1 IH2].
    destruct (exec_runs cfg rest (state_file (exec_run cfg r file))) as [logs file'].
    simpl in *. split; [apply Forall_cons; split; assumption | exact IH2].
Qed.
End Closed.

(* --------------------------------------------------------------------- *)
(** ** Idempotency *)
(* --------------------------------------------------------------------- *)

(** C1: a handle whose record in the file has [sent = true] when a run
    starts is not contacted in that run, be it the API send run or the
    Instagram search run: no profile of it is opened, [screenProfile] and
    [sendMessages] are not called for it. *)
Theorem sent_handle_never_contacted (cfg : Config)
    (file : gmap string CreatorState) (h : string) (r : CreatorState) :
  file !! h = Some r ->
  sent r = true ->
  (forall env, Forall (fun e => ~ contacts h e)
                      (log (exec_run cfg (SendRun env) file)))
  /\ (forall env, Forall (fun e => ~ contacts h e)
                         (log (exec_run cfg (IGSearchRun env) file))).
Proof.
  intros Hfile Hsent.
  assert (Hh : holds (fun r => sent r = true) h file) by (exists r; auto).
  split; intros env;
    eapply (exec_run_closed (fun r => sent r = true) h); try exact Hh;
    unfold skipped_by_check; auto.
Qed.

Lemma sent_handle_never_contacted_witness :
  Forall (fun e => ~ contacts "alice_grad" e)
         (log (exec_run plain_cfg (SendRun (alice_send SendAll)) sent_file))
  /\ Forall (fun e => ~ contacts "alice_grad" e)
            (log (exec_run plain_cfg (IGSearchRun (alice_search SendAll)) sent_file)).
Proof.
  destruct (sent_handle_never_contacted plain_cfg sent_file "alice_grad"
              (send_record true 1699000000000 post_a (Some "ig")))
    as [H1 H2]; [reflexivity | reflexivity |].
  split; [apply H1 | apply H2].
Defined.

(* --------------------------------------------------------------------- *)
(** ** Screening rejections *)
(* --------------------------------------------------------------------- *)

Ltac rejection_leaf :=
  let Hocc := fresh "Hocc" in
  let Hsave := fresh "Hsave" in
  intros Hocc Hsave; cbn [occurrences event_eqb] in Hocc;
  rewrite ?andb_false_r in Hocc; try lia; try congruence;
  repeat match goal with
         | Hp : negb (passes _) = true |- _ => apply negb_true_iff in Hp
         | Hp : negb (passes _) = false |- _ => apply negb_false_iff in Hp
         end;
  match goal with
  | Hp : passes _ = _ |- _ => rewrite Hp in Hocc
  end;
  cbn [Bool.eqb] in Hocc; rewrite ?andb_false_r, ?andb_true_r in Hocc;
  try lia;
  match type of Hocc with
  | context [String.eqb ?a ?b] =>
      destruct (String.eqb_spec a b) as [->|?]; [|lia]
  end;
  rewrite ?lookup_own_properties
    by (let E := fresh in
        intros E;
        match goal with Hp : _ ≠ "__proto__" |- _ => destruct (Hp E) end);
  machine_simpl; rewrite !lookup_insert_eq; split; reflexivity.

(** While one post is processed: if [screenProfile] returns a rejection of
    [h] and the write of the state file does not throw, then at the end of
    the iteration the object and the file both hold the screened-out
    record of [h]. *)
Lemma rejection_persisted (cfg : Config) (env : CandidateEnv) (reelUrl : string)
    (m : Machine) (h : string) :
  h <> "__proto__" ->
  let m' := (process_post cfg env reelUrl m).2 in
  occurrences (Screened h false) (log m) < occurrences (Screened h false) (log m') ->
  raises env SaveScreened = false ->
  state m' !! h = Some (screened_record (now env) reelUrl "ig")
  /\ state_file m' !! h = Some (screened_record (now env) reelUrl "ig").
Proof.
  intros Hproto.
  apply (wp_run (process_post cfg env reelUrl)
           (fun _ m' =>
              occurrences (Screened h false) (log m)
              < occurrences (Screened h false) (log m') ->
              raises env SaveScreened = false ->
              state m' !! h = Some (screened_record (now env) reelUrl "ig")
              /\ state_file m' !! h = Some (screened_record (now env) reelUrl "ig"))).
  unfold process_post, post_body, enter_post, process_profile.
  wp_exec; rejection_leaf.
Qed.

(** The same in the loop of [runSend]. *)
Lemma rejection_persisted_send (cfg : Config) (env : CandidateEnv) (ci : nat)
    (c : Creator) (m : Machine) (h : string) :
  h <> "__proto__" ->
  let m' := (send_creator cfg env ci c m).2 in
  occurrences (Screened h false) (log m) < occurrences (Screened h false) (log m') ->
  raises env SaveScreened = false ->
  state m' !! h = Some (send_screened_record (c_reelUrl c))
  /\ state_file m' !! h = Some (send_screened_record (c_reelUrl c)).
Proof.
  intros Hproto.
  apply (wp_run (send_creator cfg env ci c)
           (fun _ m' =>
              occurrences (Screened h false) (log m)
              < occurrences (Screened h false) (log m') ->
              raises env SaveScreened = false ->
              state m' !! h = Some (send_screened_record (c_reelUrl c))
              /\ state_file m' !! h = Some (send_screened_record (c_reelUrl c)))).
  unfold send_creator.
  wp_exec; rejection_leaf.
Qed.

(** The same in the loop over [newHandles] of [runIGSearch]. *)
Lemma rejection_persisted_handle (cfg : Config) (env : CandidateEnv)
    (handle : string) (m : Machine) (h : string) :
  h <> "__proto__" ->
  let m' := (igsearch_handle cfg env handle m).2 in
  occurrences (Screened h false) (log m) < occurrences (Screened h false) (log m') ->
  raises env SaveScreened = false ->
  state m' !! h = Some (screened_record (now env) "" "ig-search")
  /\ state_file m' !! h = Some (screened_record (now env) "" "ig-search").
Proof.
  intros Hproto.
  apply (wp_run (igsearch_handle cfg env handle)
           (fun _ m' =>
              occurrences (Screened h false) (log m)
              < occurrences (Screened h false) (log m') ->
              raises env SaveScreened = false ->
              state m' !! h = Some (screened_record (now env) "" "ig-search")
              /\ state_file m' !! h = Some (screened_record (now env) "" "ig-search"))).
  unfold igsearch_handle.
  wp_exec; rejection_leaf.
Qed.

Lemma screening_reason (r : CreatorState) :
  skippedReason r = Some "screening" -> is_screened_out r = true.
Proof. unfold is_screened_out. now intros ->. Qed.

Lemma contacts_of_classifies (h : string) (e : Event) :
  classifies_or_dispatches h e -> contacts h e.
Proof. unfold classifies_or_dispatches, contacts. tauto. Qed.

(** A handle screened out when a sequence of runs starts is neither
    classified nor sent to in any of them, whatever their modes. *)
Lemma screened_out_never_reconsidered (cfg : Config) (rs : list Run)
    (file : gmap string CreatorState) (h : string) (r : CreatorState) :
  file !! h = Some r ->
  skippedReason r = Some "screening" ->
  Forall (Forall (fun e => ~ classifies_or_dispatches h e))
         (exec_runs cfg rs file).1.
Proof.
  intros Hfile Hreason.
  assert (Hh : holds (fun r => is_screened_out r = true) h file).
  { exists r. split; [exact Hfile | apply screening_reason, Hreason]. }
  destruct (exec_runs_closed (fun r => is_screened_out r = true) h) with
    (cfg := cfg) (rs := rs) (file := file) as [Hlogs _];
    try exact Hh; unfold skipped_by_check; auto.
  eapply Forall_impl; [exact Hlogs|]. intros l Hl.
  eapply Forall_impl; [exact Hl|]. intros e He Hc.
  apply He, contacts_of_classifies, Hc.
Qed.

(** Rejections are final, for every handle but ["__proto__"]: (1) when
    screening rejects [h] while a post is processed (or a creator, in the
    API send loop) and the file write does not throw, the screened-out
    record of [h], with [skipped = true] and
    [skippedReason = "screening"], is in the object and in the file when
    the iteration ends (third conjunct: the same in the loop over
    [newHandles] of [runIGSearch]); (2) a handle whose record has
    [skippedReason = "screening"] when a sequence of runs starts is never
    classified nor sent to in any of these runs. *)
Theorem screened_out_is_final (cfg : Config) :
  (forall env reelUrl m h,
      h <> "__proto__" ->
      let m' := (process_post cfg env reelUrl m).2 in
      occurrences (Screened h false) (log m)
      < occurrences (Screened h false) (log m') ->
      raises env SaveScreened = false ->
      exists r, state m' !! h = Some r /\ state_file m' !! h = Some r
                /\ skipped r = true /\ skippedReason r = Some "screening")
  /\ (forall env ci c m h,
      h <> "__proto__" ->
      let m' := (send_creator cfg env ci c m).2 in
      occurrences (Screened h false) (log m)
      < occurrences (Screened h false) (log m') ->
      raises env SaveScreened = false ->
      exists r, state m' !! h = Some r /\ state_file m' !! h = Some r
                /\ skipped r = true /\ skippedReason r = Some "screening")
  /\ (forall env handle m h,
      h <> "__proto__" ->
      let m' := (igsearch_handle cfg env handle m).2 in
      occurrences (Screened h false) (log m)
      < occurrences (Screened h false) (log m') ->
      raises env SaveScreened = false ->
      exists r, state m' !! h = Some r /\ state_file m' !! h = Some r
                /\ skipped r = true /\ skippedReason r = Some "screening")
  /\ (forall rs file h r,
      file !! h = Some r ->
      skippedReason r = Some "screening" ->
      Forall (Forall (fun e => ~ classifies_or_dispatches h e))
             (exec_runs cfg rs file).1).
Proof.
  split; [|split; [|split]].
  - intros env reelUrl m h Hproto m' Hocc Hsave.
    destruct (rejection_persisted cfg env reelUrl m h Hproto Hocc Hsave) as [H1 H2].
    exists (screened_record (now env) reelUrl "ig").
    split; [exact H1 | split; [exact H2 | split; reflexivity]].
  - intros env ci c m h Hproto m' Hocc Hsave.
    destruct (rejection_persisted_send cfg env ci c m h Hproto Hocc Hsave)
      as [H1 H2].
    exists (send_screened_record (c_reelUrl c)).
    split; [exact H1 | split; [exact H2 | split; reflexivity]].
  - intros env handle m h Hproto m' Hocc Hsave.
    destruct (rejection_persisted_handle cfg env handle m h Hproto Hocc Hsave)
      as [H1 H2].
    exists (screened_record (now env) "" "ig-search").
    split; [exact H1 | split; [exact H2 | split; reflexivity]].
  - intros rs file h r. apply screened_out_never_reconsidered.
Qed.

Lemma screened_out_is_final_witness :
  (exists r,
      state (process_post screening_cfg rate_limited_env_alice post_a (boot ∅)).2
        !! "alice_grad" = Some r
      /\ state_file (process_post screening_cfg rate_limited_env_alice post_a (boot ∅)).2
           !! "alice_grad" = Some r
      /\ skipped r = true /\ skippedReason r = Some "screening")
  /\ Forall (Forall (fun e => ~ classifies_or_dispatches "alice_grad" e))
       (exec_runs plain_cfg
          [IGSearchRun (alice_search SendAll); SendRun (alice_send SendAll)]
          screened_file).1.
Proof.
  destruct (screened_out_is_final screening_cfg) as (H1 & _ & _ & _).
  destruct (screened_out_is_final plain_cfg) as (_ & _ & _ & H3).
  split.
  - apply (H1 rate_limited_env_alice post_a (boot ∅) "alice_grad").
    + discriminate.
    + vm_compute. lia.
    + reflexivity.
  - apply (H3 [IGSearchRun (alice_search SendAll); SendRun (alice_send SendAll)]
              screened_file "alice_grad"
              (screened_record 1699000000000 post_a "ig")); reflexivity.
Defined.

(** C2 (the code departs from it) at the handle ["__proto__"]: the post
    of an account of that name is screened and rejected; the assignment
    [state[handle] = {..}] of the screened-out record runs the setter the
    object inherits, so the record becomes the prototype of [state] and
    [JSON.stringify] writes nothing: the file of the run is as empty as
    before.  Within the run the second post of the account is skipped
    ([state[handle]] reads the prototype), but the next run, started on
    that file, calls [screenProfile] for the handle again. *)
Theorem prototype_rejection_is_not_saved :
  let m1 := exec_run screening_cfg (IGSearchRun proto_search) ∅ in
  let m2 := exec_run screening_cfg (IGSearchRun proto_search) (state_file m1) in
  extract_handle false false false proto_page = Some "__proto__"
  /\ occurrences (ScreenProfile "__proto__") (log m1) = 1
  /\ occurrences (Screened "__proto__" false) (log m1) = 1
  /\ (skippedReason <$> state m1 !! "__proto__") = Some (Some "screening")
  /\ state_file m1 = ∅
  /\ occurrences (ScreenProfile "__proto__") (log m2) = 1.
Proof. vm_compute. repeat split. Qed.

(* --------------------------------------------------------------------- *)
(** ** Admissions within a run *)
(* --------------------------------------------------------------------- *)

Section Admissions.
Variable h : string.

Lemma unsettled_of_passed_check (m : Machine) (s : string) :
  admission_discipline h m ->
  match state m !! s with
  | Some c => sent c = false /\ is_screened_out c = false
  | None => True
  end ->
  s = h -> existsb (settles h) (log m) = false.
Proof.
  intros [_ Hk] Hs ->. destruct (existsb (settles h) (log m)) eqn:He; [|reflexivity].
  exfalso. eapply (check_passed_neq skipped_by_check h (fun r H => H) h (state m)); eauto.
Qed.

Lemma settles_Screened s b : settles h (Screened s b) = String.eqb s h && negb b.
Proof. unfold settles. simpl. destruct b; simpl; now rewrite ?andb_false_r, ?orb_false_r, ?andb_true_r. Qed.

Lemma settles_Sent s b : settles h (Sent s b) = String.eqb s h && b.
Proof. unfold settles. simpl. destruct b; simpl; now rewrite ?andb_false_r, ?andb_true_r. Qed.

Lemma settles_other e :
  match e with Screened _ _ | Sent _ _ => False | _ => True end ->
  settles h e = false.
Proof. destruct e; simpl; intros []; reflexivity. Qed.

Lemma ssc_cons e older :
  settled_stays_closed h (e :: older)
  = (match e with
     | OpenProfile s => if String.eqb s h then negb (existsb (settles h) older) else true
     | _ => true
     end) && settled_stays_closed h older.
Proof. destruct e; reflexivity. Qed.

Lemma existsb_settles_cons e older :
  existsb (settles h) (e :: older)
  = (match e with
     | Screened s b => String.eqb s h && negb b
     | Sent s b => String.eqb s h && b
     | _ => false
     end) || existsb (settles h) older.
Proof.
  cbn [existsb]. f_equal.
  destruct e; first [apply settles_Screened | apply settles_Sent
                    | apply settles_other; exact Logic.I].
Qed.

Ltac normalise_results :=
  repeat match goal with
         | Hp : negb _ = true |- _ => apply negb_true_iff in Hp
         | Hp : negb _ = false |- _ => apply negb_false_iff in Hp
         end;
  repeat match goal with
         | Hp : passes _ = _ |- _ => rewrite Hp in *; clear Hp
         | Hp : match send _ with _ => _ end = _ |- _ => rewrite Hp in *; clear Hp
         end.

Ltac adm_leaf m Hk :=
  try (simpl in *; congruence);
  normalise_results;
  try match goal with
      | Hl : state m !! ?s = Some ?c, H1 : sent ?c = false,
        H2 : is_screened_out ?c = false |- _ =>
          let Hu := fresh "Hu" in
          pose proof (unsettled_of_passed_check m s Hk) as Hu;
          rewrite Hl in Hu; specialize (Hu (conj H1 H2))
      | Hl : state m !! ?s = None |- _ =>
          let Hu := fresh "Hu" in
          pose proof (unsettled_of_passed_check m s Hk) as Hu;
          rewrite Hl in Hu; specialize (Hu Logic.I)
      | H1 : match state m !! ?s with Some _ => _ | None => false end = false,
        H2 : match state m !! ?s with Some _ => _ | None => false end = false |- _ =>
          let Hu := fresh "Hu" in
          assert (Hu : s = h -> existsb (settles h) (log m) = false)
            by (apply (unsettled_of_passed_check m s Hk);
                destruct (state m !! s); [split; assumption | exact Logic.I])
      end;
  let Hk1 := fresh "Hk1" in
  let Hk2 := fresh "Hk2" in
  destruct Hk as [Hk1 Hk2];
  unfold admission_discipline; machine_simpl;
  rewrite ?ssc_cons, ?existsb_settles_cons;
  try match goal with
      | |- context [String.eqb ?s h] =>
          destruct (String.eqb_spec s h) as [->|?];
          [ try match goal with
                | Hu : h = h -> existsb _ _ = false |- _ => rewrite (Hu eq_refl)
                end
          | ]
      end;
  cbn [orb andb negb];
  rewrite ?andb_false_r, ?orb_false_r;
  cbn [orb andb negb];
  (split; [assumption|]);
  let Hp := fresh "Hp" in
  intros Hp;
  first
    [ solve [auto]
    | discriminate Hp
    | solve [apply holds_insert_ne; auto]
    | solve [apply holds_alter; auto]
    | solve [eexists; split; [apply lookup_insert_eq|];
             unfold skipped_by_check; simpl; auto]
    | solve [eexists; split; [apply lookup_insert_eq|];
             left; simpl; rewrite ?orb_false_r in Hp; exact Hp] ].

Lemma process_post_admissions (cfg : Config) (env : CandidateEnv) (reelUrl : string) :
  preserves (admission_discipline h) (process_post cfg env reelUrl).
Proof.
  intros m Hk.
  unfold process_post, post_body, enter_post, process_profile.
  wp_exec; adm_leaf m Hk.
Qed.

Lemma igsearch_handle_admissions (cfg : Config) (env : CandidateEnv) (handle : string) :
  preserves (admission_discipline h) (igsearch_handle cfg env handle).
Proof.
  intros m Hk.
  unfold igsearch_handle.
  wp_exec; adm_leaf m Hk.
Qed.

Lemma send_creator_admissions (cfg : Config) (env : CandidateEnv) (ci : nat)
    (c : Creator) :
  preserves (admission_discipline h) (send_creator cfg env ci c).
Proof.
  intros m Hk. destruct c as [s url].
  unfold send_creator. cbn [c_handle c_reelUrl].
  wp_exec; adm_leaf m Hk.
Qed.

Lemma skipped_by_check_replied r : skipped_by_check r -> skipped_by_check (set_replied r).
Proof. exact id. Qed.

Lemma skipped_by_check_followedUp t r : skipped_by_check r -> skipped_by_check (set_followedUp t r).
Proof. exact id. Qed.

Lemma followup_creator_admissions (env : FollowEnv) (c : Creator) :
  preserves (admission_discipline h) (followup_creator env c).
Proof.
  intros m Hk.
  unfold followup_creator.
  wp_exec; destruct Hk as [Hk1 Hk2]; unfold admission_discipline; machine_simpl;
    rewrite ?ssc_cons, ?existsb_settles_cons; cbn [orb andb];
    (split; [assumption|]); intros Hp;
    first [ solve [auto]
          | apply holds_alter;
            auto using skipped_by_check_replied, skipped_by_check_followedUp ].
Qed.
Lemma admissions_frame (m m' : Machine) :
  state m' = state m -> proto_set m' = proto_set m ->
  state_file m' = state_file m -> log m' = log m ->
  admission_discipline h m -> admission_discipline h m'.
Proof. unfold admission_discipline. intros -> _ _ ->. exact id. Qed.

Lemma run_program_admissions (cfg : Config) (r : Run) :
  preserves (admission_discipline h) (run_program cfg r).
Proof.
  apply run_program_preserves.
  - exact admissions_frame.
  - intros m H. exact H.
  - apply process_post_admissions.
  - apply igsearch_handle_admissions.
  - apply send_creator_admissions.
  - apply followup_creator_admissions.
Qed.
End Admissions.

(** C3 (as amended): within a run, once the admission of a handle has been
    settled (screening rejected it, or its messages were delivered), no
    profile of that handle is opened again, from whichever post it is
    discovered.  After a failed dispatch the handle stays eligible. *)
Theorem settled_handle_not_readmitted (cfg : Config) (r : Run)
    (file : gmap string CreatorState) (h : string) :
  settled_stays_closed h (log (exec_run cfg r file)) = true.
Proof.
  assert (H0 : admission_discipline h (boot file)).
  { split; [reflexivity | discriminate]. }
  exact (proj1 (preserves_run _ _ _ (run_program_admissions h cfg r) H0)).
Qed.

(** The scenario of the specification with a delivered first message:
    the second post by the same author opens no second profile. *)
Example delivered_then_skipped :
  occurrences (OpenProfile "alice_grad")
    (log (exec_run plain_cfg (IGSearchRun (alice_search SendAll)) ∅)) = 1
  /\ (sent <$> state_file (exec_run plain_cfg (IGSearchRun (alice_search SendAll)) ∅)
                 !! "alice_grad") = Some true.
Proof. vm_compute. split; reflexivity. Qed.

(** [settled_stays_closed] does reject a log that opens a profile after
    the delivery (logs are newest first). *)
Example settled_then_opened_is_rejected :
  settled_stays_closed "alice_grad"
    [OpenProfile "alice_grad"; Sent "alice_grad" true; SendMessages "alice_grad";
     OpenProfile "alice_grad"] = false.
Proof. reflexivity. Qed.

(** C3 (as stated) fails: two posts of one suggestion both resolve to
    [alice_grad]; the first dispatch finds no Message button, so the record
    written has [sent = false] and no [skippedReason], nothing is pushed to
    [found], and the second post opens her profile again. *)
Lemma failed_dispatch_is_readmitted :
  opened_posts (log (exec_run plain_cfg (IGSearchRun (alice_search SendNoButton)) ∅))
  = ["https://www.instagram.com/p/A/"; "https://www.instagram.com/reel/B/"]
  /\ occurrences (OpenProfile "alice_grad")
       (log (exec_run plain_cfg (IGSearchRun (alice_search SendNoButton)) ∅)) = 2
  /\ occurrences (SendMessages "alice_grad")
       (log (exec_run plain_cfg (IGSearchRun (alice_search SendNoButton)) ∅)) = 2.
Proof. vm_compute. repeat split. Qed.


(* --------------------------------------------------------------------- *)
(** ** Reply detection and the follow-up sweep *)
(* --------------------------------------------------------------------- *)

Lemma checkReply_replied_iff (v : ThreadView) :
  rr_replied (checkReply_result v) = true
  <-> message_button v = true /\ exists n, message_rows v = Some n /\ 6 < n.
Proof.
  unfold checkReply_result.
  destruct (message_button v); [destruct (message_rows v) as [n|]|]; simpl.
  - rewrite Nat.ltb_lt. split.
    + intros H. split; [reflexivity|]. exists n. auto.
    + intros [_ (n' & [= <-] & H)]. exact H.
  - split; [discriminate|]. intros [_ (n & Hn & _)]. discriminate.
  - split; [discriminate|]. intros [Hb _]. discriminate.
Qed.

Lemma checkReply_error (v : ThreadView) :
  message_button v = false \/ message_rows v = None ->
  checkReply_result v = {| rr_replied := false; rr_error := true |}.
Proof.
  unfold checkReply_result. intros [H|H]; rewrite H; [reflexivity|].
  destruct (message_button v); reflexivity.
Qed.

Lemma checkReply_error_not_replied (v : ThreadView) :
  rr_error (checkReply_result v) = true -> rr_replied (checkReply_result v) = false.
Proof.
  unfold checkReply_result.
  destruct (message_button v); [destruct (message_rows v)|]; simpl; congruence.
Qed.

Lemma followup_error_unchanged (env : FollowEnv) (c : Creator) (m : Machine) :
  rr_error (checkReply_result (thread env)) = true ->
  let m' := (followup_creator env c m).2 in
  state m' = state m
  /\ (log m' = log m \/ log m' = CheckReply (c_handle c) :: log m).
Proof.
  intros Herr.
  pose proof (checkReply_error_not_replied _ Herr) as Hrep.
  apply (wp_run (followup_creator env c)
           (fun _ m' => state m' = state m
                        /\ (log m' = log m \/ log m' = CheckReply (c_handle c) :: log m))).
  unfold followup_creator.
  wp_exec; try congruence; try (rewrite Herr in *; simpl in *; congruence);
    split; auto.
Qed.

Lemma checkReply_rows (v : ThreadView) (n : nat) :
  message_button v = true -> message_rows v = Some n ->
  checkReply_result v = {| rr_replied := (6 <? n)%nat; rr_error := false |}.
Proof. unfold checkReply_result. intros -> ->. reflexivity. Qed.

(** C10 (as amended): [checkReply] reports a reply exactly when the Message
    button was found and the thread shows more than six rows; it reports
    [replied = false, error = true] when the button does not appear or
    reading the rows throws; a thread whose rows were read, however few
    (none included), is reported without an error, with
    [replied = (rows.length > 6)]; and when an error is reported the
    iteration of the sweep changes no record and submits no follow-up. *)
Theorem reply_detection_threshold :
  (forall v,
      rr_replied (checkReply_result v) = true
      <-> message_button v = true /\ exists n, message_rows v = Some n /\ 6 < n)
  /\ (forall v,
         message_button v = false \/ message_rows v = None ->
         checkReply_result v = {| rr_replied := false; rr_error := true |})
  /\ (forall v n,
         message_button v = true -> message_rows v = Some n ->
         checkReply_result v
         = {| rr_replied := (6 <? n)%nat; rr_error := false |})
  /\ (forall env c m,
         rr_error (checkReply_result (thread env)) = true ->
         let m' := (followup_creator env c m).2 in
         state m' = state m
         /\ (log m' = log m \/ log m' = CheckReply (c_handle c) :: log m)).
Proof.
  split; [exact checkReply_replied_iff|].
  split; [exact checkReply_error|].
  split; [exact checkReply_rows | exact followup_error_unchanged].
Qed.

Lemma reply_detection_threshold_witness :
  rr_replied (checkReply_result (rows 7)) = true
  /\ checkReply_result {| message_button := false; message_rows := Some 9 |}
     = {| rr_replied := false; rr_error := true |}
  /\ checkReply_result (rows 0) = {| rr_replied := false; rr_error := false |}
  /\ state (followup_creator
              (sweep_env {| message_button := true; message_rows := None |} 5)
              alice_creator (boot sent_file)).2
     = state (boot sent_file).
Proof.
  destruct reply_detection_threshold as (H1 & H2 & H3 & H4).
  split; [|split; [|split]].
  - apply H1. split; [reflexivity|]. exists 7. split; [reflexivity | lia].
  - apply H2. left. reflexivity.
  - apply (H3 (rows 0) 0); reflexivity.
  - apply (H4 (sweep_env {| message_button := true; message_rows := None |} 5)
              alice_creator (boot sent_file)). reflexivity.
Defined.

(** C10 (as stated) fails on a thread in which no row is found: [all()]
    returns the empty list, [checkReply] reports no error, and the sweep,
    five days after the messages, submits the follow-up and marks the
    record. *)
Lemma empty_thread_is_followed_up :
  let m := boot sent_file in
  let m' := (followup_creator (sweep_env (rows 0) 5) alice_creator m).2 in
  message_rows (rows 0) = Some 0
  /\ checkReply_result (rows 0) <> {| rr_replied := false; rr_error := true |}
  /\ (followedUp <$> state m !! "alice_grad") = Some false
  /\ (followedUp <$> state m' !! "alice_grad") = Some true
  /\ occurrences (FollowUp "alice_grad") (log m') = 1.
Proof.
  split; [reflexivity|]. split; [discriminate|]. vm_compute. repeat split.
Qed.

Ltac same_entry :=
  repeat match goal with
         | H : Some ?a = Some ?b |- _ =>
             first [injection H as -> | injection H as <-]
         | H : Some _ = None |- _ => discriminate H
         | H : None = Some _ |- _ => discriminate H
         end.

(** A sent record within the window and without a detected reply is left
    as it is. *)
Lemma followup_young_unchanged (env : FollowEnv) (c : Creator) (m : Machine)
    (s : CreatorState) (t : Z) :
  state m !! c_handle c = Some s ->
  sent s = true ->
  sentAt s = Some t ->
  rr_replied (checkReply_result (thread env)) = false ->
  (date_now env - t < followup_window)%Z ->
  let m' := (followup_creator env c m).2 in
  state m' = state m
  /\ (log m' = log m \/ log m' = CheckReply (c_handle c) :: log m).
Proof.
  intros Hs Hsent Hat Hrep Hyoung.
  apply (wp_run (followup_creator env c)
           (fun _ m' => state m' = state m
                        /\ (log m' = log m \/ log m' = CheckReply (c_handle c) :: log m))).
  unfold followup_creator.
  wp_exec; same_entry; try congruence; try (split; auto; fail);
    try (rewrite Hsent in *; simpl in *; congruence).
  all: match goal with
       | H : (_ <? _)%Z = false |- _ =>
           apply Z.ltb_ge in H; unfold sent_time in H; rewrite Hat in H; lia
       end.
Qed.

(** A due record is followed up when the follow-up can be submitted. *)
Lemma followup_due_transitions (env : FollowEnv) (c : Creator) (m : Machine)
    (s : CreatorState) :
  state m !! c_handle c = Some s ->
  sent s = true ->
  followedUp s = false ->
  checkReply_result (thread env) = {| rr_replied := false; rr_error := false |} ->
  (followup_window <= date_now env - sent_time s)%Z ->
  followup env = FollowupSubmitted ->
  f_raises env BrowseFeed = false ->
  f_raises env SearchAndOpen = false ->
  let m' := (followup_creator env c m).2 in
  state m' !! c_handle c = Some (set_followedUp (followup_done_at env) s)
  /\ occurrences (FollowUp (c_handle c)) (log m')
     = S (occurrences (FollowUp (c_handle c)) (log m)).
Proof.
  intros Hs Hsent Hfu Hres Hdue Hsub Hb Ho.
  apply (wp_run (followup_creator env c)
           (fun _ m' =>
              state m' !! c_handle c = Some (set_followedUp (followup_done_at env) s)
              /\ occurrences (FollowUp (c_handle c)) (log m')
                 = S (occurrences (FollowUp (c_handle c)) (log m)))).
  unfold followup_creator.
  wp_exec; same_entry; try congruence;
    try (rewrite ?Hres, ?Hsent, ?Hfu in *; simpl in *; congruence);
    try match goal with
        | H : (_ <? _)%Z = true |- _ => apply Z.ltb_lt in H; lia
        end.
  all: split;
    [rewrite lookup_alter_eq;
     match goal with H : state _ !! _ = Some _ |- _ => rewrite H end;
     reflexivity|].
  all: cbn [occurrences event_eqb]; rewrite String.eqb_refl; reflexivity.
Qed.

Section FollowupBudget.
Variable h : string.

Lemma budget_alter_replied (s : string) (store : gmap string CreatorState) :
  followup_budget h (alter set_replied s store) = followup_budget h store.
Proof.
  unfold followup_budget. destruct (decide (s = h)) as [->|Hne].
  - rewrite lookup_alter_eq. destruct (store !! h); reflexivity.
  - rewrite lookup_alter_ne by exact Hne. reflexivity.
Qed.

Lemma budget_alter_followedUp_ne (t : Z) (s : string)
    (store : gmap string CreatorState) :
  s ≠ h ->
  followup_budget h (alter (set_followedUp t) s store) = followup_budget h store.
Proof.
  intros Hne. unfold followup_budget. rewrite lookup_alter_ne by exact Hne.
  reflexivity.
Qed.

Lemma budget_alter_followedUp_eq (t : Z) (r : CreatorState)
    (store : gmap string CreatorState) :
  store !! h = Some r -> followedUp r = false ->
  followup_budget h store = 1
  /\ followup_budget h (alter (set_followedUp t) h store) = 0.
Proof.
  intros Hr Hf. unfold followup_budget.
  rewrite lookup_alter_eq, Hr. simpl. rewrite Hf. auto.
Qed.

Lemma occurrences_FollowUp_other (e : Event) (l : list Event) :
  match e with FollowUp _ => False | _ => True end ->
  occurrences (FollowUp h) (e :: l) = occurrences (FollowUp h) l.
Proof. destruct e; simpl; intros []; reflexivity. Qed.

Lemma followup_creator_bounded (n : nat) (env : FollowEnv) (c : Creator) :
  preserves (followups_bounded h n) (followup_creator env c).
Proof.
  intros m Hb. destruct c as [s url].
  unfold followup_creator. cbn [c_handle c_reelUrl].
  wp_exec; unfold followups_bounded in *; machine_simpl;
    rewrite ?budget_alter_replied;
    rewrite ?occurrences_FollowUp_other by exact Logic.I;
    try assumption.
  all: match goal with
       | Hc : negb _ && negb (followedUp _) = true |- _ =>
           apply andb_true_iff in Hc as [_ Hc]; apply negb_true_iff in Hc
       end.
  all: destruct (decide (s = h)) as [->|Hne];
    [ match goal with
      | Hl : state _ !! h = Some ?r, Hf : followedUp ?r = false |- _ =>
          destruct (budget_alter_followedUp_eq (followup_done_at env) _ _ Hl Hf)
            as [Hb1 Hb0]
      end;
      rewrite Hb0; rewrite Hb1 in Hb;
      cbn [occurrences event_eqb]; rewrite String.eqb_refl;
      rewrite ?occurrences_FollowUp_other by exact Logic.I; lia
    | rewrite budget_alter_followedUp_ne by exact Hne;
      cbn [occurrences event_eqb];
      rewrite (proj2 (String.eqb_neq h s)) by congruence;
      rewrite ?occurrences_FollowUp_other by exact Logic.I; exact Hb ].
Qed.

Lemma followups_bounded_frame (n : nat) (m m' : Machine) :
  state m' = state m -> proto_set m' = proto_set m ->
  state_file m' = state_file m -> log m' = log m ->
  followups_bounded h n m -> followups_bounded h n m'.
Proof. unfold followups_bounded. intros -> _ _ ->. exact id. Qed.

Lemma runFollowup_bounded (n : nat) (env : FollowupEnv) :
  preserves (followups_bounded h n) (runFollowup env).
Proof.
  apply runFollowup_preserves.
  - apply followups_bounded_frame.
  - intros m H. exact H.
  - apply followup_creator_bounded.
Qed.

(** In one sweep [h] is followed up at most once, and not at all when
    its record already says [followedUp]. *)
Lemma sweep_follows_up_once (env : FollowupEnv) (file : gmap string CreatorState) :
  occurrences (FollowUp h) (log (runFollowup env (boot file)).2)
  <= followup_budget h file.
Proof.
  pose proof (preserves_run _ _ (boot file)
                (runFollowup_bounded (followup_budget h file) env)) as H.
  unfold followups_bounded in H. simpl in H. specialize (H (le_n _)). lia.
Qed.
End FollowupBudget.

(** C5: in the follow-up sweep, (1) a sent record with no reply detected
    and less than three days since [sentAt] is left unchanged and nothing
    is submitted to it; (2) in one sweep a handle is followed up at most
    once, and never when its record already has [followedUp = true];
    (3) a sent record, not yet followed up, with no reply and no error and
    at least three days since [sentAt], becomes [followedUp] when the
    follow-up is submitted. *)
Theorem followup_gating :
  (forall env c m s t,
      state m !! c_handle c = Some s ->
      sent s = true ->
      sentAt s = Some t ->
      rr_replied (checkReply_result (thread env)) = false ->
      (date_now env - t < followup_window)%Z ->
      let m' := (followup_creator env c m).2 in
      state m' = state m
      /\ (log m' = log m \/ log m' = CheckReply (c_handle c) :: log m))
  /\ (forall env file h,
         occurrences (FollowUp h) (log (runFollowup env (boot file)).2) <= 1
         /\ (forall s, file !! h = Some s -> followedUp s = true ->
                       occurrences (FollowUp h) (log (runFollowup env (boot file)).2) = 0))
  /\ (forall env c m s,
         state m !! c_handle c = Some s ->
         sent s = true ->
         followedUp s = false ->
         checkReply_result (thread env) = {| rr_replied := false; rr_error := false |} ->
         (followup_window <= date_now env - sent_time s)%Z ->
         followup env = FollowupSubmitted ->
         f_raises env BrowseFeed = false ->
         f_raises env SearchAndOpen = false ->
         let m' := (followup_creator env c m).2 in
         state m' !! c_handle c = Some (set_followedUp (followup_done_at env) s)
         /\ occurrences (FollowUp (c_handle c)) (log m')
            = S (occurrences (FollowUp (c_handle c)) (log m))).
Proof.
  split; [exact followup_young_unchanged|].
  split; [|exact followup_due_transitions].
  intros env file h.
  pose proof (sweep_follows_up_once h env file) as H.
  split.
  - unfold followup_budget in H. destruct (file !! h) as [s|]; [|exact H].
    destruct (followedUp s); lia.
  - intros s Hs Hf. unfold followup_budget in H. rewrite Hs, Hf in H. lia.
Qed.

Lemma followup_gating_witness :
  state (followup_creator (sweep_env (rows 4) 1) alice_creator (boot sent_file)).2
  = state (boot sent_file)
  /\ occurrences (FollowUp "alice_grad")
       (log (runFollowup (alice_sweep (rows 4) 5) (boot sent_file)).2) <= 1
  /\ occurrences (FollowUp "alice_grad")
       (log (followup_creator (sweep_env (rows 4) 5) alice_creator (boot sent_file)).2)
     = 1.
Proof.
  destruct followup_gating as (H1 & H2 & H3).
  split; [|split].
  - apply (H1 (sweep_env (rows 4) 1) alice_creator (boot sent_file)
              (send_record true 1699000000000 post_a (Some "ig")) 1699000000000%Z);
      reflexivity.
  - apply (H2 (alice_sweep (rows 4) 5) sent_file "alice_grad").
  - apply (H3 (sweep_env (rows 4) 5) alice_creator (boot sent_file)
              (send_record true 1699000000000 post_a (Some "ig")));
      try reflexivity.
    vm_compute. discriminate.
Defined.

(* --------------------------------------------------------------------- *)
(** ** Where [replied] and [followedUp] come from *)
(* --------------------------------------------------------------------- *)

Ltac fresh_record_leaf :=
  let Hm' := fresh "Hm" in
  let Hmark := fresh "Hmark" in
  intros Hm' Hmark; try exact Hm';
  match type of Hm' with
  | <[?k:=_]> _ !! ?h = _ =>
      destruct (decide (k = h)) as [->|?];
      [ rewrite lookup_insert_eq in Hm'; injection Hm' as <-;
        simpl in Hmark; destruct Hmark; discriminate
      | rewrite lookup_insert_ne in Hm' by assumption; exact Hm' ]
  end.

(** The sending loops write records with [replied = false] and
    [followedUp = false]: a record that has one of the marks after an
    iteration is the record that was there before. *)
Lemma send_steps_never_mark (cfg : Config) (env : CandidateEnv) (m : Machine)
    (h : string) (s' : CreatorState) :
  (forall reelUrl,
      state (process_post cfg env reelUrl m).2 !! h = Some s' ->
      replied s' = true \/ followedUp s' = true -> state m !! h = Some s')
  /\ (forall handle,
         state (igsearch_handle cfg env handle m).2 !! h = Some s' ->
         replied s' = true \/ followedUp s' = true -> state m !! h = Some s')
  /\ (forall ci c,
         state (send_creator cfg env ci c m).2 !! h = Some s' ->
         replied s' = true \/ followedUp s' = true -> state m !! h = Some s').
Proof.
  split; [|split].
  - intros reelUrl.
    apply (wp_run (process_post cfg env reelUrl)
             (fun _ m' => state m' !! h = Some s' ->
                          replied s' = true \/ followedUp s' = true ->
                          state m !! h = Some s')).
    unfold process_post, post_body, enter_post, process_profile.
    wp_exec; fresh_record_leaf.
  - intros handle.
    apply (wp_run (igsearch_handle cfg env handle)
             (fun _ m' => state m' !! h = Some s' ->
                          replied s' = true \/ followedUp s' = true ->
                          state m !! h = Some s')).
    unfold igsearch_handle.
    wp_exec; fresh_record_leaf.
  - intros ci c.
    apply (wp_run (send_creator cfg env ci c)
             (fun _ m' => state m' !! h = Some s' ->
                          replied s' = true \/ followedUp s' = true ->
                          state m !! h = Some s')).
    destruct c as [k url]. unfold send_creator. cbn [c_handle c_reelUrl].
    wp_exec; fresh_record_leaf.
Qed.

(** C9 (as amended): a record acquires [replied = true] or
    [followedUp = true] only in the follow-up sweep and only if it has
    [sent = true]; [followedUp] is acquired only once three days have
    passed since [sentAt]; [replied] is recorded whenever a reply is
    detected.  The sending loops never set either mark. *)
Theorem marks_only_from_sent :
  (forall env c m h s',
      state (followup_creator env c m).2 !! h = Some s' ->
      exists s,
        state m !! h = Some s
        /\ (replied s' = true -> replied s = true \/ sent s = true)
        /\ (followedUp s' = true ->
            followedUp s = true
            \/ (sent s = true
                /\ (followup_window <= date_now env - sent_time s)%Z)))
  /\ (forall cfg env m h s',
         (forall reelUrl,
             state (process_post cfg env reelUrl m).2 !! h = Some s' ->
             replied s' = true \/ followedUp s' = true -> state m !! h = Some s')
         /\ (forall handle,
                state (igsearch_handle cfg env handle m).2 !! h = Some s' ->
                replied s' = true \/ followedUp s' = true -> state m !! h = Some s')
         /\ (forall ci c,
                state (send_creator cfg env ci c m).2 !! h = Some s' ->
                replied s' = true \/ followedUp s' = true -> state m !! h = Some s')).
Proof.
  split; [|exact send_steps_never_mark].
  intros env c m h s'.
  apply (wp_run (followup_creator env c)
           (fun _ m' =>
              state m' !! h = Some s' ->
              exists s,
                state m !! h = Some s
                /\ (replied s' = true -> replied s = true \/ sent s = true)
                /\ (followedUp s' = true ->
                    followedUp s = true
                    \/ (sent s = true
                        /\ (followup_window <= date_now env - sent_time s)%Z)))).
  destruct c as [k url]. unfold followup_creator. cbn [c_handle c_reelUrl].
  wp_exec; intros Hm';
    try (exists s'; split; [exact Hm' | split; auto]; fail);
    repeat match goal with
           | Hn : negb _ = false |- _ => apply negb_false_iff in Hn
           | Hz : (_ <? _)%Z = false |- _ => apply Z.ltb_ge in Hz
           end;
    (destruct (decide (k = h)) as [->|Hne];
     [ rewrite lookup_alter_eq in Hm';
       match goal with
       | Hl : state m !! h = Some ?r |- _ =>
           rewrite Hl in Hm'; injection Hm' as <-; exists r
       end; split; [assumption|]; simpl; split; auto
     | rewrite lookup_alter_ne in Hm' by exact Hne;
       exists s'; split; [exact Hm' | split; auto] ]).
Qed.

Lemma marks_only_from_sent_witness :
  exists s,
    state (boot sent_file) !! "alice_grad" = Some s
    /\ (followedUp (set_followedUp 1699432060000 (send_record true 1699000000000 post_a (Some "ig"))) = true ->
        followedUp s = true
        \/ (sent s = true
            /\ (followup_window
                <= date_now (sweep_env (rows 4) 5) - sent_time s)%Z)).
Proof.
  destruct marks_only_from_sent as [H1 _].
  destruct (H1 (sweep_env (rows 4) 5) alice_creator (boot sent_file) "alice_grad"
               (set_followedUp 1699432060000
                  (send_record true 1699000000000 post_a (Some "ig"))))
    as (s & Hs & _ & Hf).
  - vm_compute. reflexivity.
  - exists s. split; [exact Hs | exact Hf].
Defined.

(** C9 (as stated) fails for [replied]: a reply detected one day after
    [sentAt] is recorded at once; the three-day test sits in the branch
    that sends the follow-up only. *)
Lemma reply_recorded_within_window :
  (date_now (sweep_env (rows 7) 1) - 1699000000000 < followup_window)%Z
  /\ (replied <$> sent_file !! "alice_grad") = Some false
  /\ (replied <$> state (followup_creator (sweep_env (rows 7) 1) alice_creator
                           (boot sent_file)).2 !! "alice_grad") = Some true
  /\ (sentAt <$> sent_file !! "alice_grad") = Some (Some 1699000000000%Z).
Proof. vm_compute. repeat split. Qed.

(* ===================================================================== *)
(** * Further properties *)
(* ===================================================================== *)

(* --------------------------------------------------------------------- *)
(** ** The shape of an extracted handle *)
(* --------------------------------------------------------------------- *)

Lemma all_chars_take_while (p : ascii -> bool) (s : string) :
  all_chars p (take_while p s) = true.
Proof.
  induction s as [|c t IH]; simpl; [reflexivity|].
  destruct (p c) eqn:Hc; simpl; [rewrite Hc; exact IH | reflexivity].
Qed.

Lemma all_chars_take_string (p : ascii -> bool) (n : nat) (s : string) :
  all_chars p s = true -> all_chars p (take_string n s) = true.
Proof.
  revert s. induction n as [|n IH]; intros [|c t]; simpl; try reflexivity.
  intros H. apply andb_true_iff in H as [Hc Ht]. rewrite Hc. simpl. apply IH, Ht.
Qed.

Lemma length_take_string (n : nat) (s : string) :
  String.length (take_string n s) = Nat.min n (String.length s).
Proof.
  revert s. induction n as [|n IH]; intros [|c t]; simpl; try reflexivity.
  now rewrite IH.
Qed.

Lemma capture_handle_valid (s h rest : string) :
  capture_handle s = Some (h, rest) ->
  valid_handle h /\ h = take_while is_handle_char s
  /\ rest = drop_while is_handle_char s.
Proof.
  unfold capture_handle.
  destruct (_ && _) eqn:Hb; [|discriminate]. intros [= <- <-].
  apply andb_true_iff in Hb as [H1 H2].
  apply Nat.leb_le in H1, H2.
  split; [|split; reflexivity].
  split; [split; assumption | apply all_chars_take_while].
Qed.

Lemma match_profile_path_valid (href h : string) :
  match_profile_path href = Some h -> valid_handle h.
Proof.
  unfold match_profile_path. destruct href as [|c s]; [discriminate|].
  destruct (Ascii.eqb_spec c "/"%char) as [->|Hne].
  - destruct (capture_handle s) as [[h' rest]|] eqn:Hc; [|discriminate].
    destruct (_ || _); [|discriminate]. intros [= <-].
    apply (capture_handle_valid _ _ _ Hc).
  - destruct c as [[] [] [] [] [] [] [] []]; try discriminate; congruence.
Qed.

Lemma match_mention_valid (s h : string) :
  match_mention s = Some h -> valid_handle h.
Proof.
  induction s as [|c t IH]; cbn [match_mention]; [discriminate|].
  destruct (Ascii.eqb c "@"%char); [|exact IH].
  cbv zeta.
  destruct (Nat.leb 1 (String.length (take_while is_handle_char t))) eqn:Hl;
    [|exact IH].
  intros H.
  replace h with (take_string 30 (take_while is_handle_char t)) by congruence.
  clear H IH. apply Nat.leb_le in Hl.
  split.
  - rewrite length_take_string. lia.
  - apply all_chars_take_string, all_chars_take_while.
Qed.

Lemma match_on_instagram_valid (s h : string) :
  match_on_instagram s = Some h -> valid_handle h.
Proof.
  unfold match_on_instagram.
  destruct (capture_handle s) as [[h' rest]|] eqn:Hc; [|discriminate].
  destruct (skip_spaces1 rest) as [r1|]; [|discriminate].
  destruct (startsWith_ci r1 "on"); [|discriminate].
  destruct (skip_spaces1 _) as [r2|]; [|discriminate].
  destruct (startsWith_ci r2 "Instagram"); [|discriminate].
  intros [= <-]. apply (capture_handle_valid _ _ _ Hc).
Qed.

Lemma match_url_owner_valid (s h : string) :
  match_url_owner s = Some h -> valid_handle h.
Proof.
  assert (Hhere : forall s, match_url_owner_here s = Some h -> valid_handle h).
  { intros s0. unfold match_url_owner_here.
    destruct (startsWith s0 "instagram.com/"); [|discriminate].
    destruct (capture_handle _) as [[h' rest]|] eqn:Hc; [|discriminate].
    destruct (_ || _); [|discriminate]. intros [= <-].
    apply (capture_handle_valid _ _ _ Hc). }
  induction s as [|c t IH]; cbn [match_url_owner].
  - destruct (match_url_owner_here "") eqn:He; [|discriminate].
    intros [= <-]. apply (Hhere _ He).
  - destruct (match_url_owner_here (String c t)) eqn:He.
    + intros [= <-]. apply (Hhere _ He).
    + exact IH.
Qed.

Lemma title_patterns_valid (t h : string) :
  title_patterns t = Some h -> valid_handle h.
Proof.
  unfold title_patterns. destruct (match_mention t) eqn:Hm.
  - intros [= <-]. apply (match_mention_valid _ _ Hm).
  - apply match_on_instagram_valid.
Qed.

(** X1: whichever strategy finds it, the handle extracted from a post page
    is one to thirty characters of [[a-zA-Z0-9._]]; it can be put into the
    profile URL as it is. *)
Theorem extracted_handle_is_valid (t1 t2 t3 : bool) (pg : PostPage) (h : string) :
  extract_handle t1 t2 t3 pg = Some h -> valid_handle h.
Proof.
  unfold extract_handle.
  assert (H1 : forall h, strategy_links pg = Some h -> valid_handle h).
  { intros h0. unfold strategy_links. set (allLinks := filter _ _).
    assert (Hp : forall a, profile_link a = Some h0 -> valid_handle h0).
    { intros a. unfold profile_link.
      destruct (match_profile_path (href a)) as [h'|] eqn:Hm; [|discriminate].
      destruct (skipPages_has h'); [discriminate|]. intros [= <-].
      apply (match_profile_path_valid _ _ Hm). }
    destruct (first_some labelled_profile_link allLinks) as [h'|] eqn:Hf.
    - intros [= <-]. apply first_some_inv in Hf as (a & _ & Ha).
      unfold labelled_profile_link in Ha.
      destruct (profile_link a) as [h''|] eqn:Hpl; [|discriminate].
      destruct (span_text a) as [t|]; [|discriminate].
      destruct (String.eqb (trim t) h''); [|discriminate].
      injection Ha as <-. apply (Hp a Hpl).
    - intros Hf2. apply first_some_inv in Hf2 as (a & _ & Ha). apply (Hp a Ha). }
  assert (H2 : forall h, strategy_meta pg = Some h -> valid_handle h).
  { intros h0. unfold strategy_meta.
    destruct (og_title pg) as [content|].
    - destruct (title_patterns content) eqn:Ht.
      + intros [= <-]. apply (title_patterns_valid _ _ Ht).
      + apply title_patterns_valid.
    - apply title_patterns_valid. }
  assert (H3 : forall h, strategy_url pg = Some h -> valid_handle h).
  { intros h0. apply match_url_owner_valid. }
  destruct t1, t2, t3; cbv beta iota zeta;
    destruct (strategy_links pg) eqn:E1; destruct (strategy_meta pg) eqn:E2;
    destruct (strategy_url pg) eqn:E3; cbv beta iota;
    intros Hh; try discriminate; injection Hh as <-;
    first [apply H1; reflexivity | apply H2; reflexivity | apply H3; reflexivity].
Qed.

Lemma extracted_handle_is_valid_witness : valid_handle "explore".
Proof.
  apply (extracted_handle_is_valid false false false mention_page "explore").
  reflexivity.
Defined.

Lemma append_cons (c : ascii) (a b : string) :
  String c a +:+ b = String c (a +:+ b).
Proof. reflexivity. Qed.

Lemma append_nil_l (b : string) : "" +:+ b = b.
Proof. reflexivity. Qed.

Lemma append_nil_r (a : string) : a +:+ "" = a.
Proof. induction a as [|c t IH]; [reflexivity|]. now rewrite append_cons, IH. Qed.

Lemma take_drop_while (p : ascii -> bool) (s : string) :
  take_while p s +:+ drop_while p s = s.
Proof.
  induction s as [|c t IH]; cbn [take_while drop_while]; [reflexivity|].
  destruct (p c); [rewrite append_cons, IH|]; reflexivity.
Qed.

Lemma take_while_app (p : ascii -> bool) (h rest : string) :
  all_chars p h = true ->
  match rest with EmptyString => True | String c _ => p c = false end ->
  take_while p (h +:+ rest) = h /\ drop_while p (h +:+ rest) = rest.
Proof.
  intros Hh Hrest. induction h as [|c t IH].
  - rewrite append_nil_l.
    destruct rest as [|c r]; cbn [take_while drop_while]; [auto|].
    rewrite Hrest. auto.
  - cbn [all_chars] in Hh. apply andb_true_iff in Hh as [Hc Ht].
    rewrite append_cons. cbn [take_while drop_while].
    rewrite Hc. destruct (IH Ht) as [-> ->]. auto.
Qed.

(** X2: the pattern for a profile link accepts exactly the paths [/h] and
    [/h/] whose [h] is one to thirty handle characters, and returns that
    [h]. *)
Theorem profile_path_roundtrip (href h : string) :
  match_profile_path href = Some h
  <-> valid_handle h /\ (href = "/" +:+ h \/ href = "/" +:+ h +:+ "/").
Proof.
  split.
  - intros Hm. split; [apply (match_profile_path_valid _ _ Hm)|].
    unfold match_profile_path in Hm. destruct href as [|c s]; [discriminate|].
    destruct (Ascii.eqb_spec c "/"%char) as [->|Hne].
    + destruct (capture_handle s) as [[h' rest]|] eqn:Hc; [|discriminate].
      destruct (capture_handle_valid _ _ _ Hc) as (_ & Hh & Hr).
      pose proof (take_drop_while is_handle_char s) as Hs.
      rewrite <- Hh, <- Hr in Hs.
      destruct (String.eqb_spec rest "") as [->|_].
      * injection Hm as <-. left. rewrite append_cons, append_nil_l.
        rewrite append_nil_r in Hs. now rewrite Hs.
      * destruct (String.eqb_spec rest "/") as [->|_]; [|discriminate].
        injection Hm as <-. right. rewrite append_cons, append_nil_l.
        now rewrite Hs.
    + destruct c as [[] [] [] [] [] [] [] []]; try discriminate; congruence.
  - intros [[Hlen Hall] Hhref].
    assert (Hgo : forall rest,
               rest = "" \/ rest = "/" ->
               match_profile_path ("/" +:+ h +:+ rest) = Some h).
    { intros rest Hrest. rewrite append_cons, append_nil_l.
      cbn [match_profile_path]. unfold capture_handle.
      destruct (take_while_app is_handle_char h rest Hall) as [Ht Hd].
      { destruct Hrest as [-> | ->]; [exact Logic.I | reflexivity]. }
      rewrite Ht, Hd.
      destruct Hlen as [Hl1 Hl2].
      apply Nat.leb_le in Hl1, Hl2. rewrite Hl1, Hl2.
      destruct Hrest as [-> | ->]; reflexivity. }
    destruct Hhref as [-> | ->].
    + rewrite <- (append_nil_r h) at 1. apply Hgo. left. reflexivity.
    + apply Hgo. right. reflexivity.
Qed.

Lemma profile_path_roundtrip_witness :
  match_profile_path "/alice_grad/" = Some "alice_grad".
Proof.
  apply (profile_path_roundtrip "/alice_grad/" "alice_grad").
  split; [|right; reflexivity].
  split; [simpl; lia | reflexivity].
Defined.

(* --------------------------------------------------------------------- *)
(** ** Screening answers *)
(* --------------------------------------------------------------------- *)

Lemma lower_upper_char (c : ascii) : lower_char (upper_char c) = lower_char c.
Proof. destruct c as [[] [] [] [] [] [] [] []]; reflexivity. Qed.

Lemma lower_of_ci_prefix (p s : string) :
  startsWith_ci s p = true ->
  toLowerCase (take_string (String.length p) s) = toLowerCase p.
Proof.
  unfold startsWith_ci, toLowerCase, toUpperCase.
  revert s. induction p as [|a p IH]; intros s; [reflexivity|].
  destruct s as [|b s]; simpl; [discriminate|].
  destruct (ascii_dec (upper_char a) (upper_char b)) as [Hab|]; [|discriminate].
  intros H. rewrite (IH _ H). f_equal.
  rewrite <- (lower_upper_char a), <- (lower_upper_char b). congruence.
Qed.

Lemma match_gender_word_lower (s g : string) :
  match_gender_word s = Some g -> toLowerCase g ∈ genders.
Proof.
  unfold match_gender_word, genders.
  destruct (startsWith_ci s "male") eqn:H1.
  { intros Hg. replace g with (take_string 4 s) by congruence.
    replace (toLowerCase (take_string 4 s)) with "male"
      by (symmetry; exact (lower_of_ci_prefix "male" s H1)).
    rewrite !elem_of_cons; auto. }
  destruct (startsWith_ci s "female") eqn:H2.
  { intros Hg. replace g with (take_string 6 s) by congruence.
    replace (toLowerCase (take_string 6 s)) with "female"
      by (symmetry; exact (lower_of_ci_prefix "female" s H2)).
    rewrite !elem_of_cons; auto. }
  destruct (startsWith_ci s "unknown") eqn:H3; [|discriminate].
  intros Hg. replace g with (take_string 7 s) by congruence.
    replace (toLowerCase (take_string 7 s)) with "unknown"
      by (symmetry; exact (lower_of_ci_prefix "unknown" s H3)).
    rewrite !elem_of_cons; auto.
Qed.

Lemma match_gender_lower (s g : string) :
  match_gender s = Some g -> toLowerCase g ∈ genders.
Proof.
  induction s as [|c t IH]; cbn [match_gender].
  - destruct (startsWith_ci "" "GENDER:"); [|discriminate].
    destruct (match_gender_word _) eqn:Hw; [|discriminate].
    intros [= <-]. apply (match_gender_word_lower _ _ Hw).
  - destruct (startsWith_ci (String c t) "GENDER:").
    + destruct (match_gender_word _) eqn:Hw.
      * intros [= <-]. apply (match_gender_word_lower _ _ Hw).
      * exact IH.
    + exact IH.
Qed.

(** X3: whatever the provider answers and however the request ends, the
    gender that [screenProfile] hands to the greeting is one of "male",
    "female", "unknown", in lower case. *)
Theorem screening_gender_is_known (r : FetchOutcome) :
  gender (screen_response r) ∈ genders.
Proof.
  assert (Hpass : gender screen_pass ∈ genders) by (unfold genders; rewrite !elem_of_cons; auto).
  assert (Hparse : forall a, gender (parse_answer a) ∈ genders).
  { intros a. unfold parse_answer. cbn [gender].
    destruct (match_gender a) as [g|] eqn:Hg.
    - apply (match_gender_lower _ _ Hg).
    - unfold genders. rewrite !elem_of_cons; auto. }
  destruct r as [|status [data|]]; cbn [screen_response]; try exact Hpass.
  destruct (response_answer data); [apply Hparse | exact Hpass].
Qed.

(* --------------------------------------------------------------------- *)
(** ** The URLs of the search expansion *)
(* --------------------------------------------------------------------- *)

Lemma hex_digit_unreserved (n : N) : (n < 16)%N -> uri_unreserved (hex_digit n) = true.
Proof.
  intros H.
  assert (Hn : In n [0; 1; 2; 3; 4; 5; 6; 7; 8; 9; 10; 11; 12; 13; 14; 15]%N).
  { simpl. lia. }
  simpl in Hn.
  repeat (destruct Hn as [<- | Hn]; [reflexivity|]). destruct Hn.
Qed.

(** X4: [encodeURIComponent] yields only unreserved characters and percent
    escapes; the fallback search URL built from a query therefore carries
    the query in its [q] parameter and nothing else. *)
Theorem encodeURIComponent_safe (s : string) :
  all_chars uri_safe (encodeURIComponent s) = true.
Proof.
  induction s as [|c t IH]; cbn [encodeURIComponent all_chars]; [reflexivity|].
  destruct (uri_unreserved c) eqn:Hc; cbn [all_chars].
  - unfold uri_safe at 1. rewrite Hc, IH. reflexivity.
  - assert (H1 : (N_of_ascii c / 16 < 16)%N).
    { pose proof (N_ascii_bounded c). apply N.Div0.div_lt_upper_bound. lia. }
    assert (H2 : (N_of_ascii c mod 16 < 16)%N) by (apply N.mod_lt; lia).
    unfold uri_safe at 1 2 3.
    rewrite (hex_digit_unreserved _ H1), (hex_digit_unreserved _ H2), IH.
    reflexivity.
Qed.

Lemma absolute_url_http (href : string) : startsWith (absolute_url href) "http" = true.
Proof.
  unfold absolute_url. destruct (startsWith href "http") eqn:H; [exact H|].
  reflexivity.
Qed.

Lemma read_suggestions_http (links : list AttrRead) (acc : list string) :
  Forall (fun u => startsWith u "http" = true) acc ->
  Forall (fun u => startsWith u "http" = true) (read_suggestions links acc).
Proof.
  revert acc. induction links as [|r links IH]; intros acc Hacc; simpl; [exact Hacc|].
  destruct r as [|[h|]]; [exact Hacc | | apply IH, Hacc].
  destruct (truthy h); [|apply IH, Hacc].
  apply IH, Forall_app. split; [exact Hacc|].
  apply Forall_cons. split; [apply absolute_url_http | apply Forall_nil_2].
Qed.

Lemma collect_reels_http (links : list AttrRead) (seen : gset string)
    (acc urls : list string) :
  Forall (fun u => startsWith u "http" = true) acc ->
  collect_reels links seen acc = Some urls ->
  Forall (fun u => startsWith u "http" = true) urls.
Proof.
  revert seen acc. induction links as [|r links IH]; intros seen acc Hacc; simpl.
  - now intros [= <-].
  - destruct r as [|[h|]]; [discriminate| |apply IH, Hacc].
    destruct (truthy h); [|apply IH, Hacc].
    case_bool_decide; [apply IH, Hacc|].
    apply IH, Forall_app. split; [exact Hacc|].
    apply Forall_cons. split; [apply absolute_url_http | apply Forall_nil_2].
Qed.

(** X5: the expansion of a keyword never comes back empty (without
    suggestions the direct search URL stands in), and every URL it hands
    to [goto], suggestion or post, is absolute. *)
Theorem expansion_urls_absolute :
  (forall query links,
      1 <= length (suggestion_urls query links)
      /\ Forall (fun u => startsWith u "http" = true) (suggestion_urls query links))
  /\ (forall reelLinks urls,
         reel_urls reelLinks = Some urls ->
         Forall (fun u => startsWith u "http" = true) urls).
Proof.
  split.
  - intros query links. unfold suggestion_urls.
    set (read := match links with Some l => read_suggestions (take 5 l) [] | None => [] end).
    assert (Hr : Forall (fun u => startsWith u "http" = true) read).
    { unfold read. destruct links as [l|]; [|apply Forall_nil_2].
      apply read_suggestions_http, Forall_nil_2. }
    destruct read as [|u us].
    + split; [simpl; lia|]. apply Forall_cons. split; [reflexivity | apply Forall_nil_2].
    + split; [simpl; lia | exact Hr].
  - intros links urls H. unfold reel_urls in H.
    eapply collect_reels_http; [|exact H]. apply Forall_nil_2.
Qed.

Lemma expansion_urls_absolute_witness :
  Forall (fun u => startsWith u "http" = true) [post_a; post_b].
Proof.
  destruct expansion_urls_absolute as [_ H].
  apply (H [AttrValue (Some "/p/A/"); AttrValue (Some "/reel/B/")]).
  vm_compute. reflexivity.
Defined.

(* ===================================================================== *)
(** ** The handles in [found] *)
(* ===================================================================== *)

Lemma found_sent_frame (m m' : Machine) :
  state m' = state m -> found m' = found m -> found_sent m -> found_sent m'.
Proof. unfold found_sent. intros -> ->. auto. Qed.

(** A record is written for [s] only after the state check let [s]
    through, so no handle of [found] is overwritten; [s] joins [found]
    only when its record says [sent]. *)
Lemma found_sent_put (m m' : Machine) (s : string) (rec : CreatorState) :
  state m' = <[s := rec]> (state m) ->
  (found m' = found m \/ (found m' = found m ++ [s] /\ sent rec = true)) ->
  (state m !! s = None
   \/ exists r, state m !! s = Some r /\ sent r = false) ->
  found_sent m -> found_sent m'.
Proof.
  unfold found_sent, holds. intros -> Hf Hcheck H h Hh.
  destruct (decide (h = s)) as [->|Hne].
  - destruct Hf as [Hf | [Hf Hs]].
    + rewrite Hf in Hh. destruct (H _ Hh) as (r & Hr & Hsent).
      destruct Hcheck as [Hn | (r' & Hr' & Hu)]; congruence.
    + exists rec. rewrite lookup_insert_eq. auto.
  - rewrite lookup_insert_ne by congruence. apply H.
    destruct Hf as [Hf | [Hf _]]; rewrite Hf in Hh; [exact Hh|].
    apply elem_of_app in Hh as [Hh | Hh%list_elem_of_singleton];
      [exact Hh | contradiction].
Qed.

Ltac found_leaf :=
  first
    [ solve [eapply found_sent_frame; [..|eassumption]; reflexivity]
    | solve [eapply found_sent_put; [..|eassumption];
             [ reflexivity
             | first [left; reflexivity | right; split; reflexivity]
             | first [left; assumption
                     | right; eexists; split; eassumption] ]] ].

Lemma process_post_found_sent (cfg : Config) (env : CandidateEnv) (reelUrl : string) :
  preserves found_sent (process_post cfg env reelUrl).
Proof.
  intros m H.
  unfold process_post, post_body, enter_post, process_profile.
  wp_exec; found_leaf.
Qed.

(** A handle whose record says [sent] is passed over by the loop over
    [newHandles]. *)
Lemma igsearch_handle_skips_sent (cfg : Config) (env : CandidateEnv)
    (handle : string) (m : Machine) :
  holds (fun r => sent r = true) handle (state m) ->
  igsearch_handle cfg env handle m = (Returned tt, m).
Proof.
  intros (r & Hr & Hs). unfold igsearch_handle.
  destruct (is_own cfg handle); [reflexivity|].
  unfold bind, lookup_state, gets. cbn. rewrite Hr, Hs. reflexivity.
Qed.

Lemma igsearch_handles_skip_sent (cfg : Config) (envs : nat -> CandidateEnv)
    (i : nat) (handles : list string) (m : Machine) :
  (forall h, h ∈ handles -> holds (fun r => sent r = true) h (state m)) ->
  igsearch_handles cfg envs i handles m = (Returned tt, m).
Proof.
  revert i. induction handles as [|h rest IH]; intros i H; [reflexivity|].
  cbn [igsearch_handles]. unfold bind.
  rewrite igsearch_handle_skips_sent by (apply H; left).
  apply IH. intros h' Hh'. apply H. right. exact Hh'.
Qed.

(* ===================================================================== *)
(** ** Invariants of the runs of one configuration *)
(* ===================================================================== *)

(** Composite commands that touch neither the store nor the log. *)
Ltac frame_with Hframe Hsaved :=
  repeat
    lazymatch goal with
    | |- preserves _ (bind _ _) => apply preserves_bind; [|intros ?]
    | |- preserves _ (try_catch _ _) => apply preserves_try_catch
    | |- preserves _ (quietly _) => unfold quietly
    | |- preserves _ (ret _) => apply preserves_ret
    | |- preserves _ throw => apply preserves_throw
    | |- preserves _ (await _ _) => apply preserves_await
    | |- preserves _ (gets _) => apply preserves_gets
    | |- preserves _ (newPage _ _ _) => unfold newPage
    | |- preserves _ (fun m => (Returned _, _)) =>
        intros ? ?; eapply Hframe; [..|eassumption]; reflexivity
    | |- preserves _ (modify save_state) =>
        apply preserves_modify; intros ? ?; apply Hsaved; assumption
    | |- preserves _ (modify _) =>
        apply preserves_modify; intros ? ?;
        eapply Hframe; [..|eassumption]; reflexivity
    | |- preserves _ (close _ _ _) => unfold close
    | |- preserves _ (close_if_open _) => unfold close_if_open
    | |- preserves _ (saveState _ _) => unfold saveState
    | |- preserves _ browser_close => unfold browser_close
    | |- preserves _ (if ?b then _ else _) => destruct b
    | |- preserves _ (match ?x with _ => _ end) => destruct x
    end.

(** An invariant [J] of the search pipeline of the configuration [cfg]:
    it may read the store, the file, the log and [found], it survives the
    reset of [found], every post keeps it, and it implies [found_sent].
    Then a whole [runIGSearch] keeps it: the handles a query returns are
    those of [found], so the loop over [newHandles] passes over each. *)
Section SearchInvariant.
Variable cfg : Config.
Variable J : Machine -> Prop.
Hypothesis J_frame : forall m m',
    state m' = state m -> proto_set m' = proto_set m ->
    state_file m' = state_file m -> log m' = log m ->
    found m' = found m -> J m -> J m'.
Hypothesis J_saved : forall m, J m -> J (save_state m).
Hypothesis J_reset : forall m, J m -> J (with_found [] m).
Hypothesis J_post : forall env reelUrl, preserves J (process_post cfg env reelUrl).
Hypothesis J_found : forall m, J m -> found_sent m.

Lemma process_posts_keeps envs j reelUrls :
  preserves J (process_posts cfg envs j reelUrls).
Proof.
  apply (preserves_loop _ (process_post cfg) (process_posts cfg));
    [reflexivity | reflexivity |].
  intros env x. apply J_post.
Qed.

Lemma process_suggestion_keeps (env : SuggestionEnv) :
  preserves J (process_suggestion cfg env).
Proof.
  unfold process_suggestion.
  frame_with J_frame J_saved; apply process_posts_keeps.
Qed.

Lemma process_suggestions_keeps envs i suggestionUrls :
  preserves J (process_suggestions cfg envs i suggestionUrls).
Proof.
  apply (preserves_loop _ (fun env (_ : string) => process_suggestion cfg env)
           (process_suggestions cfg)); [reflexivity | reflexivity |].
  intros env x. apply process_suggestion_keeps.
Qed.

(** The search keeps [J] and returns the list [found]. *)
Lemma searchInstagramForCreators_keeps (env : QueryEnv) (query : string)
    (m : Machine) :
  J m ->
  wp (searchInstagramForCreators cfg env query)
     (fun r m' => J m' /\ forall hs, r = Returned hs -> hs = found m') m.
Proof.
  intros H. unfold searchInstagramForCreators.
  assert (Hend : forall m0, J m0 ->
            wp (gets found)
               (fun r m' => J m' /\ forall hs, r = Returned hs -> hs = found m') m0).
  { intros m0 H0. apply wp_gets. split; [exact H0|]. intros hs [= <-]. reflexivity. }
  assert (H1 : J (with_found [] m)) by (apply J_reset, H).
  apply wp_bind, wp_modify, wp_bind, wp_await; intros _.
  { split; [exact H1 | discriminate]. }
  destruct (negb (search_icon env)); [apply Hend, H1|].
  destruct (negb (search_input env)); [apply Hend, H1|].
  apply wp_bind.
  eapply wp_mono; [apply process_suggestions_keeps, H1|].
  intros [[]|] m' Hm'; cbn.
  - apply Hend, Hm'.
  - split; [exact Hm' | discriminate].
Qed.

Lemma igsearch_queries_keeps envs i queries :
  preserves J (igsearch_queries cfg envs i queries).
Proof.
  revert i. induction queries as [|q rest IH]; intros i; cbn [igsearch_queries].
  - apply preserves_ret.
  - intros m H. apply wp_bind.
    eapply wp_mono; [apply searchInstagramForCreators_keeps, H|].
    intros [hs|] m' [Hm' Hhs]; cbn; [|exact Hm'].
    rewrite (Hhs hs eq_refl).
    apply wp_bind. unfold wp at 1.
    rewrite igsearch_handles_skip_sent by (intros h Hh; apply J_found; assumption).
    cbn. apply wp_bind, wp_await; intros _; [exact Hm'|].
    apply IH, Hm'.
Qed.

Lemma guarded_run_keeps (raises : Site -> bool) (body : M unit) :
  preserves J body -> preserves J (guarded_run raises body).
Proof. intros Hb. unfold guarded_run. frame_with J_frame J_saved. exact Hb. Qed.

Lemma runIGSearch_keeps (env : IGSearchEnv) :
  preserves J (runIGSearch cfg env).
Proof. apply guarded_run_keeps, igsearch_queries_keeps. Qed.
End SearchInvariant.

Lemma found_sent_nil (m : Machine) : found m = [] -> found_sent m.
Proof. unfold found_sent. intros -> h Hh. inversion Hh. Qed.

(** An invariant [P] of the store, the file and the log that every loop
    body of the configuration [cfg] keeps is kept by its runs. *)
Section StoreInvariant.
Variable cfg : Config.
Variable P : Machine -> Prop.
Hypothesis P_frame : forall m m',
    state m' = state m -> proto_set m' = proto_set m ->
    state_file m' = state_file m -> log m' = log m ->
    P m -> P m'.
Hypothesis P_saved : forall m, P m -> P (save_state m).
Hypothesis P_post : forall env reelUrl, preserves P (process_post cfg env reelUrl).
Hypothesis P_creator : forall env ci c, preserves P (send_creator cfg env ci c).
Hypothesis P_followup : forall env c, preserves P (followup_creator env c).

Lemma runIGSearch_keeps_store (env : IGSearchEnv) (m : Machine) :
  P m -> found_sent m -> P (runIGSearch cfg env m).2.
Proof.
  intros HP Hf.
  apply (runIGSearch_keeps cfg (fun m => P m /\ found_sent m)); [..|split; assumption].
  - intros m0 m' Hs Hp Hsf Hl Hfd [H1 H2]. split.
    + eapply P_frame; eassumption.
    + eapply found_sent_frame; eassumption.
  - intros m0 [H1 H2]. split; [apply P_saved, H1|].
    eapply found_sent_frame; [..|exact H2]; reflexivity.
  - intros m0 [H1 H2]. split.
    + eapply P_frame; [..|exact H1]; reflexivity.
    + apply found_sent_nil. reflexivity.
  - intros env0 url m0 [H1 H2]. split.
    + apply P_post, H1.
    + apply process_post_found_sent, H2.
  - intros m0 [_ H2]. exact H2.
Qed.

Lemma send_creators_keeps envs ci creators :
  preserves P (send_creators cfg envs ci creators).
Proof.
  revert ci. induction creators as [|c rest IH]; intros ci; simpl.
  - apply preserves_ret.
  - apply preserves_bind; [apply P_creator | intros _; apply IH].
Qed.

Lemma run_program_keeps (r : Run) (m : Machine) :
  P m -> found_sent m -> P (run_program cfg r m).2.
Proof.
  intros HP Hf. destruct r as [env|env|env]; cbn [run_program].
  - apply (guarded_run_preserves P P_frame P_saved); [|exact HP].
    apply send_creators_keeps.
  - apply runIGSearch_keeps_store; assumption.
  - apply (runFollowup_preserves P P_frame P_saved P_followup), HP.
Qed.

Lemma exec_run_keeps (r : Run) (file : gmap string CreatorState) :
  P (boot file) -> P (exec_run cfg r file).
Proof.
  intros H. apply run_program_keeps; [exact H|]. apply found_sent_nil. reflexivity.
Qed.
End StoreInvariant.

(** From one run to a sequence of runs. *)
Lemma exec_runs_file (F : gmap string CreatorState -> Prop) (cfg : Config) :
  (forall r file, F file -> F (state_file (exec_run cfg r file))) ->
  forall rs file, F file -> F (exec_runs cfg rs file).2.
Proof.
  intros Hrun rs. induction rs as [|r rest IH]; intros file H; cbn [exec_runs].
  - exact H.
  - specialize (IH _ (Hrun r file H)).
    destruct (exec_runs cfg rest (state_file (exec_run cfg r file))) as [logs file'].
    exact IH.
Qed.

Lemma exec_runs_logs (L : list Event -> Prop) (cfg : Config) :
  (forall r file, L (log (exec_run cfg r file))) ->
  forall rs file, Forall L (exec_runs cfg rs file).1.
Proof.
  intros Hrun rs. induction rs as [|r rest IH]; intros file; cbn [exec_runs].
  - apply Forall_nil_2.
  - specialize (IH (state_file (exec_run cfg r file))).
    destruct (exec_runs cfg rest (state_file (exec_run cfg r file))) as [logs file'].
    apply Forall_cons. split; [apply Hrun | exact IH].
Qed.

(* ===================================================================== *)
(** ** The shape of the records *)
(* ===================================================================== *)

Lemma all_records_insert (P : CreatorState -> Prop) (s : string)
    (rec : CreatorState) (store : gmap string CreatorState) :
  P rec -> all_records P store -> all_records P (<[s := rec]> store).
Proof.
  intros Hrec H h r. destruct (decide (h = s)) as [->|Hne].
  - rewrite lookup_insert_eq. intros [= <-]. exact Hrec.
  - rewrite lookup_insert_ne by congruence. apply H.
Qed.

Lemma all_records_alter (P : CreatorState -> Prop) (f : CreatorState -> CreatorState)
    (s : string) (store : gmap string CreatorState) :
  (forall r, store !! s = Some r -> P r -> P (f r)) ->
  all_records P store -> all_records P (alter f s store).
Proof.
  intros Hf H h r. destruct (decide (h = s)) as [->|Hne].
  - rewrite lookup_alter_eq. destruct (store !! s) as [r0|] eqn:E; [|discriminate].
    intros [= <-]. apply Hf; [reflexivity|]. apply (H s), E.
  - rewrite lookup_alter_ne by congruence. apply H.
Qed.

Lemma wf_set_replied (r : CreatorState) :
  sent r = true -> wf_record r = true -> wf_record (set_replied r) = true.
Proof. unfold wf_record, set_replied. cbn. intros ->. exact id. Qed.

Lemma wf_set_followedUp (t : Z) (r : CreatorState) :
  sent r = true -> wf_record r = true -> wf_record (set_followedUp t r) = true.
Proof.
  unfold wf_record, set_followedUp. cbn. intros ->.
  destruct (source r); rewrite ?andb_true_iff; tauto.
Qed.

(** What [saveState] writes is part of the store. *)
Lemma own_properties_Some (m : Machine) (h : string) (r : CreatorState) :
  own_properties m !! h = Some r -> state m !! h = Some r.
Proof.
  unfold own_properties. destruct (proto_set m); [|exact id].
  intros H. apply lookup_delete_Some in H. exact (proj2 H).
Qed.

Lemma all_records_own_properties (P : CreatorState -> Prop) (m : Machine) :
  all_records P (state m) -> all_records P (own_properties m).
Proof. intros H h r Hr. apply (H h), own_properties_Some, Hr. Qed.

Ltac wf_leaf :=
  unfold wf_stores in *; machine_simpl;
  repeat match goal with H : _ /\ _ |- _ => destruct H end;
  split;
  repeat first
    [ assumption
    | apply all_records_own_properties; machine_simpl
    | apply all_records_insert;
      [ try match goal with |- context [send ?e] => destruct (send e) end;
        reflexivity |] ].

Lemma process_post_wf (cfg : Config) (env : CandidateEnv) (reelUrl : string) :
  preserves wf_stores (process_post cfg env reelUrl).
Proof.
  intros m H.
  unfold process_post, post_body, enter_post, process_profile.
  wp_exec; wf_leaf.
Qed.

Lemma send_creator_wf (cfg : Config) (env : CandidateEnv) (ci : nat) (c : Creator) :
  preserves wf_stores (send_creator cfg env ci c).
Proof.
  intros m H. unfold send_creator.
  wp_exec; wf_leaf.
Qed.

Lemma followup_creator_wf (env : FollowEnv) (c : Creator) :
  preserves wf_stores (followup_creator env c).
Proof.
  intros m [H1 H2]. unfold followup_creator.
  wp_exec; unfold wf_stores; machine_simpl.
  all: try match goal with
           | H : negb (sent _) = false |- _ => apply negb_false_iff in H
           end.
  all: split;
    repeat first
      [ assumption
      | apply all_records_own_properties; machine_simpl
      | apply all_records_alter;
        [ intros r0 Hr0 Hwf;
          first [apply wf_set_replied | apply wf_set_followedUp];
          [congruence | exact Hwf] |] ].
Qed.

Lemma wf_stores_frame (m m' : Machine) :
  state m' = state m -> proto_set m' = proto_set m ->
  state_file m' = state_file m -> log m' = log m ->
  wf_stores m -> wf_stores m'.
Proof. unfold wf_stores. intros -> _ -> _. exact id. Qed.

Lemma wf_stores_saved (m : Machine) :
  wf_stores m -> wf_stores (save_state m).
Proof.
  intros [H _]. split; [exact H|]. apply all_records_own_properties, H.
Qed.

(** One run keeps the records of the file well shaped. *)
Lemma exec_run_wf (cfg : Config) (r : Run) (file : gmap string CreatorState) :
  all_records (fun r => wf_record r = true) file ->
  all_records (fun r => wf_record r = true) (state_file (exec_run cfg r file)).
Proof.
  intros H.
  assert (Hrun : wf_stores (exec_run cfg r file)); [|exact (proj2 Hrun)].
  apply (exec_run_keeps cfg wf_stores).
  - exact wf_stores_frame.
  - exact wf_stores_saved.
  - apply process_post_wf.
  - apply send_creator_wf.
  - apply followup_creator_wf.
  - split; exact H.
Qed.

(** X6: the records the program writes are well shaped, and stay so: if
    every record of the file is (an empty file, for one), then after any
    sequence of runs of the three modes every record of the file is. A
    record marked sent has its time stamp and no skip mark; one not marked
    sent is marked skipped and carries no time stamp, no reply mark and no
    follow-up; a follow-up mark comes with its time stamp; the source tag
    is absent or "ig", never "ig-search" or "api". *)
Theorem records_stay_well_formed (cfg : Config) (rs : list Run)
    (file : gmap string CreatorState) :
  all_records (fun r => wf_record r = true) file ->
  all_records (fun r => wf_record r = true) (exec_runs cfg rs file).2.
Proof.
  revert file. induction rs as [|r rest IH]; intros file H; cbn [exec_runs].
  - exact H.
  - specialize (IH _ (exec_run_wf cfg r file H)).
    destruct (exec_runs cfg rest (state_file (exec_run cfg r file))) as [logs file'].
    exact IH.
Qed.

Lemma records_stay_well_formed_witness :
  all_records (fun r => wf_record r = true)
    (exec_runs plain_cfg
       [IGSearchRun (alice_search SendNoInput);
        FollowupRun (alice_sweep (rows 1) 4)] sent_file).2.
Proof.
  apply (records_stay_well_formed plain_cfg).
  intros h r Hr. unfold sent_file in Hr.
  apply lookup_singleton_Some in Hr as [_ <-]. reflexivity.
Defined.

(* ===================================================================== *)
(** ** What the logs of the runs never show *)
(* ===================================================================== *)

Lemma log_frame (L : list Event -> Prop) (m m' : Machine) :
  state m' = state m -> proto_set m' = proto_set m ->
  state_file m' = state_file m -> log m' = log m ->
  L (log m) -> L (log m').
Proof. intros _ _ _ ->. exact id. Qed.

(** X7: a search run never contacts the account's own handle, in whatever
    letter case a post shows it: its profile is not opened, it is not
    screened and no message is sent to it. *)
Theorem own_handle_never_contacted (cfg : Config) (env : IGSearchEnv)
    (file : gmap string CreatorState) (h : string) :
  is_own cfg h = true ->
  Forall (fun e => ~ contacts h e) (log (exec_run cfg (IGSearchRun env) file)).
Proof.
  intros Hown. unfold exec_run. cbn [run_program].
  apply (runIGSearch_keeps_store cfg
           (fun m => Forall (fun e => ~ contacts h e) (log m))).
  - intros m m'. apply (log_frame (Forall (fun e => ~ contacts h e))).
  - intros m H. exact H.
  - intros cenv url m H.
    unfold process_post, post_body, enter_post, process_profile.
    wp_exec;
      repeat (apply Forall_cons; split;
              [unfold contacts; intros [E|[E|E]];
               first [ discriminate E
                     | injection E as E;
                       match goal with
                       | Hs : is_own cfg ?s = false |- _ =>
                           rewrite E, Hown in Hs; discriminate Hs
                       end ]|]);
      assumption.
  - apply Forall_nil_2.
  - apply found_sent_nil. reflexivity.
Qed.

Lemma own_handle_never_contacted_witness :
  Forall (fun e => ~ contacts "alice_grad" e)
    (log (exec_run own_cfg (IGSearchRun (alice_search SendAll)) ∅)).
Proof. apply own_handle_never_contacted. reflexivity. Defined.

Ltac no_rejection_leaf Hoff :=
  try match goal with
      | Hs : negb (screening_active _) = false |- _ =>
          rewrite Hoff in Hs; discriminate Hs
      end;
  unfold no_rejection in *;
  repeat (apply Forall_cons; split; [intros ? E; discriminate E|]);
  assumption.

(** X8: with screening switched off (the flag is false or no API key is
    set) no run ever rejects a candidate: no log of any sequence of runs
    shows a screening that failed. *)
Theorem no_rejection_without_screening (cfg : Config) (rs : list Run)
    (file : gmap string CreatorState) :
  screening_active cfg = false ->
  Forall no_rejection (exec_runs cfg rs file).1.
Proof.
  intros Hoff. revert rs file. apply exec_runs_logs. intros r file.
  apply (exec_run_keeps cfg (fun m => no_rejection (log m))).
  - intros m m'. apply (log_frame no_rejection).
  - intros m H. exact H.
  - intros env url m H.
    unfold process_post, post_body, enter_post, process_profile.
    wp_exec; no_rejection_leaf Hoff.
  - intros env ci c m H. unfold send_creator.
    wp_exec; no_rejection_leaf Hoff.
  - intros env c m H. unfold followup_creator.
    wp_exec; no_rejection_leaf Hoff.
  - apply Forall_nil_2.
Qed.

Lemma no_rejection_without_screening_witness :
  Forall no_rejection
    (exec_runs plain_cfg
       [IGSearchRun (alice_search SendNoInput); SendRun (alice_send SendAll)] ∅).1.
Proof. apply no_rejection_without_screening. reflexivity. Defined.

Ltac pass_leaf :=
  repeat match goal with
         | Hs : negb (passes ?r) = false |- _ =>
             apply negb_false_iff in Hs; try rewrite Hs
         end;
  cbn [sends_follow_a_pass passes screen_pass];
  rewrite ?String.eqb_refl; cbn [andb];
  assumption.

(** X9: first-contact messages go only to a candidate that has just
    passed screening. In the log of every run, each call of
    [sendMessages] for a handle comes right after [screenProfile]
    returned a pass for that handle. *)
Theorem dispatch_only_after_pass (cfg : Config) (rs : list Run)
    (file : gmap string CreatorState) :
  Forall (fun l => sends_follow_a_pass l = true) (exec_runs cfg rs file).1.
Proof.
  revert rs file. apply exec_runs_logs. intros r file.
  apply (exec_run_keeps cfg (fun m => sends_follow_a_pass (log m) = true)).
  - intros m m'. apply (log_frame (fun l => sends_follow_a_pass l = true)).
  - intros m H. exact H.
  - intros env url m H.
    unfold process_post, post_body, enter_post, process_profile.
    wp_exec; pass_leaf.
  - intros env ci c m H. unfold send_creator.
    wp_exec; pass_leaf.
  - intros env c m H. unfold followup_creator.
    wp_exec; pass_leaf.
  - reflexivity.
Qed.

(* ===================================================================== *)
(** ** What the file keeps *)
(* ===================================================================== *)

(** An assignment to a key the object has as an own property leaves the
    prototype alone. *)
Lemma sets_prototype_own (s : string) (m : Machine) :
  "__proto__" ∈ dom (state m) -> proto_set m = false ->
  sets_prototype s m = false.
Proof.
  intros Hin Hp. unfold sets_prototype.
  destruct (String.eqb_spec s "__proto__") as [->|]; [|reflexivity].
  apply elem_of_dom in Hin. destruct Hin as [r ->]. exact Hp.
Qed.

Lemma dom_own_properties (file : gmap string CreatorState) (m : Machine) :
  dom file ⊆ dom (state m) ->
  ("__proto__" ∈ dom file -> proto_set m = false) ->
  dom file ⊆ dom (own_properties m).
Proof.
  intros Hd Hp. unfold own_properties.
  destruct (proto_set m); [|exact Hd].
  rewrite dom_delete_L. intros x Hx. apply elem_of_difference. split.
  - apply Hd, Hx.
  - intros ->%elem_of_singleton. specialize (Hp Hx). discriminate Hp.
Qed.

Ltac dom_sub := rewrite ?dom_insert_L, ?dom_alter_L; set_solver.

Ltac own_flag :=
  first
    [ assumption
    | let Hin := fresh "Hin" in
      intros Hin;
      repeat (apply orb_false_intro;
              [apply sets_prototype_own; machine_simpl; [dom_sub | auto]|]);
      auto ].

Ltac dom_leaf :=
  unfold keeps_handles in *; machine_simpl;
  repeat match goal with H : _ /\ _ |- _ => destruct H end;
  split; [|split];
  [ dom_sub
  | first [ assumption
          | apply dom_own_properties; machine_simpl; [dom_sub | own_flag] ]
  | own_flag ].

(** X10: no run removes a handle from the file: every handle the file had
    before a sequence of runs it still has afterwards. *)
Theorem records_never_deleted (cfg : Config) (rs : list Run)
    (file : gmap string CreatorState) :
  dom file ⊆ dom (exec_runs cfg rs file).2.
Proof.
  assert (Hgen : forall file', dom file ⊆ dom file' ->
                 dom file ⊆ dom (exec_runs cfg rs file').2);
    [|apply Hgen; reflexivity].
  apply (exec_runs_file (fun file' => dom file ⊆ dom file')).
  intros r file' H.
  assert (Hrun : keeps_handles file (exec_run cfg r file')).
  { apply (exec_run_keeps cfg (keeps_handles file)).
    - unfold keeps_handles. intros m m' -> -> -> _. exact id.
    - intros m (H1 & _ & H3). split; [exact H1|]. split; [|exact H3].
      apply dom_own_properties; assumption.
    - intros env url m Hm.
      unfold process_post, post_body, enter_post, process_profile.
      wp_exec; dom_leaf.
    - intros env ci c m Hm. unfold send_creator.
      wp_exec; dom_leaf.
    - intros env c m Hm. unfold followup_creator.
      wp_exec; dom_leaf.
    - split; [exact H|]. split; [exact H | reflexivity]. }
  exact (proj1 (proj2 Hrun)).
Qed.

Lemma same_core_refl (r : CreatorState) : same_core r r.
Proof. repeat split. Qed.

Lemma same_core_set_replied (r r' : CreatorState) :
  same_core r r' -> same_core r (set_replied r').
Proof. exact id. Qed.

Lemma same_core_set_followedUp (t : Z) (r r' : CreatorState) :
  same_core r r' -> same_core r (set_followedUp t r').
Proof. exact id. Qed.

(** The state check lets only handles through whose record is not that of
    a rejection. *)
Lemma check_passed_other (store : gmap string CreatorState) (s h : string)
    (r : CreatorState) :
  store !! h = Some r -> is_screened_out r = true ->
  match store !! s with Some c => is_screened_out c | None => false end = false ->
  s ≠ h.
Proof. intros H Hk Hc ->. rewrite H, Hk in Hc. discriminate Hc. Qed.

Lemma sweep_passed_other (store : gmap string CreatorState) (s h : string)
    (r c : CreatorState) :
  store !! h = Some r -> sent r = false ->
  store !! s = Some c -> negb (sent c) = false ->
  s ≠ h.
Proof.
  intros H Hs Hc Hn ->. rewrite H in Hc. injection Hc as <-.
  rewrite Hs in Hn. discriminate Hn.
Qed.

Section RejectionKept.
Variable h : string.
Variable r : CreatorState.
Hypothesis r_unsent : sent r = false.
Hypothesis r_screened : is_screened_out r = true.

Ltac kept_lookup H1 :=
  first
    [ assumption
    | rewrite lookup_insert_ne; [assumption|];
      apply (check_passed_other _ _ _ _ H1 r_screened);
      first [ assumption
            | match goal with
              | Hl : state _ !! _ = _ |- _ =>
                  rewrite Hl; first [reflexivity | assumption]
              end ]
    | rewrite lookup_alter_ne; [assumption|];
      eapply (sweep_passed_other _ _ _ _ _ H1 r_unsent); eassumption ].

Ltac kept_flag H1 H3 :=
  first
    [ assumption
    | let Hh := fresh "Hh" in
      let Hd := fresh "Hd" in
      intros Hh;
      pose proof (proj2 (elem_of_dom _ _) (ex_intro _ _ H1)) as Hd;
      rewrite Hh in Hd;
      repeat (apply orb_false_intro;
              [apply sets_prototype_own; machine_simpl;
               [dom_sub | exact (H3 Hh)]|]);
      exact (H3 Hh) ].

Ltac kept_leaf H1 H2 H3 :=
  unfold record_kept; machine_simpl;
  split; [|split];
  [ kept_lookup H1
  | first [ assumption
          | rewrite lookup_own_properties;
            machine_simpl; [kept_lookup H1 | kept_flag H1 H3] ]
  | kept_flag H1 H3 ].

Lemma process_post_kept (cfg : Config) (env : CandidateEnv) (reelUrl : string) :
  preserves (record_kept h r) (process_post cfg env reelUrl).
Proof.
  intros m (H1 & H2 & H3).
  unfold process_post, post_body, enter_post, process_profile.
  wp_exec; kept_leaf H1 H2 H3.
Qed.

Lemma send_creator_kept (cfg : Config) (env : CandidateEnv) (ci : nat) (c : Creator) :
  preserves (record_kept h r) (send_creator cfg env ci c).
Proof.
  intros m (H1 & H2 & H3). unfold send_creator.
  wp_exec; kept_leaf H1 H2 H3.
Qed.

Lemma followup_creator_kept (env : FollowEnv) (c : Creator) :
  preserves (record_kept h r) (followup_creator env c).
Proof.
  intros m (H1 & H2 & H3). unfold followup_creator.
  wp_exec; kept_leaf H1 H2 H3.
Qed.

Lemma exec_run_kept (cfg : Config) (run : Run) (file : gmap string CreatorState) :
  file !! h = Some r -> state_file (exec_run cfg run file) !! h = Some r.
Proof.
  intros H.
  assert (Hrun : record_kept h r (exec_run cfg run file)).
  { apply (exec_run_keeps cfg (record_kept h r)).
    - unfold record_kept. intros m m' -> -> -> _. exact id.
    - intros m (H1 & _ & H3). split; [exact H1|]. split; [|exact H3].
      cbn [save_state state_file with_state_file].
      rewrite lookup_own_properties by exact H3. exact H1.
    - apply process_post_kept.
    - apply send_creator_kept.
    - apply followup_creator_kept.
    - split; [exact H|]. split; [exact H | reflexivity]. }
  exact (proj1 (proj2 Hrun)).
Qed.
End RejectionKept.

(** X11: the record of a settled handle is never overwritten. Through any
    sequence of runs, a record marked sent keeps its [sent], [sentAt],
    skip fields, [reelUrl] and [source] (only the reply and follow-up
    marks may change), and the record of a screening rejection stays
    exactly as it is. *)
Theorem settled_record_is_kept (cfg : Config) (rs : list Run)
    (file : gmap string CreatorState) (h : string) (r : CreatorState) :
  file !! h = Some r ->
  (sent r = true ->
   exists r', (exec_runs cfg rs file).2 !! h = Some r' /\ same_core r r')
  /\ (sent r = false -> is_screened_out r = true ->
      (exec_runs cfg rs file).2 !! h = Some r).
Proof.
  intros Hfile. split.
  - intros Hsent.
    destruct (exec_runs_closed (fun r' => sent r' = true /\ same_core r r') h)
      with (cfg := cfg) (rs := rs) (file := file) as [_ (r' & Hr' & _ & Hc)].
    + intros r' [Hs _]. left. exact Hs.
    + intros r' [Hs Hc]. split; [exact Hs | exact Hc].
    + intros t r' [Hs Hc]. split; [exact Hs | exact Hc].
    + exists r. split; [exact Hfile|]. split; [exact Hsent | apply same_core_refl].
    + exists r'. split; assumption.
  - intros Hs Hk. revert file Hfile.
    apply (exec_runs_file (fun file' => file' !! h = Some r)).
    intros run file' H. apply exec_run_kept; assumption.
Qed.

Lemma settled_record_is_kept_witness :
  (exists r', (exec_runs plain_cfg
                 [FollowupRun (alice_sweep (rows 1) 4);
                  IGSearchRun (alice_search SendAll)] sent_file).2
              !! "alice_grad" = Some r'
              /\ same_core (send_record true 1699000000000 post_a (Some "ig")) r')
  /\ (exec_runs screening_cfg
        [IGSearchRun (alice_search SendAll); SendRun (alice_send SendAll)]
        screened_file).2 !! "alice_grad"
     = Some (screened_record 1699000000000 post_a "ig").
Proof.
  split.
  - apply (settled_record_is_kept plain_cfg _ sent_file "alice_grad");
      reflexivity.
  - apply (settled_record_is_kept screening_cfg _ screened_file "alice_grad");
      reflexivity.
Defined.

(* ===================================================================== *)
(** ** What a follow-up sweep changes *)
(* ===================================================================== *)

Lemma same_cores_refl (store : gmap string CreatorState) : same_cores store store.
Proof.
  intros h. destruct (store !! h) as [r|]; [|exact Logic.I].
  split; [apply same_core_refl | reflexivity].
Qed.

Lemma same_cores_alter (f : CreatorState -> CreatorState) (s : string)
    (c : CreatorState) (file store : gmap string CreatorState) :
  (forall r r', same_core r r' -> same_core r (f r')) ->
  store !! s = Some c -> negb (sent c) = false ->
  same_cores file store -> same_cores file (alter f s store).
Proof.
  intros Hf Hc Hs H h. specialize (H h).
  destruct (decide (h = s)) as [->|Hne].
  - rewrite lookup_alter_eq, Hc. rewrite Hc in H. cbn.
    destruct (file !! s) as [r|]; [|exact H].
    destruct H as [Hcore Hsame]. split; [apply Hf, Hcore|].
    intros Hr. destruct Hcore as [Hsent _].
    rewrite Hsent, Hr in Hs. discriminate Hs.
  - rewrite lookup_alter_ne by congruence. exact H.
Qed.

(** X12: a follow-up run adds no handle to the file and removes none, and
    the only fields it changes are the reply mark, the follow-up mark and
    the follow-up time stamp of records marked sent; every record not
    marked sent is left exactly as it was. *)
Theorem followup_run_changes_marks_only (cfg : Config) (env : FollowupEnv)
    (file : gmap string CreatorState) :
  same_cores file (state_file (exec_run cfg (FollowupRun env) file)).
Proof.
  unfold exec_run. cbn [run_program].
  pose (I := fun m => same_cores file (state m) /\ same_cores file (state_file m)
                      /\ proto_set m = false).
  assert (HI : I (runFollowup env (boot file)).2); [|exact (proj1 (proj2 HI))].
  apply (runFollowup_preserves I).
  - unfold I. intros m m' -> -> -> _. exact id.
  - intros m (H1 & _ & H3). split; [exact H1|]. split; [|exact H3].
    cbn [save_state state_file with_state_file]. unfold own_properties.
    rewrite H3. exact H1.
  - intros fenv c m (H1 & H2 & H3). unfold followup_creator.
    wp_exec; unfold I; machine_simpl;
      (split; [|split; [|exact H3]];
       first [ assumption
             | unfold own_properties; machine_simpl; rewrite H3
             | idtac ];
       first [ assumption
             | eapply same_cores_alter; [|eassumption|eassumption|assumption];
               intros ? ? Hc; exact Hc ]).
  - split; [|split]; [apply same_cores_refl | apply same_cores_refl | reflexivity].
Qed.

(* ===================================================================== *)
(** ** Deliveries are recorded *)
(* ===================================================================== *)







(* ===================================================================== *)
(** ** A candidate that is not settled is processed *)
(* ===================================================================== *)

(** X14: what one iteration of the search pipeline does with a candidate
    that is not settled. Let the post show the handle [h], not the
    account's own, whose record (if any) is neither sent nor a screening
    rejection (a failed dispatch, for one) and which is not in [found].
    Then (1) unless opening the post, loading it or opening the profile
    tab throws, the profile of [h] is opened exactly once; (2) when
    nothing throws, [h] is screened, messages are sent if it passes, and
    the state object reads for [h] the record of that outcome: sent or
    not by the result of [sendMessages], or the screening rejection; the
    file ends with that record too, for every handle but ["__proto__"]. *)
Theorem unsettled_candidate_is_processed (cfg : Config) (env : CandidateEnv)
    (reelUrl : string) (m : Machine) (h : string) :
  extract_handle (raises env EvalLinks) (raises env EvalMeta)
    (raises env ReadUrl) (page env) = Some h ->
  is_own cfg h = false ->
  match state m !! h with
  | Some r => sent r = false /\ is_screened_out r = false
  | None => True
  end ->
  h ∉ found m ->
  let m' := (process_post cfg env reelUrl m).2 in
  (raises env PostNewPage = false -> raises env PostGoto = false ->
   raises env ProfileNewPage = false ->
   occurrences (OpenProfile h) (log m')
   = S (occurrences (OpenProfile h) (log m)))
  /\ ((forall s, raises env s = false) ->
      let result :=
        if screening_active cfg then screen_response (fetch env) else screen_pass in
      let success :=
        match send env with SendAll => true | _ => false end in
      state m' !! h
      = Some (if passes result
              then send_record success (now env) reelUrl (Some "ig")
              else screened_record (now env) reelUrl "ig")
      /\ (h <> "__proto__" ->
          state_file m' !! h
          = Some (if passes result
                  then send_record success (now env) reelUrl (Some "ig")
                  else screened_record (now env) reelUrl "ig"))
      /\ log m'
         = (if passes result
            then [Sent h success; SendMessages h; Screened h true]
            else [Screened h false])
           ++ [ScreenProfile h; OpenProfile h; OpenPost reelUrl] ++ log m).
Proof.
  intros Hext Hown Hcheck Hfound.
  apply (wp_run (process_post cfg env reelUrl)
           (fun _ m' =>
  (raises env PostNewPage = false -> raises env PostGoto = false ->
   raises env ProfileNewPage = false ->
   occurrences (OpenProfile h) (log m')
   = S (occurrences (OpenProfile h) (log m)))
  /\ ((forall s, raises env s = false) ->
      let result :=
        if screening_active cfg then screen_response (fetch env) else screen_pass in
      let success :=
        match send env with SendAll => true | _ => false end in
      state m' !! h
      = Some (if passes result
              then send_record success (now env) reelUrl (Some "ig")
              else screened_record (now env) reelUrl "ig")
      /\ (h <> "__proto__" ->
          state_file m' !! h
          = Some (if passes result
                  then send_record success (now env) reelUrl (Some "ig")
                  else screened_record (now env) reelUrl "ig"))
      /\ log m'
         = (if passes result
            then [Sent h success; SendMessages h; Screened h true]
            else [Screened h false])
           ++ [ScreenProfile h; OpenProfile h; OpenPost reelUrl] ++ log m))).
  unfold process_post, post_body, enter_post, process_profile.
  rewrite Hext, Hown. cbv beta iota.
  wp_exec;
  try (destruct Hcheck; discriminate);
  try match goal with
      | Hb : bool_decide _ = true |- _ =>
          apply bool_decide_eq_true in Hb; contradiction
      end;
  try congruence;
  (split; [intros Hr1 Hr2 Hr3; try congruence | intros Hnr]);
  try match goal with
      | Hx : raises env _ = true |- _ => rewrite Hnr in Hx; discriminate Hx
      end;
  try (cbn [occurrences event_eqb]; rewrite String.eqb_refl; reflexivity);
  repeat match goal with
         | Hs : negb _ = true |- _ => apply negb_true_iff in Hs
         | Hs : negb _ = false |- _ => apply negb_false_iff in Hs
         end;
  try match goal with Hs : screening_active _ = _ |- _ => rewrite Hs end;
  try match goal with
      | Hs : passes _ = _ |- _ => first [discriminate Hs | rewrite Hs]
      end;
  cbn [passes screen_pass];
  (split; [rewrite lookup_insert_eq; reflexivity|]);
  (split; [|reflexivity]);
  intros Hproto;
  rewrite lookup_own_properties by (intros E; destruct (Hproto E));
  machine_simpl; rewrite lookup_insert_eq; reflexivity.
Qed.

Lemma unsettled_candidate_is_processed_witness :
  let m' := (process_post plain_cfg (calm alice_page FetchRejects SendAll)
               post_a (boot failed_file)).2 in
  occurrences (OpenProfile "alice_grad") (log m') = 1
  /\ state_file m' !! "alice_grad"
     = Some (send_record true 1700000000000 post_a (Some "ig")).
Proof.
  destruct (unsettled_candidate_is_processed plain_cfg
              (calm alice_page FetchRejects SendAll) post_a (boot failed_file)
              "alice_grad") as [H1 H2].
  - reflexivity.
  - reflexivity.
  - vm_compute. split; reflexivity.
  - intros H. inversion H.
  - split.
    + apply H1; reflexivity.
    + destruct (H2 (fun _ => eq_refl)) as (_ & Hf & _). apply Hf. discriminate.
Defined.

(* ===================================================================== *)
(** ** The loop over [newHandles] *)
(* ===================================================================== *)

Lemma search_resets_found (cfg : Config) (env : QueryEnv) (query : string)
    (m : Machine) :
  searchInstagramForCreators cfg env query m
  = searchInstagramForCreators cfg env query (with_found [] m).
Proof. reflexivity. Qed.

(** X15: the handles [searchInstagramForCreators] returns have all been
    sent to and recorded already, so the loop of [runIGSearch] over them
    passes over every one: it opens no profile, sends nothing and leaves
    the machine as it found it. *)
Theorem new_handles_loop_is_idle (cfg : Config) (env : QueryEnv) (query : string)
    (m : Machine) (envs : nat -> CandidateEnv) (i : nat) (hs : list string) :
  let res := searchInstagramForCreators cfg env query m in
  res.1 = Returned hs ->
  igsearch_handles cfg envs i hs res.2 = (Returned tt, res.2).
Proof.
  intros res Hres. subst res. rewrite search_resets_found in *.
  destruct (searchInstagramForCreators_keeps cfg found_sent) with
    (env := env) (query := query) (m := with_found [] m) as [Hf Hhs].
  - intros m0 m' Hs _ _ Hfd. apply found_sent_frame; assumption.
  - intros m0 _. apply found_sent_nil. reflexivity.
  - apply process_post_found_sent.
  - apply found_sent_nil. reflexivity.
  - apply igsearch_handles_skip_sent. intros h Hh. apply Hf.
    rewrite <- (Hhs hs Hres). exact Hh.
Qed.

Lemma new_handles_loop_is_idle_witness :
  let res := searchInstagramForCreators plain_cfg (alice_query SendAll)
               "career tips" (boot ∅) in
  igsearch_handles plain_cfg (new_handles (alice_query SendAll)) 0
    ["alice_grad"] res.2
  = (Returned tt, res.2).
Proof.
  apply (new_handles_loop_is_idle plain_cfg (alice_query SendAll) "career tips"
           (boot ∅)).
  vm_compute. reflexivity.
Defined.

(* ===================================================================== *)
(** ** The tabs a search leaves open *)
(* ===================================================================== *)

Lemma remove_tab_fresh (id n : nat) (t : list (nat * Level)) :
  Forall (fun p => p.1 < n) t -> n <= id -> remove_tab id t = t.
Proof.
  intros H Hle. unfold remove_tab. induction H as [|p t Hp _ IH]; [reflexivity|].
  rewrite filter_cons_True by (cbn; lia). rewrite IH. reflexivity.
Qed.

Lemma fresh_mono (n n' : nat) (t : list (nat * Level)) :
  Forall (fun p => p.1 < n) t -> n <= n' -> Forall (fun p => p.1 < n') t.
Proof. intros H Hle. eapply Forall_impl; [exact H|]. cbn. intros; lia. Qed.

Ltac tabs_exact Ht Hfresh :=
  rewrite ?Ht;
  repeat first
    [ rewrite remove_tab_app
    | rewrite (remove_tab_fresh _ _ _ Hfresh) by lia
    | rewrite remove_tab_same
    | rewrite remove_tab_next
    | rewrite remove_tab_prev
    | rewrite remove_tab_nil
    | rewrite app_nil_r ];
  try reflexivity.

Lemma process_post_tabs (cfg : Config) (env : CandidateEnv) (reelUrl : string)
    (t : list (nat * Level)) (sg : option nat) :
  preserves (tabs_are t sg) (process_post cfg env reelUrl).
Proof.
  intros m (Ht & Hfresh & Hsg).
  unfold process_post, post_body, enter_post, process_profile.
  wp_exec; unfold tabs_are; machine_simpl;
    (split; [tabs_exact Ht Hfresh
            | split; [apply (fresh_mono _ _ _ Hfresh); lia | exact Hsg]]).

Qed.

Lemma process_posts_tabs (cfg : Config) envs j reelUrls
    (t : list (nat * Level)) (sg : option nat) :
  preserves (tabs_are t sg) (process_posts cfg envs j reelUrls).
Proof.
  apply (preserves_loop _ (process_post cfg) (process_posts cfg));
    [reflexivity | reflexivity |].
  intros env x. apply process_post_tabs.
Qed.

Lemma process_suggestion_tabs (cfg : Config) (env : SuggestionEnv)
    (t : list (nat * Level)) :
  preserves (tabs_kept t) (process_suggestion cfg env).
Proof.
  intros m [Ht Hfresh]. unfold process_suggestion.
  wp_exec;
    try solve [unfold tabs_kept; machine_simpl;
               split; [tabs_exact Ht Hfresh | apply (fresh_mono _ _ _ Hfresh); lia]].
  all: eapply wp_mono;
    [ apply (process_posts_tabs cfg _ _ _ (t ++ [(next_tab m, Level1)])
               (Some (next_tab m)));
      unfold tabs_are; machine_simpl;
      split; [rewrite Ht; reflexivity | split; [|reflexivity]];
      apply Forall_app; split;
      [ apply (fresh_mono _ _ _ Hfresh); lia
      | apply Forall_cons; split; [cbn; lia | apply Forall_nil_2] ]
    | intros r m' (Ht' & Hfresh' & Hsg');
      apply Forall_app in Hfresh' as [Hf' _];
      destruct r as [[]|];
      wp_exec;
      try match type of Hsg' with
          | None = _ => discriminate Hsg'
          | Some _ = Some _ => injection Hsg' as Hsg'; subst
          end;
      unfold tabs_kept; machine_simpl;
      (split; [rewrite ?Ht'; tabs_exact Ht Hfresh
              | apply (fresh_mono _ _ _ Hf'); lia]) ].
Qed.

Lemma tabs_kept_frame (t : list (nat * Level)) (m m' : Machine) :
  tabs m' = tabs m -> next_tab m' = next_tab m -> tabs_kept t m -> tabs_kept t m'.
Proof. unfold tabs_kept. intros -> ->. exact id. Qed.

Lemma process_suggestions_tabs (cfg : Config) envs i suggestionUrls
    (t : list (nat * Level)) :
  preserves (tabs_kept t) (process_suggestions cfg envs i suggestionUrls).
Proof.
  apply (preserves_loop _ (fun env (_ : string) => process_suggestion cfg env)
           (process_suggestions cfg)); [reflexivity | reflexivity |].
  intros env x. apply process_suggestion_tabs.
Qed.

(** X16: a search gives back the browser as it got it. Whatever happens
    in [searchInstagramForCreators] (any number of suggestions and posts,
    rejections, failed dispatches, exceptions at any awaited call), the
    pages open when it returns are exactly those that were open when it
    was called: every result tab, post tab and profile tab it opened is
    closed, and no other page is. Page identities are fresh, as those of
    [context.newPage()] are. *)
Theorem search_restores_tabs (cfg : Config) (env : QueryEnv) (query : string)
    (m : Machine) :
  Forall (fun p => p.1 < next_tab m) (tabs m) ->
  tabs (searchInstagramForCreators cfg env query m).2 = tabs m.
Proof.
  intros Hfresh.
  assert (H : tabs_kept (tabs m) (searchInstagramForCreators cfg env query m).2);
    [|exact (proj1 H)].
  apply (wp_run (searchInstagramForCreators cfg env query)
           (fun _ m' => tabs_kept (tabs m) m')).
  unfold searchInstagramForCreators.
  wp_exec; try solve [split; [reflexivity | exact Hfresh]].
  eapply wp_mono.
  - apply process_suggestions_tabs. split; [reflexivity | exact Hfresh].
  - intros [[]|] m' Hm'; [apply wp_gets|]; exact Hm'.
Qed.

Lemma search_restores_tabs_witness :
  tabs (searchInstagramForCreators plain_cfg (alice_query SendNoInput)
          "career tips" (boot ∅)).2
  = [(0, MainPage)].
Proof.
  apply (search_restores_tabs plain_cfg (alice_query SendNoInput) "career tips"
           (boot ∅)).
  apply Forall_cons. split; [cbn; lia | apply Forall_nil_2].
Defined.

(* ===================================================================== *)
(** ** The scope of a follow-up sweep *)
(* ===================================================================== *)

Lemma followup_creator_other (env : FollowEnv) (c : Creator) (h : string)
    (entry : option CreatorState) :
  c_handle c ≠ h ->
  preserves (untouched_by_sweep h entry) (followup_creator env c).
Proof.
  intros Hne m (Hs & Hf & Hl & Hp). unfold followup_creator.
  wp_exec; unfold untouched_by_sweep; machine_simpl;
    (split; [|split; [|split; [|exact Hp]]];
     [ rewrite ?lookup_alter_ne by exact Hne; assumption
     | first [ assumption
             | unfold own_properties; machine_simpl; rewrite Hp;
               rewrite ?lookup_alter_ne by exact Hne; assumption ]
     | repeat (apply Forall_cons; split;
               [split; intros E; first [discriminate E | injection E as E; contradiction]|]);
       assumption ]).
Qed.

Lemma followup_creators_other (envs : nat -> FollowEnv) (i : nat)
    (creators : list Creator) (h : string) (entry : option CreatorState) :
  h ∉ map c_handle creators ->
  preserves (untouched_by_sweep h entry) (followup_creators envs i creators).
Proof.
  revert i. induction creators as [|c rest IH]; intros i Hout;
    cbn [followup_creators].
  - apply preserves_ret.
  - cbn [map] in Hout. apply not_elem_of_cons in Hout as [Hne Hrest].
    apply preserves_bind.
    + apply followup_creator_other. congruence.
    + intros _. apply IH, Hrest.
Qed.

(** X17: a follow-up run looks only at the handles of the creators list
    ([discovered-creators.json]). For a handle that is not in that list,
    whatever its record says, the run does not check for a reply, sends no
    follow-up and leaves the record in the file as it was. *)
Theorem sweep_visits_listed_creators_only (cfg : Config) (env : FollowupEnv)
    (file : gmap string CreatorState) (h : string) :
  h ∉ map c_handle (fu_creators env) ->
  let m := exec_run cfg (FollowupRun env) file in
  state_file m !! h = file !! h
  /\ Forall (fun e => e <> CheckReply h /\ e <> FollowUp h) (log m).
Proof.
  intros Hout m.
  assert (H : untouched_by_sweep h (file !! h) m).
  2: { destruct H as (_ & Hf & Hl & _). split; assumption. }
  subst m. unfold exec_run. cbn [run_program]. unfold runFollowup.
  assert (H0 : untouched_by_sweep h (file !! h) (boot file)).
  { split; [reflexivity|]. split; [reflexivity|].
    split; [apply Forall_nil_2 | reflexivity]. }
  destruct (fu_creators env) as [|c rest] eqn:Hc; [exact H0|].
  apply (guarded_run_preserves (untouched_by_sweep h (file !! h))); [..|exact H0].
  - unfold untouched_by_sweep. intros m0 m' -> -> -> ->. exact id.
  - intros m0 (Hs & _ & Hl & Hp).
    split; [exact Hs|]. split; [|split; [exact Hl | exact Hp]].
    cbn [save_state state_file with_state_file]. unfold own_properties.
    rewrite Hp. exact Hs.
  - apply followup_creators_other. exact Hout.
Qed.

Lemma sweep_visits_listed_creators_only_witness :
  let m := exec_run plain_cfg (FollowupRun (alice_sweep (rows 1) 4)) bob_file in
  state_file m !! "bob_dev" = bob_file !! "bob_dev"
  /\ Forall (fun e => e <> CheckReply "bob_dev" /\ e <> FollowUp "bob_dev") (log m).
Proof.
  apply (sweep_visits_listed_creators_only plain_cfg (alice_sweep (rows 1) 4)
           bob_file "bob_dev").
  cbn. rewrite !elem_of_cons.
  intros [H|[H|H]]; [discriminate H | discriminate H | inversion H].
Defined.

(* ===================================================================== *)
(** ** The dashboard and the report *)
(* ===================================================================== *)

Lemma tally_counts (now : Z) (entries : Entries) (t : Tally) :
  let t' := fold_left (tally_entry now) entries t in
  (t_api t + t_ig t = t_totalSent t -> t_api t' + t_ig t' = t_totalSent t')
  /\ (length (t_followUpDue t) <= t_totalSent t ->
      length (t_followUpDue t') <= t_totalSent t')
  /\ t_totalSent t' + t_totalScreenedOut t'
     <= t_totalSent t + t_totalScreenedOut t + length entries
  /\ (Forall (fun p => (3 <= p.2)%Z) (t_followUpDue t) ->
      Forall (fun p => (3 <= p.2)%Z) (t_followUpDue t')).
Proof.
  revert t. induction entries as [|[handle data] rest IH]; intros t; cbn [fold_left].
  - cbn [length]. repeat split; auto; lia.
  - destruct (IH (tally_entry now t (handle, data))) as (IH1 & IH2 & IH3 & IH4).
    cbv zeta in *. cbn [length].
    assert (Hstep :
      (t_api t + t_ig t = t_totalSent t ->
       t_api (tally_entry now t (handle, data))
       + t_ig (tally_entry now t (handle, data))
       = t_totalSent (tally_entry now t (handle, data)))
      /\ (length (t_followUpDue t) <= t_totalSent t ->
          length (t_followUpDue (tally_entry now t (handle, data)))
          <= t_totalSent (tally_entry now t (handle, data)))
      /\ t_totalSent (tally_entry now t (handle, data))
         + t_totalScreenedOut (tally_entry now t (handle, data))
         <= S (t_totalSent t + t_totalScreenedOut t)
      /\ (Forall (fun p => (3 <= p.2)%Z) (t_followUpDue t) ->
          Forall (fun p => (3 <= p.2)%Z)
                 (t_followUpDue (tally_entry now t (handle, data))))).
    { unfold tally_entry, follow_up_is_due.
      destruct (sent data), (skipped data), (source_is "api" data),
        (replied data), (followedUp data),
        (Z.leb_spec 3 (daysDiff now data));
        cbn [t_api t_ig t_totalSent t_totalScreenedOut t_followUpDue andb negb];
        rewrite ?length_app; cbn [length];
        (split; [|split; [|split]]); intros; try lia; try assumption;
        apply Forall_app; (split; [assumption|]);
        apply Forall_cons; (split; [assumption | apply Forall_nil_2]). }
    destruct Hstep as (S1 & S2 & S3 & S4).
    repeat split; auto; lia.
Qed.

(** X18: the counters of the dashboard server, whatever the state file
    holds. The two source counts add up to the number of messages sent;
    the follow-ups due are at most as many, and each is at least three
    days old; sent and screened-out together never exceed the number of
    handles processed. *)
Theorem dashboard_counts (now : Z) (file : option Entries) :
  let s := getStats now file in
  sourceBreakdown_api s + sourceBreakdown_ig s = totalSent s
  /\ followUpDue s <= totalSent s
  /\ Forall (fun p => (3 <= p.2)%Z) (followUpList s)
  /\ totalSent s + totalScreenedOut s <= totalProcessed s.
Proof.
  destruct file as [entries|]; cbn.
  - destruct (tally_counts now entries empty_tally) as (H1 & H2 & H3 & H4).
    cbv zeta in *. cbn in H1, H2, H3, H4.
    repeat split; auto; try (apply H2; lia).
  - repeat split; auto.
Qed.

Lemma wf_source (r : CreatorState) (src : string) :
  wf_record r = true -> src ≠ "ig" -> source_is src r = false.
Proof.
  unfold wf_record, source_is. intros H Hne.
  apply andb_true_iff in H as [_ H].
  destruct (source r) as [s|]; [|reflexivity].
  apply String.eqb_eq in H. subst s.
  apply String.eqb_neq. congruence.
Qed.

Lemma wf_unsent_skipped (r : CreatorState) :
  wf_record r = true -> sent r = false -> skipped r = true.
Proof.
  unfold wf_record. intros H Hs. rewrite Hs in H.
  repeat (apply andb_true_iff in H as [H ?]). assumption.
Qed.

Lemma wf_source_or_api (r : CreatorState) :
  wf_record r = true -> source_or_api r ≠ "ig-search".
Proof.
  unfold wf_record, source_or_api. intros H.
  apply andb_true_iff in H as [_ H].
  destruct (source r) as [s|]; [|discriminate].
  apply String.eqb_eq in H. subst s. cbn. discriminate.
Qed.

Lemma tally_written (now : Z) (entries : Entries) (t : Tally) :
  Forall (fun e => wf_record e.2 = true) entries ->
  let t' := fold_left (tally_entry now) entries t in
  t_api t' = t_api t
  /\ t_ig t' + t_totalSent t = t_ig t + t_totalSent t'
  /\ t_totalSent t' + t_totalScreenedOut t'
     = t_totalSent t + t_totalScreenedOut t + length entries.
Proof.
  intros Hwf. revert t.
  induction Hwf as [|[handle data] rest Hd _ IH]; intros t; cbn [fold_left length].
  - repeat split; lia.
  - destruct (IH (tally_entry now t (handle, data))) as (IH1 & IH2 & IH3).
    cbv zeta in *. cbn [snd] in Hd.
    pose proof (wf_source data "api" Hd) as Hapi.
    pose proof (wf_unsent_skipped data Hd) as Hsk.
    unfold tally_entry in *. rewrite Hapi in *; [|discriminate..].
    destruct (sent data).
    + cbn [t_api t_ig t_totalSent t_totalScreenedOut] in *.
      repeat split; lia.
    + rewrite Hsk in * by reflexivity.
      cbn [t_api t_ig t_totalSent t_totalScreenedOut] in *.
      repeat split; lia.
Qed.

Lemma report_written (entries : Entries) (r : Report) :
  Forall (fun e => wf_record e.2 = true) entries ->
  let r' := fold_left report_entry entries r in
  igSearchSent r' = igSearchSent r
  /\ (Forall (fun s => s.2 ≠ "ig-search") (screenedOut r) ->
      Forall (fun s => s.2 ≠ "ig-search") (screenedOut r')).
Proof.
  intros Hwf. revert r.
  induction Hwf as [|[handle info] rest Hd _ IH]; intros r; cbn [fold_left].
  - split; auto.
  - destruct (IH (report_entry r (handle, info))) as (IH1 & IH2).
    cbv zeta in *. cbn [snd] in Hd.
    pose proof (wf_source info "ig-search" Hd) as Hig.
    pose proof (wf_source_or_api info Hd) as Hsrc.
    unfold report_entry in *. rewrite Hig in *; [|discriminate..].
    destruct (sent info); [|destruct (is_screened_out info)];
      cbn [apiSent igSearchSent screenedOut] in *;
      (split; [exact IH1|]); intros Hr; apply IH2; try exact Hr.
    apply Forall_app. split; [exact Hr|].
    apply Forall_cons. split; [exact Hsrc | apply Forall_nil_2].
Qed.

Lemma report_sent_count (now : Z) (entries : Entries) (r : Report) (t : Tally) :
  let r' := fold_left report_entry entries r in
  let t' := fold_left (tally_entry now) entries t in
  length (apiSent r) + length (igSearchSent r) = t_totalSent t ->
  length (apiSent r') + length (igSearchSent r') = t_totalSent t'.
Proof.
  revert r t. induction entries as [|[handle info] rest IH]; intros r t;
    cbn [fold_left]; [exact id|].
  cbv zeta in *. intros H. apply IH.
  unfold report_entry, tally_entry.
  destruct (sent info); [|destruct (is_screened_out info), (skipped info)];
    cbn [apiSent igSearchSent t_totalSent]; try exact H.
  destruct (source_is "ig-search" info);
    cbn [apiSent igSearchSent]; rewrite length_app; cbn [length]; lia.
Qed.

Lemma filter_none {A} (P : A -> Prop) `{forall x, Decision (P x)} (l : list A) :
  Forall (fun x => ~ P x) l -> filter P l = [].
Proof.
  induction 1 as [|x l Hx _ IH]; [reflexivity|].
  rewrite filter_cons_False by exact Hx. exact IH.
Qed.

(** X19: how the two reports attribute the messages of a file the program
    wrote. Take the entries of a state file that runs of the program made
    out of a well-shaped file (an empty one, for one). The dashboard
    server counts no message as coming from the API and every message as
    coming from Instagram search, also those of the API send run; the
    campaign report does the reverse: its list of Instagram-search sends is
    empty and every message is listed under API discovery, and so is every
    screening rejection. On such a file sent and screened-out add up to
    the total processed. *)
Theorem attribution_on_written_files (cfg : Config) (rs : list Run)
    (file : gmap string CreatorState) (entries : Entries) (now : Z) :
  all_records (fun r => wf_record r = true) file ->
  (forall h r, (h, r) ∈ entries -> (exec_runs cfg rs file).2 !! h = Some r) ->
  let s := getStats now (Some entries) in
  let rep := generate_reports entries in
  sourceBreakdown_api s = 0
  /\ sourceBreakdown_ig s = totalSent s
  /\ totalSent s + totalScreenedOut s = totalProcessed s
  /\ igSearchSent rep = []
  /\ length (apiSent rep) = totalSent s
  /\ igScreened rep = [].
Proof.
  intros Hfile Hentries s rep.
  assert (Hwf : Forall (fun e => wf_record e.2 = true) entries).
  { apply Forall_forall. intros [h r] Hin. cbn [snd].
    assert (Hend : all_records (fun r => wf_record r = true)
                     (exec_runs cfg rs file).2).
    { revert Hfile. clear. revert file.
      apply (exec_runs_file (all_records (fun r => wf_record r = true))).
      intros r file. apply exec_run_wf. }
    apply (Hend h), Hentries, Hin. }
  destruct (tally_written now entries empty_tally Hwf) as (T1 & T2 & T3).
  destruct (report_written entries
              {| apiSent := []; igSearchSent := []; screenedOut := [] |} Hwf)
    as (R1 & R2).
  pose proof (report_sent_count now entries
                {| apiSent := []; igSearchSent := []; screenedOut := [] |}
                empty_tally eq_refl) as R3.
  cbv zeta in *. subst s rep. unfold getStats, generate_reports.
  cbn [sourceBreakdown_api sourceBreakdown_ig totalSent totalScreenedOut
       totalProcessed] in *.
  cbn [t_api t_ig t_totalSent t_totalScreenedOut empty_tally igSearchSent
       apiSent screenedOut] in T1, T2, T3, R1, R2, R3.
  rewrite R1 in R3. cbn [length] in R3.
  repeat split; try lia; try assumption.
  unfold igScreened. apply filter_none.
  eapply Forall_impl; [apply R2, Forall_nil_2|].
  intros x Hx. exact Hx.
Qed.

Lemma attribution_on_written_files_witness :
  let entries :=
    [("alice_grad", send_record true 1700000000000 post_a None)] in
  let s := getStats 1700500000000 (Some entries) in
  let rep := generate_reports entries in
  sourceBreakdown_api s = 0
  /\ sourceBreakdown_ig s = totalSent s
  /\ totalSent s + totalScreenedOut s = totalProcessed s
  /\ igSearchSent rep = []
  /\ length (apiSent rep) = totalSent s
  /\ igScreened rep = [].
Proof.
  apply (attribution_on_written_files plain_cfg [SendRun (alice_send SendAll)] ∅).
  - intros h r Hr. rewrite lookup_empty in Hr. discriminate Hr.
  - intros h r Hin. apply list_elem_of_singleton in Hin.
    injection Hin as -> ->. vm_compute. reflexivity.
Defined.

Lemma sum_days_from (f : DayGroup -> nat) (byDate : list (string * DayGroup))
    (a : nat) :
  fold_left (fun total dg => total + f dg.2) byDate a = a + sum_days f byDate.
Proof.
  unfold sum_days. revert a.
  induction byDate as [|dg rest IH]; intros a; cbn [fold_left]; [lia|].
  rewrite (IH (a + f dg.2)), (IH (0 + f dg.2)). lia.
Qed.

Lemma sum_days_cons (f : DayGroup -> nat) (d : string) (g : DayGroup)
    (rest : list (string * DayGroup)) :
  sum_days f ((d, g) :: rest) = f g + sum_days f rest.
Proof. unfold sum_days at 1. cbn [fold_left]. rewrite sum_days_from. reflexivity. Qed.

(** An update of one day adds to a total what it adds to that day. *)
Lemma sum_days_update (f : DayGroup -> nat) (u : DayGroup -> DayGroup) (k : nat)
    (date : string) (byDate : list (string * DayGroup)) :
  f empty_day = 0 ->
  (forall g, f (u g) = f g + k) ->
  sum_days f (update_day date u byDate) = sum_days f byDate + k.
Proof.
  intros H0 Hu. induction byDate as [|[d g] rest IH]; cbn [update_day].
  - rewrite sum_days_cons, Hu, H0. unfold sum_days. cbn [fold_left]. lia.
  - destruct (String.eqb d date); rewrite !sum_days_cons.
    + rewrite Hu. lia.
    + rewrite IH. lia.
Qed.

Lemma group_tally (date_of : Z -> string) (now : Z) (entries : Entries)
    (byDate : list (string * DayGroup)) (due : list (string * Z)) (t : Tally) :
  let acc := fold_left (group_entry date_of now) entries (byDate, due) in
  let t' := fold_left (tally_entry now) entries t in
  sum_days (fun g => length (dg_sent g)) byDate = t_totalSent t ->
  sum_days (fun g => length (dg_screenedOut g)) byDate = t_totalScreenedOut t ->
  sum_days dg_api byDate = t_api t ->
  sum_days dg_ig byDate = t_ig t ->
  due = t_followUpDue t ->
  sum_days (fun g => length (dg_sent g)) acc.1 = t_totalSent t'
  /\ sum_days (fun g => length (dg_screenedOut g)) acc.1 = t_totalScreenedOut t'
  /\ sum_days dg_api acc.1 = t_api t'
  /\ sum_days dg_ig acc.1 = t_ig t'
  /\ acc.2 = t_followUpDue t'.
Proof.
  revert byDate due t.
  induction entries as [|[handle data] rest IH]; intros byDate due t;
    cbn [fold_left]; cbv zeta.
  - intros. repeat split; assumption.
  - intros H1 H2 H3 H4 H5.
    unfold group_entry at 2 4 6 8 10. unfold tally_entry at 2 4 6 8 10.
    destruct (sent data); [|destruct (skipped data)].
    + apply IH; cbn [t_totalSent t_totalScreenedOut t_api t_ig t_followUpDue].
      * rewrite (sum_days_update _ _ 1); [lia | reflexivity |].
        intros g. cbn. rewrite length_app. reflexivity.
      * rewrite (sum_days_update _ _ 0); [lia | reflexivity |].
        intros g. cbn. lia.
      * destruct (source_is "api" data).
        -- rewrite (sum_days_update _ _ 1); [lia | reflexivity |].
           intros g. cbn. lia.
        -- rewrite (sum_days_update _ _ 0); [lia | reflexivity |].
           intros g. cbn. lia.
      * destruct (source_is "api" data).
        -- rewrite (sum_days_update _ _ 0); [lia | reflexivity |].
           intros g. cbn. lia.
        -- rewrite (sum_days_update _ _ 1); [lia | reflexivity |].
           intros g. cbn. lia.
      * rewrite H5. reflexivity.
    + apply IH; cbn [t_totalSent t_totalScreenedOut t_api t_ig t_followUpDue].
      * rewrite (sum_days_update _ _ 0); [lia | reflexivity |].
        intros g. cbn. lia.
      * rewrite (sum_days_update _ _ 1); [lia | reflexivity |].
        intros g. cbn. rewrite length_app. reflexivity.
      * rewrite (sum_days_update _ _ 0); [lia | reflexivity |].
        intros g. cbn. lia.
      * rewrite (sum_days_update _ _ 0); [lia | reflexivity |].
        intros g. cbn. lia.
      * exact H5.
    + apply IH; assumption.
Qed.

(** X20: the static dashboard and the dashboard server agree. The static
    page sums its totals over the days it grouped the entries by; whatever
    the dates and however they are formatted, its totals of sent,
    screened-out, API and Instagram messages, its list of follow-ups due
    and its total processed are those [getStats] counts directly. *)
Theorem dashboards_agree (date_of : Z -> string) (now : Z) (entries : Entries) :
  let d := generate_dashboard date_of now entries in
  let s := getStats now (Some entries) in
  d_totalSent d = totalSent s
  /\ d_totalScreenedOut d = totalScreenedOut s
  /\ d_totalApiSent d = sourceBreakdown_api s
  /\ d_totalIgSent d = sourceBreakdown_ig s
  /\ d_followUpDue d = followUpList s
  /\ d_totalProcessed d = totalProcessed s.
Proof.
  intros d s. subst d s. unfold generate_dashboard, getStats.
  destruct (group_tally date_of now entries [] [] empty_tally)
    as (H1 & H2 & H3 & H4 & H5); try reflexivity.
  destruct (fold_left (group_entry date_of now) entries ([], [])) as [byDate due].
  cbn in *. repeat split; assumption.
Qed.

(** Three whole days have passed exactly when the difference is not below
    the window of the sweep. *)
Lemma three_days_iff_window (x : Z) :
  (3 <=? x / day_ms)%Z = negb (x <? followup_window)%Z.
Proof.
  unfold day_ms, followup_window.
  destruct (Z.leb_spec 3 (x / (1000 * 60 * 60 * 24))) as [H|H],
           (Z.ltb_spec x (3 * (1000 * 60 * 60 * 24))) as [H'|H'];
    try reflexivity; exfalso.
  - apply (Z.div_lt_upper_bound x (1000 * 60 * 60 * 24) 3) in H'; lia.
  - apply (Z.div_le_lower_bound x (1000 * 60 * 60 * 24) 3) in H'; lia.
Qed.

(** X21: the dashboard and the sweep agree on when a follow-up is due.
    For a record marked sent and not marked replied, in a sweep at the
    time of the dashboard in which the thread shows no reply, nothing
    throws and the follow-up can be typed: the sweep sends a follow-up to
    the handle exactly when the dashboard lists it as due. *)
Theorem dashboard_due_matches_sweep (env : FollowEnv) (c : Creator) (m : Machine)
    (s : CreatorState) :
  state m !! c_handle c = Some s ->
  sent s = true ->
  replied s = false ->
  checkReply_result (thread env) = {| rr_replied := false; rr_error := false |} ->
  followup env = FollowupSubmitted ->
  f_raises env BrowseFeed = false ->
  f_raises env SearchAndOpen = false ->
  let m' := (followup_creator env c m).2 in
  occurrences (FollowUp (c_handle c)) (log m')
  = (if follow_up_is_due (date_now env) s then 1 else 0)
    + occurrences (FollowUp (c_handle c)) (log m).
Proof.
  intros Hs Hsent Hrep Hres Hsub Hb Ho.
  apply (wp_run (followup_creator env c)
           (fun _ m' =>
              occurrences (FollowUp (c_handle c)) (log m')
              = (if follow_up_is_due (date_now env) s then 1 else 0)
                + occurrences (FollowUp (c_handle c)) (log m))).
  unfold follow_up_is_due, daysDiff. rewrite three_days_iff_window, Hrep.
  unfold followup_creator. unfold lookup_state. apply wp_bind, wp_gets.
  rewrite Hs, Hsent, Hres, Hsub. cbn [negb rr_replied rr_error andb].
  wp_exec; try congruence;
    repeat match goal with
           | H : negb _ = true |- _ => apply negb_true_iff in H
           | H : negb _ = false |- _ => apply negb_false_iff in H
           end;
    repeat match goal with
           | H : followedUp s = _ |- _ => rewrite H
           | H : (_ <? _)%Z = _ |- _ => rewrite H
           end;
    cbn [negb andb occurrences event_eqb];
    rewrite ?String.eqb_refl; reflexivity.
Qed.

Lemma dashboard_due_matches_sweep_witness :
  let m := boot sent_file in
  let m' := (followup_creator (sweep_env (rows 1) 4) alice_creator m).2 in
  occurrences (FollowUp "alice_grad") (log m') = 1.
Proof.
  apply (dashboard_due_matches_sweep (sweep_env (rows 1) 4) alice_creator
           (boot sent_file)
           (send_record true 1699000000000 post_a (Some "ig")));
    reflexivity.
Defined.

(* ===================================================================== *)
(** ** Typing *)
(* ===================================================================== *)

(** Beyond ASCII nothing is in the class of [PRESSABLE]. *)
Lemma PRESSABLE_beyond_ascii (c : N) : (128 <= c)%N -> PRESSABLE c = false.
Proof.
  intros H. unfold PRESSABLE, N_in_range.
  assert (Hp : existsb (N.eqb c) PRESSABLE_punctuation = false).
  { assert (Hall : Forall (fun k => (k < 128)%N) PRESSABLE_punctuation).
    { apply Forall_forall. intros k Hk.
      assert (Hb : forallb (fun k => (k <? 128)%N) PRESSABLE_punctuation = true)
        by (vm_compute; reflexivity).
      rewrite forallb_forall in Hb. apply N.ltb_lt, Hb.
      apply list_elem_of_In, Hk. }
    induction Hall as [|k l Hk _ IH]; [reflexivity|].
    cbn [existsb]. rewrite IH, orb_false_r. apply N.eqb_neq. lia. }
  rewrite Hp, orb_false_r.
  repeat (apply orb_false_iff; split);
    apply andb_false_iff; right; apply N.leb_gt; lia.
Qed.

(** Within ASCII the class is checked code by code. *)
Lemma PRESSABLE_within_ascii (c : N) :
  (c < 128)%N -> PRESSABLE c = N_in_range 32 126 c.
Proof.
  intros H.
  assert (Hb : forallb (fun n => Bool.eqb (PRESSABLE (N.of_nat n))
                                   (N_in_range 32 126 (N.of_nat n)))
                 (seq 0 128) = true) by (vm_compute; reflexivity).
  rewrite forallb_forall in Hb.
  specialize (Hb (N.to_nat c)). rewrite N2Nat.id in Hb.
  apply Bool.eqb_prop, Hb. apply in_seq. lia.
Qed.

(** X22: the keys [humanType] presses are those of printable ASCII. The
    class of [PRESSABLE] (letters, digits, the space and the punctuation
    listed in the pattern) holds exactly the code units 32 to 126, so
    every printable ASCII character is pressed as a key and every other
    one goes through [insertText]. *)
Theorem PRESSABLE_is_printable_ascii (c : N) :
  PRESSABLE c = N_in_range 32 126 c.
Proof.
  destruct (N.lt_ge_cases c 128) as [H|H].
  - apply PRESSABLE_within_ascii, H.
  - rewrite PRESSABLE_beyond_ascii by exact H.
    unfold N_in_range. symmetry. apply andb_false_iff. right.
    apply N.leb_gt. lia.
Qed.

Lemma key_is_not_named (a : ascii) (name : string) :
  (1 < String.length name)%nat ->
  String.eqb (String a EmptyString) name = false.
Proof.
  intros H. apply String.eqb_neq. intros E. rewrite <- E in H. cbn in H. lia.
Qed.

Lemma typed_unit_type_unit (c : N) : typed_unit (type_unit c) = [c].
Proof.
  unfold type_unit.
  destruct (N.eqb_spec c 10) as [->|H10]; [reflexivity|].
  destruct (PRESSABLE c) eqn:Hp; [|reflexivity].
  destruct (N.eqb_spec c 32) as [->|H32]; [reflexivity|].
  cbn [typed_unit]. rewrite !key_is_not_named by (cbn; lia).
  rewrite N_ascii_embedding; [reflexivity|].
  destruct (N.lt_ge_cases c 128) as [H|H]; [lia|].
  rewrite PRESSABLE_beyond_ascii in Hp by exact H. discriminate Hp.
Qed.

(** X23: [humanType] types the text it is given and never submits it. The
    key actions put the code units of the text into the text box, in
    order and one action for each; a line break is typed as Shift+Enter;
    the Enter key on its own, which sends the message, is never pressed;
    and [insertText] is used only for code units outside printable ASCII. *)
Theorem humanType_types_the_text (text : list N) :
  typed_text (humanType text) = text
  /\ length (humanType text) = length text
  /\ Forall (fun a => a <> Press "Enter") (humanType text)
  /\ Forall (fun a => match a with
                      | InsertText c => N_in_range 32 126 c = false
                      | Press _ => True
                      end)
            (humanType text).
Proof.
  unfold humanType, typed_text. split; [|split; [|split]].
  - induction text as [|c rest IH]; [reflexivity|].
    cbn [map concat]. rewrite typed_unit_type_unit, IH. reflexivity.
  - apply length_map.
  - apply Forall_map, Forall_forall. intros c _. unfold type_unit.
    destruct (c =? 10)%N; [discriminate|].
    destruct (PRESSABLE c); [|discriminate].
    destruct (c =? 32)%N; [discriminate|].
    intros E. injection E as _ E. discriminate E.
  - apply Forall_map, Forall_forall. intros c _. unfold type_unit.
    destruct (c =? 10)%N; [exact Logic.I|].
    destruct (PRESSABLE c) eqn:Hp; [exact Logic.I|].
    destruct (N.lt_ge_cases c 128) as [H|H].
    + rewrite <- PRESSABLE_within_ascii by exact H. exact Hp.
    + unfold N_in_range. apply andb_false_iff. right. apply N.leb_gt. lia.
Qed.

(* ===================================================================== *)
(** ** Times and first lines *)
(* ===================================================================== *)

(** X24: what [getTimeAgo] shows is in range and accurate. Minutes are
    shown from 1 to 59, hours from 1 to 23, days from 1 on; the number
    shown is the age of the time stamp rounded down to that unit; and an
    age below a minute, or a time stamp in the future, reads "just now". *)
Theorem getTimeAgo_is_accurate (now timestamp : Z) :
  match getTimeAgo now timestamp with
  | JustNow => (now - timestamp < 60000)%Z
  | MinAgo n =>
      (1 <= n <= 59 /\ n * 60000 <= now - timestamp < (n + 1) * 60000)%Z
  | HrAgo n =>
      (1 <= n <= 23 /\ n * 3600000 <= now - timestamp < (n + 1) * 3600000)%Z
  | DaysAgo n =>
      (1 <= n /\ n * 86400000 <= now - timestamp < (n + 1) * 86400000)%Z
  end.
Proof.
  unfold getTimeAgo. cbv zeta.
  set (x := (now - timestamp)%Z).
  destruct (Z.ltb_spec (x / 1000) 60) as [H1|H1];
    [|destruct (Z.ltb_spec (x / 1000) 3600) as [H2|H2];
      [|destruct (Z.ltb_spec (x / 1000) 86400) as [H3|H3]]];
    Z.div_mod_to_equations; lia.
Qed.

Lemma pick_hook_empty (hooks : list (string * string)) (hook : string) :
  Forall (fun e => e.1 <> "") hooks -> pick_hook "" hooks hook = hook.
Proof.
  induction 1 as [|[keyword text] rest Hk _ IH]; [reflexivity|].
  cbn [pick_hook]. rewrite IH.
  destruct (String.eqb keyword "default"); [reflexivity|].
  destruct keyword as [|c k]; [contradiction Hk; reflexivity|]. reflexivity.
Qed.

(** X25: the search pipeline sends the same first line to everyone. It
    calls [generateFirstLine] with no name, no description and no caption,
    so no keyword of [HOOKS] is found and the hook is the default one; the
    line differs only in the greeting, "Hey bro!" for a profile screened
    as male and "Hey!" otherwise. No key of [HOOKS] is the empty string. *)
Theorem first_line_of_search_pipeline (hooks : list (string * string))
    (selfIntro gender : string) :
  Forall (fun e => e.1 <> "") hooks ->
  generateFirstLine hooks selfIntro search_creator gender
  = (if String.eqb gender "male" then "Hey bro!" else "Hey!")
    +:+ " just came across your reel and " +:+ default_hook hooks
    +:+ (if truthy selfIntro then ". " +:+ selfIntro else "").
Proof.
  intros Hkeys. unfold generateFirstLine, search_creator.
  cbn [ci_name ci_description ci_caption or_string truthy take_string
       toLowerCase map_string].
  rewrite pick_hook_empty by exact Hkeys. reflexivity.
Qed.

Lemma first_line_of_search_pipeline_witness :
  generateFirstLine HOOKS "" search_creator "male"
  = "Hey bro! just came across your reel and your content is genuinely helpful".
Proof.
  apply (first_line_of_search_pipeline HOOKS "" "male").
  repeat (apply Forall_cons; split; [discriminate|]). apply Forall_nil_2.
Defined.

(* ===================================================================== *)
(** ** Messages arrive as written *)
(* ===================================================================== *)

Lemma type_unit_not_Enter (c : N) :
  match type_unit c with Press key => String.eqb key "Enter" | _ => false end
  = false.
Proof.
  unfold type_unit.
  destruct (c =? 10)%N; [reflexivity|].
  destruct (PRESSABLE c); [|reflexivity].
  destruct (c =? 32)%N; [reflexivity|].
  apply key_is_not_named. cbn. lia.
Qed.

Lemma message_box_humanType (box text : list N) (rest : list KeyAction) :
  message_box box (humanType text ++ rest) = message_box (box ++ text) rest.
Proof.
  revert box. induction text as [|c text IH]; intros box.
  - cbn. rewrite app_nil_r. reflexivity.
  - cbn [humanType map app message_box].
    rewrite type_unit_not_Enter, typed_unit_type_unit.
    fold (humanType text). rewrite IH, <- app_assoc. reflexivity.
Qed.

(** X26: the messages arrive as written. When [sendMessages] types its
    messages, none of them empty, into the message box, the box sends
    exactly these messages, in order, each as one message and unchanged
    (line breaks and characters outside ASCII included), and is empty at
    the end. *)
Theorem messages_arrive_as_written (messages : list (list N)) :
  Forall (fun message => message <> []) messages ->
  message_box [] (type_messages messages) = (messages, []).
Proof.
  induction 1 as [|message rest Hne _ IH]; [reflexivity|].
  unfold type_messages in *. cbn [map concat].
  rewrite <- app_assoc, message_box_humanType. cbn [app message_box].
  rewrite String.eqb_refl, IH.
  destruct message; [contradiction Hne; reflexivity | reflexivity].
Qed.

Lemma messages_arrive_as_written_witness :
  message_box [] (type_messages [[72; 105; 10; 8212]; [63]])%N
  = ([[72; 105; 10; 8212]; [63]], [])%N.
Proof.
  apply messages_arrive_as_written.
  repeat (apply Forall_cons; split; [discriminate|]). apply Forall_nil_2.
Defined.

(* ===================================================================== *)
(** ** Discovery *)
(* ===================================================================== *)

Lemma insert_by_index_perm (n : N) (e : Discovered) (l : list (N * Discovered)) :
  insert_by_index n e l ≡ₚ (n, e) :: l.
Proof.
  induction l as [|[n' e'] rest IH]; cbn [insert_by_index]; [reflexivity|].
  destruct (n <? n')%N; [reflexivity|].
  rewrite IH. apply Permutation_swap.
Qed.

Lemma object_values_perm (creatorMap : list (string * Discovered)) :
  object_values creatorMap ≡ₚ map snd creatorMap.
Proof.
  unfold object_values.
  assert (Hgen : forall acc,
    map snd (fold_left
               (fun acc p => match array_index p.1 with
                             | Some n => insert_by_index n p.2 acc
                             | None => acc
                             end) creatorMap acc)
    ++ map snd (filter (fun p => array_index p.1 = None) creatorMap)
    ≡ₚ map snd acc ++ map snd creatorMap).
  { induction creatorMap as [|[k e] rest IH]; intros acc; cbn [fold_left].
    - reflexivity.
    - cbn [fst snd map].
      destruct (array_index k) as [n|] eqn:Hk.
      + rewrite filter_cons_False by (cbn; congruence).
        rewrite IH, insert_by_index_perm. cbn [map snd].
        rewrite <- Permutation_middle. reflexivity.
      + rewrite filter_cons_True by (cbn; exact Hk).
        cbn [map snd]. rewrite <- Permutation_middle, IH.
        rewrite <- Permutation_middle. reflexivity. }
  rewrite (Hgen []). reflexivity.
Qed.

Lemma insert_by_weight_perm (e : Discovered) (l : list Discovered) :
  insert_by_weight e l ≡ₚ e :: l.
Proof.
  induction l as [|e' rest IH]; cbn [insert_by_weight]; [reflexivity|].
  destruct (weight e' <? weight e)%nat; [reflexivity|].
  rewrite IH. apply Permutation_swap.
Qed.

Lemma sort_by_weight_perm (l : list Discovered) : sort_by_weight l ≡ₚ l.
Proof.
  unfold sort_by_weight.
  assert (Hgen : forall acc,
    fold_left (fun sorted e => insert_by_weight e sorted) l acc ≡ₚ acc ++ l).
  { induction l as [|e rest IH]; intros acc; cbn [fold_left].
    - rewrite app_nil_r. reflexivity.
    - rewrite IH, insert_by_weight_perm. rewrite <- Permutation_middle. reflexivity. }
  rewrite (Hgen []). reflexivity.
Qed.

Lemma elem_of_keys {A} (k : string) (e : A) (m : list (string * A)) :
  (k, e) ∈ m -> k ∈ map fst m.
Proof.
  induction m as [|[k' e'] rest IH]; intros H; [inversion H|].
  apply elem_of_cons in H as [H|H].
  - injection H as -> ->. left.
  - right. apply IH, H.
Qed.

Lemma update_entry_None (handle : string) (f : Discovered -> Discovered)
    (creatorMap : list (string * Discovered)) :
  update_entry handle f creatorMap = None <-> handle ∉ map fst creatorMap.
Proof.
  induction creatorMap as [|[k e] rest IH]; cbn [update_entry map fst].
  - split; [intros _ H; inversion H | reflexivity].
  - rewrite not_elem_of_cons.
    destruct (String.eqb_spec k handle) as [->|Hne].
    + split; [discriminate | intros [H _]; contradiction H; reflexivity].
    + destruct (update_entry handle f rest) as [rest'|].
      * split; [discriminate|]. intros [_ H]. apply IH in H. discriminate H.
      * split; [|reflexivity]. intros _. split; [congruence | apply IH; reflexivity].
Qed.

Lemma update_entry_Some_in (handle : string) (f : Discovered -> Discovered)
    (creatorMap creatorMap' : list (string * Discovered)) :
  update_entry handle f creatorMap = Some creatorMap' ->
  handle ∈ map fst creatorMap.
Proof.
  intros Hu. destruct (decide (handle ∈ map fst creatorMap)) as [H|H]; [exact H|].
  apply (update_entry_None handle f) in H. rewrite H in Hu. discriminate Hu.
Qed.

Lemma update_entry_Some (handle : string) (f : Discovered -> Discovered)
    (creatorMap creatorMap' : list (string * Discovered)) :
  update_entry handle f creatorMap = Some creatorMap' ->
  NoDup (map fst creatorMap) ->
  map fst creatorMap' = map fst creatorMap
  /\ (forall k e', (k, e') ∈ creatorMap' ->
        (k <> handle /\ (k, e') ∈ creatorMap)
        \/ (k = handle /\ exists e, (handle, e) ∈ creatorMap /\ e' = f e)).
Proof.
  revert creatorMap'.
  induction creatorMap as [|[k e] rest IH]; intros creatorMap';
    cbn [update_entry map fst]; [discriminate|].
  intros Hu Hnd. apply NoDup_cons in Hnd as [Hk Hnd].
  destruct (String.eqb_spec k handle) as [->|Hne].
  - injection Hu as <-. split; [reflexivity|].
    intros k e' Hin. apply elem_of_cons in Hin as [Hin|Hin].
    + injection Hin as -> ->. right. split; [reflexivity|].
      exists e. split; [left | reflexivity].
    + left. split; [|right; exact Hin].
      intros ->. apply Hk. apply (elem_of_keys _ _ _ Hin).
  - destruct (update_entry handle f rest) as [rest'|] eqn:Hr; [|discriminate].
    injection Hu as <-. destruct (IH rest' eq_refl Hnd) as [Hkeys Hrest].
    split; [cbn [map fst]; rewrite Hkeys; reflexivity|].
    intros k0 e' Hin. apply elem_of_cons in Hin as [Hin|Hin].
    + injection Hin as -> ->. left. split; [exact Hne | left].
    + destruct (Hrest _ _ Hin) as [[H1 H2] | [H1 (e0 & H2 & H3)]].
      * left. split; [exact H1 | right; exact H2].
      * right. split; [exact H1|]. exists e0. split; [right; exact H2 | exact H3].
Qed.

Lemma videos_of_snoc (h : string) (seen : list Video) (v : Video) :
  videos_of h (seen ++ [v])
  = videos_of h seen
    ++ (if decide (qualifies v = true /\ video_handle v = h) then [v] else []).
Proof.
  unfold videos_of. rewrite filter_app. reflexivity.
Qed.

Lemma max_list_snoc (l : list nat) (n : nat) :
  max_list (l ++ [n]) = max_list l `max` n.
Proof.
  induction l as [|a l IH]; cbn [app max_list].
  - rewrite Nat.max_0_r, Nat.max_0_l. reflexivity.
  - rewrite IH, Nat.max_assoc. reflexivity.
Qed.

Lemma qualifies_inv (v : Video) :
  qualifies v = true <->
  truthy (video_handle v) = true /\ (video_score v <? 2)%nat = false
  /\ is_inherited (video_handle v) = false.
Proof.
  unfold qualifies. rewrite !andb_true_iff, negb_true_iff, Nat.leb_le, Nat.ltb_ge.
  tauto.
Qed.

(** One video more. *)
Lemma discover_video_counts (seen : list Video)
    (creatorMap : list (string * Discovered)) (v : Video) :
  counts_videos seen creatorMap ->
  counts_videos (seen ++ [v]) (discover_video creatorMap v).
Proof.
  intros (Hnd & Hent & Hall).
  destruct (qualifies v) eqn:Hq.
  - (* the video counts *)
    pose proof (proj1 (qualifies_inv v) Hq) as (H1 & H2 & H3).
    unfold discover_video. cbv zeta. rewrite H1, H2, H3. cbn [negb].
    destruct (update_entry (video_handle v)
                (count_appearance (video_score v) v) creatorMap)
      as [creatorMap'|] eqn:Hu.
    + destruct (update_entry_Some _ _ _ _ Hu Hnd) as [Hkeys Hin'].
      split; [rewrite Hkeys; exact Hnd | split].
      * intros k e' Hin. rewrite videos_of_snoc.
        destruct (Hin' _ _ Hin) as [[Hk Hold] | [-> (e & Hold & ->)]].
        -- destruct (Hent _ _ Hold) as (E1 & E2 & E3 & E4).
           rewrite decide_False by (intros [_ E]; congruence).
           rewrite app_nil_r. auto.
        -- destruct (Hent _ _ Hold) as (E1 & E2 & E3 & E4).
           rewrite decide_True by (split; [exact Hq | reflexivity]).
           rewrite length_app, map_app. cbn [length map]. rewrite max_list_snoc.
           split; [exact E1 | split; [|split]].
           ++ intros E. apply app_eq_nil in E as [_ E]. discriminate E.
           ++ cbn [count_appearance d_appearances]. lia.
           ++ cbn [count_appearance d_careerScore]. rewrite <- E4.
              destruct (Nat.ltb_spec (d_careerScore e) (video_score v));
                symmetry; [apply Nat.max_r | apply Nat.max_l]; lia.
      * intros v' Hv' Hq'. rewrite Hkeys.
        apply elem_of_app in Hv' as [Hv'|Hv'%list_elem_of_singleton].
        -- apply Hall; assumption.
        -- subst v'. apply (update_entry_Some_in _ _ _ _ Hu).
    + apply update_entry_None in Hu.
      split; [|split].
      * rewrite map_app. cbn [map fst]. apply NoDup_app.
        split; [exact Hnd | split].
        -- intros k Hk Hk'. apply list_elem_of_singleton in Hk'. congruence.
        -- apply NoDup_singleton.
      * intros k e' Hin. rewrite videos_of_snoc.
        apply elem_of_app in Hin as [Hin|Hin%list_elem_of_singleton].
        -- destruct (Hent _ _ Hin) as (E1 & E2 & E3 & E4).
           rewrite decide_False.
           ++ rewrite app_nil_r. auto.
           ++ intros [_ E]. apply Hu. rewrite E.
              apply (elem_of_keys _ _ _ Hin).
        -- injection Hin as -> ->.
           rewrite decide_True by (split; [exact Hq | reflexivity]).
           assert (Hnone : videos_of (video_handle v) seen = []).
           { apply filter_none. apply Forall_forall. intros v' Hv' [Hq' E].
             apply Hu. rewrite <- E. apply Hall; assumption. }
           rewrite Hnone. cbn [app length map max_list].
           split; [reflexivity | split; [discriminate | split]].
           ++ reflexivity.
           ++ cbn [count_appearance new_entry d_careerScore].
              rewrite Nat.ltb_irrefl, Nat.max_0_r. reflexivity.
      * intros v' Hv' Hq'. rewrite map_app. apply elem_of_app.
        apply elem_of_app in Hv' as [Hv'|Hv'%list_elem_of_singleton].
        -- left. apply Hall; assumption.
        -- subst v'. right. left.
  - (* the video does not count *)
    assert (Hsame : discover_video creatorMap v = creatorMap).
    { unfold discover_video. cbv zeta.
      unfold qualifies in Hq.
      destruct (truthy (video_handle v)); [|reflexivity]. cbn [negb].
      destruct (Nat.ltb_spec (video_score v) 2) as [Hs|Hs]; [reflexivity|].
      destruct (is_inherited (video_handle v)); [reflexivity|].
      apply Nat.leb_le in Hs. rewrite Hs in Hq. discriminate Hq. }
    rewrite Hsame. split; [exact Hnd | split].
    + intros k e Hin. rewrite videos_of_snoc.
      rewrite decide_False by (intros [E _]; congruence).
      rewrite app_nil_r. apply Hent, Hin.
    + intros v' Hv' Hq'.
      apply elem_of_app in Hv' as [Hv'|Hv'%list_elem_of_singleton].
      * apply Hall; assumption.
      * congruence.
Qed.

Lemma discover_counts (allVideos : list Video) :
  counts_videos allVideos (fold_left discover_video allVideos []).
Proof.
  assert (Hgen : forall seen creatorMap,
    counts_videos seen creatorMap ->
    counts_videos (seen ++ allVideos)
      (fold_left discover_video allVideos creatorMap)).
  { induction allVideos as [|v rest IH]; intros seen creatorMap H;
      cbn [fold_left].
    - rewrite app_nil_r. exact H.
    - replace (seen ++ v :: rest) with ((seen ++ [v]) ++ rest)
        by (rewrite <- app_assoc; reflexivity).
      apply IH, discover_video_counts, H. }
  apply (Hgen [] []).
  split; [apply NoDup_nil_2 | split].
  - intros k e H. inversion H.
  - intros v H. inversion H.
Qed.

(** The creators of the result are the values of [creatorMap], finished,
    in some order. *)
Lemma discoverCreators_perm (hooks : list (string * string)) (selfIntro : string)
    (allVideos : list Video) :
  discoverCreators hooks selfIntro allVideos
  ≡ₚ map (finish_creator hooks selfIntro)
       (map snd (fold_left discover_video allVideos [])).
Proof.
  unfold discoverCreators.
  apply Permutation_map. rewrite sort_by_weight_perm. apply object_values_perm.
Qed.

Lemma handles_of_result (hooks : list (string * string)) (selfIntro : string)
    (creatorMap : list (string * Discovered)) :
  (forall k e, (k, e) ∈ creatorMap -> d_handle e = k) ->
  map d_handle (map (finish_creator hooks selfIntro) (map snd creatorMap))
  = map fst creatorMap.
Proof.
  induction creatorMap as [|[k e] rest IH]; intros H; [reflexivity|].
  cbn [map fst snd finish_creator d_handle].
  rewrite (H k e) by left. f_equal. apply IH.
  intros k' e' Hin. apply H. right. exact Hin.
Qed.

(** X27: what [discoverCreators] writes. The creators of
    [discovered-creators.json] have distinct handles; a handle is among
    them exactly when some video counts for it (it names that creator,
    shows at least two career keywords, and the handle is not a name
    every object inherits); and each creator carries the number of the
    videos that count for it as [appearances] and the best of their
    scores as [careerScore]. *)
Theorem discovered_creators_count_videos (hooks : list (string * string))
    (selfIntro : string) (allVideos : list Video) :
  let creators := discoverCreators hooks selfIntro allVideos in
  NoDup (map d_handle creators)
  /\ (forall h, h ∈ map d_handle creators <->
        exists v, v ∈ allVideos /\ qualifies v = true /\ video_handle v = h)
  /\ Forall (fun c =>
        d_appearances c = length (videos_of (d_handle c) allVideos)
        /\ d_careerScore c
           = max_list (map video_score (videos_of (d_handle c) allVideos)))
       creators.
Proof.
  intros creators. subst creators.
  destruct (discover_counts allVideos) as (Hnd & Hent & Hall).
  pose proof (discoverCreators_perm hooks selfIntro allVideos) as Hperm.
  assert (Hkeys :
    map d_handle (discoverCreators hooks selfIntro allVideos)
    ≡ₚ map fst (fold_left discover_video allVideos [])).
  { rewrite Hperm, handles_of_result; [reflexivity|].
    intros k e Hin. apply (Hent k e Hin). }
  split; [rewrite Hkeys; exact Hnd | split].
  - intros h. rewrite Hkeys. split.
    + intros Hin. apply list_elem_of_fmap in Hin as ([k e] & -> & Hin).
      destruct (Hent k e Hin) as (_ & Hne & _).
      destruct (videos_of k allVideos) as [|v l] eqn:Hv; [contradiction Hne; reflexivity|].
      assert (Hv' : v ∈ videos_of k allVideos) by (rewrite Hv; left).
      apply list_elem_of_filter in Hv' as [[Hq E] Hin'].
      exists v. auto.
    + intros (v & Hin & Hq & <-). apply Hall; assumption.
  - rewrite Hperm. apply Forall_forall. intros c Hc.
    apply list_elem_of_fmap in Hc as (e & -> & He).
    apply list_elem_of_fmap in He as ([k e'] & -> & He).
    destruct (Hent k e' He) as (E1 & _ & E3 & E4).
    cbn [snd finish_creator d_handle d_appearances d_careerScore].
    rewrite E1. split; assumption.
Qed.

Lemma insert_by_weight_descends (e : Discovered) (l : list Discovered) :
  weights_descend l = true -> weights_descend (insert_by_weight e l) = true.
Proof.
  induction l as [|e' rest IH]; cbn [insert_by_weight weights_descend];
    [reflexivity|].
  intros H. apply andb_true_iff in H as [Hall Hrest].
  destruct (Nat.ltb_spec (weight e') (weight e)) as [Hlt|Hge];
    cbn [weights_descend forallb].
  - rewrite Hall, Hrest, !andb_true_r. apply andb_true_iff. split.
    + apply Nat.leb_le. lia.
    + apply forallb_forall. intros x Hx.
      rewrite forallb_forall in Hall. specialize (Hall x Hx).
      apply Nat.leb_le in Hall. apply Nat.leb_le. lia.
  - rewrite (IH Hrest), andb_true_r.
    apply forallb_forall. intros x Hx.
    apply list_elem_of_In in Hx. rewrite insert_by_weight_perm in Hx.
    apply elem_of_cons in Hx as [->|Hx].
    + apply Nat.leb_le. exact Hge.
    + rewrite forallb_forall in Hall. apply Hall, list_elem_of_In, Hx.
Qed.

Lemma sort_by_weight_descends (l : list Discovered) :
  weights_descend (sort_by_weight l) = true.
Proof.
  unfold sort_by_weight.
  assert (Hgen : forall acc, weights_descend acc = true ->
    weights_descend (fold_left (fun sorted e => insert_by_weight e sorted) l acc)
    = true).
  { induction l as [|e rest IH]; intros acc H; cbn [fold_left]; [exact H|].
    apply IH, insert_by_weight_descends, H. }
  apply Hgen. reflexivity.
Qed.

Lemma finish_keeps_bound (hooks : list (string * string)) (selfIntro : string)
    (e : Discovered) (l : list Discovered) :
  forallb (fun e' => (weight e' <=? weight (finish_creator hooks selfIntro e))%nat)
          (map (finish_creator hooks selfIntro) l)
  = forallb (fun e' => (weight e' <=? weight e)%nat) l.
Proof.
  induction l as [|e' rest IH]; [reflexivity|].
  cbn [map forallb]. rewrite IH. reflexivity.
Qed.

Lemma finish_keeps_order (hooks : list (string * string)) (selfIntro : string)
    (l : list Discovered) :
  weights_descend (map (finish_creator hooks selfIntro) l) = weights_descend l.
Proof.
  induction l as [|e rest IH]; [reflexivity|].
  cbn [map weights_descend]. rewrite IH, finish_keeps_bound. reflexivity.
Qed.

Lemma video_score_bound (v : Video) : video_score v <= 21.
Proof.
  unfold video_score. cbv zeta.
  etransitivity; [apply length_filter|]. reflexivity.
Qed.

Lemma max_list_bounds (l : list nat) (lo hi : nat) :
  l <> [] -> Forall (fun n => lo <= n <= hi) l -> lo <= max_list l <= hi.
Proof.
  intros Hne H. split.
  - destruct H as [|n l Hn Hl]; [contradiction Hne; reflexivity|].
    cbn [max_list]. etransitivity; [apply Hn | apply Nat.le_max_l].
  - clear Hne. induction H as [|n l Hn Hl IH]; cbn [max_list]; [lia|].
    apply Nat.max_lub; [apply Hn | exact IH].
Qed.

(** X28: the order and the ranges of the creators discovered. The list is
    in descending order of [appearances * careerScore]; every creator has
    a score between 2 and 21 (the number of career keywords), between 1
    and as many appearances as there are videos, and a handle that is not
    empty. *)
Theorem discovered_creators_ranked (hooks : list (string * string))
    (selfIntro : string) (allVideos : list Video) :
  let creators := discoverCreators hooks selfIntro allVideos in
  weights_descend creators = true
  /\ Forall (fun c =>
        2 <= d_careerScore c <= 21
        /\ 1 <= d_appearances c <= length allVideos
        /\ d_handle c <> "")
       creators.
Proof.
  intros creators. subst creators. split.
  - unfold discoverCreators. rewrite finish_keeps_order.
    apply sort_by_weight_descends.
  - destruct (discover_counts allVideos) as (Hnd & Hent & Hall).
    rewrite (discoverCreators_perm hooks selfIntro allVideos).
    apply Forall_forall. intros c Hc.
    apply list_elem_of_fmap in Hc as (e & -> & He).
    apply list_elem_of_fmap in He as ([k e'] & -> & He).
    destruct (Hent k e' He) as (E1 & Hne & E3 & E4).
    cbn [snd finish_creator d_handle d_appearances d_careerScore].
    assert (Hvs : Forall (fun v => qualifies v = true /\ video_handle v = k)
                    (videos_of k allVideos)).
    { apply Forall_forall. intros v Hv.
      apply list_elem_of_filter in Hv as [Hv _]. exact Hv. }
    split; [|split].
    + rewrite E4. apply max_list_bounds.
      * intros E. apply Hne. destruct (videos_of k allVideos); [reflexivity|discriminate E].
      * apply Forall_map. eapply Forall_impl; [exact Hvs|].
        intros v [Hq _]. apply qualifies_inv in Hq as (_ & Hs & _).
        apply Nat.ltb_ge in Hs. split; [exact Hs | apply video_score_bound].
    + rewrite E3. split.
      * destruct (videos_of k allVideos); [contradiction Hne; reflexivity|].
        cbn [length]. lia.
      * apply length_filter.
    + rewrite E1. destruct (videos_of k allVideos) as [|v l] eqn:Hv;
        [contradiction Hne; reflexivity|].
      apply Forall_cons in Hvs as [[Hq <-] _].
      apply qualifies_inv in Hq as (Ht & _ & _).
      intros E. rewrite E in Ht. discriminate Ht.
Qed.

(** X29: a creator whose handle is a name every object inherits
    ([constructor], [toString], [valueOf], [__proto__], ...) is never
    discovered, however many of the videos are theirs and whatever they
    show: [creatorMap[handle]] is truthy before any entry is made, so none
    is made. *)
Theorem inherited_names_are_never_discovered (hooks : list (string * string))
    (selfIntro : string) (allVideos : list Video) (h : string) :
  is_inherited h = true ->
  h ∉ map d_handle (discoverCreators hooks selfIntro allVideos).
Proof.
  intros Hin Hh.
  destruct (discover_counts allVideos) as (Hnd & Hent & Hall).
  rewrite (discoverCreators_perm hooks selfIntro allVideos) in Hh.
  rewrite handles_of_result in Hh by (intros k e He; apply (Hent k e He)).
  apply list_elem_of_fmap in Hh as ([k e] & -> & He).
  destruct (Hent k e He) as (_ & Hne & _).
  destruct (videos_of k allVideos) as [|v l] eqn:Hv; [contradiction Hne; reflexivity|].
  assert (Hv' : v ∈ videos_of k allVideos) by (rewrite Hv; left).
  apply list_elem_of_filter in Hv' as [[Hq E] _].
  apply qualifies_inv in Hq as (_ & _ & Hq). cbn [fst] in Hin.
  rewrite E, Hin in Hq. discriminate Hq.
Qed.

Lemma inherited_names_are_never_discovered_witness :
  "constructor" ∉ map d_handle (discoverCreators HOOKS "" three_videos).
Proof. apply inherited_names_are_never_discovered. reflexivity. Defined.

(* ===================================================================== *)
(** ** From discovery to the send run *)
(* ===================================================================== *)

Lemma send_creator_opens (cfg : Config) (env : CandidateEnv) (ci : nat)
    (c : Creator) (h : string) (m : Machine) :
  wp (send_creator cfg env ci c)
     (fun _ m' =>
        occurrences (OpenProfile h) (log m')
        <= (if String.eqb h (c_handle c) then 1 else 0)
           + occurrences (OpenProfile h) (log m)) m.
Proof.
  unfold send_creator.
  wp_exec; cbn [occurrences event_eqb];
    destruct (String.eqb h (c_handle c)); lia.
Qed.

Lemma send_creators_open (cfg : Config) (envs : nat -> CandidateEnv) (ci : nat)
    (creators : list Creator) (h : string) (m : Machine) :
  wp (send_creators cfg envs ci creators)
     (fun _ m' =>
        occurrences (OpenProfile h) (log m')
        <= length (filter (fun c => c_handle c = h) creators)
           + occurrences (OpenProfile h) (log m)) m.
Proof.
  revert ci m. induction creators as [|c rest IH]; intros ci m;
    cbn [send_creators].
  - apply wp_ret. cbn. lia.
  - apply wp_bind. eapply wp_mono; [apply (send_creator_opens cfg _ ci c h)|].
    intros [[]|] m1 H1; cbv beta iota.
    + eapply wp_mono; [apply IH|]. cbv beta. intros _ m2 H2.
      destruct (String.eqb_spec h (c_handle c)) as [->|Hne].
      * rewrite filter_cons_True by reflexivity. cbn [length]. lia.
      * rewrite filter_cons_False by congruence. lia.
    + destruct (String.eqb_spec h (c_handle c)) as [->|Hne].
      * rewrite filter_cons_True by reflexivity. cbn [length]. lia.
      * rewrite filter_cons_False by congruence. lia.
Qed.

Lemma once_in_distinct (creators : list Creator) (h : string) :
  NoDup (map c_handle creators) ->
  length (filter (fun c => c_handle c = h) creators) <= 1.
Proof.
  induction creators as [|c rest IH]; cbn [map]; intros Hnd; [cbn; lia|].
  apply NoDup_cons in Hnd as [Hc Hnd].
  destruct (decide (c_handle c = h)) as [E|E].
  - rewrite filter_cons_True by exact E. cbn [length].
    assert (Hnone : filter (fun c => c_handle c = h) rest = []).
    { apply filter_none, Forall_forall. intros c' Hc' E'.
      apply Hc. rewrite E, <- E'. apply (list_elem_of_fmap_2 c_handle _ _ Hc'). }
    rewrite Hnone. cbn. lia.
  - rewrite filter_cons_False by exact E. apply IH, Hnd.
Qed.

(** X30: a send run on the creators [discoverCreators] found opens the
    profile of each handle at most once, however often the discovery API
    returned that creator and whatever happens during the run. *)
Theorem discovered_creators_opened_once (hooks : list (string * string))
    (selfIntro : string) (allVideos : list Video) (cfg : Config) (env : SendEnv)
    (file : gmap string CreatorState) (h : string) :
  s_creators env = map to_creator (discoverCreators hooks selfIntro allVideos) ->
  occurrences (OpenProfile h) (log (exec_run cfg (SendRun env) file)) <= 1.
Proof.
  intros Hcreators.
  assert (Hnd : NoDup (map c_handle (s_creators env))).
  { rewrite Hcreators, map_map. cbn [to_creator c_handle].
    destruct (discover_counts allVideos) as (Hnd & Hent & _).
    rewrite (discoverCreators_perm hooks selfIntro allVideos).
    rewrite handles_of_result by (intros k e He; apply (Hent k e He)).
    exact Hnd. }
  pose proof (once_in_distinct _ h Hnd) as Hone.
  unfold exec_run. cbn [run_program].
  apply (wp_run (runSend cfg env)
           (fun _ m' => occurrences (OpenProfile h) (log m') <= 1)).
  unfold runSend, guarded_run.
  wp_exec; try (cbn; lia).
  all: eapply wp_mono; [apply (send_creators_open cfg _ _ _ h)|];
    intros [[]|] m1 H1; cbn [log boot occurrences] in H1;
    wp_exec; lia.
Qed.

Lemma discovered_creators_opened_once_witness :
  occurrences (OpenProfile "sam.codes")
    (log (exec_run plain_cfg
            (SendRun
               {| s_raises := no_raise;
                  s_creators :=
                    map to_creator (discoverCreators HOOKS "" three_videos);
                  s_candidates := fun _ => calm alice_page FetchRejects SendAll |})
            ∅))
  <= 1.
Proof.
  apply (discovered_creators_opened_once HOOKS "" three_videos). reflexivity.
Defined.
